(** * Activation-addition optimisation: a shallow embedding of
    [algebraic_value_editing/optimize.py] and of the word-count metric of
    [algebraic_value_editing/metrics.py].

    Conventions.
    - Python exceptions are values of [exn]; a call that may raise returns a
      [result].
    - Floating-point scalars are modelled by exact rationals ([Q]); the
      properties below are about which entries are added, in which order,
      and what they are divided by, not about rounding.
    - A 2-D [torch] tensor is a record of its column count and its rows, so
      that a tensor with zero rows still has a width, as in [torch].
    - The language model, the pseudo-random generators, the automatic
      differentiation, the AdamW update and the logging backend are
      collaborators of the code: the trainer is written over the class
      [Train.Collaborators]; the tokenizer is a section variable of the
      corpus builder. *)

From Stdlib Require Import QArith Qabs DecimalString.
From Stdlib Require OrderedTypeEx DecimalN.
From Stdlib Require Import Sorted.
From stdpp Require Import base list strings.
From Stdlib Require Import Lia.

Set Default Proof Using "Type".
Local Open Scope nat_scope.

(** ** Exceptions and results *)

Inductive exn : Type :=
  | AssertionError
  | IndexError
  | KeyError
  | ValueError
  | RuntimeError
  | ZeroDivisionError
  | FileExistsError
  | FileNotFoundError
  | AttributeError
  | ExternalError (code : nat).

Inductive result (A : Type) : Type :=
  | Ok (a : A)
  | Raise (e : exn).
Arguments Ok {A} a.
Arguments Raise {A} e.

Definition rbind {A B} (r : result A) (k : A → result B) : result B :=
  match r with
  | Ok a => k a
  | Raise e => Raise e
  end.

Notation "'let?' x ':=' r 'in' k" := (rbind r (fun x => k))
  (at level 10, x pattern, r at level 100, k at level 200).

Fixpoint traverse {A B} (f : A → result B) (l : list A) : result (list B) :=
  match l with
  | [] => Ok []
  | x :: l' =>
      let? y := f x in
      let? ys := traverse f l' in
      Ok (y :: ys)
  end.

Definition is_ok {A} (r : result A) : bool :=
  match r with Ok _ => true | Raise _ => false end.

(** ** Tensors *)

Record tensor2 (A : Type) : Type := Tensor2 {
  ncols : nat;
  rows : list (list A)
}.
Arguments Tensor2 {A} ncols rows.
Arguments ncols {A} t.
Arguments rows {A} t.

Definition nrows {A} (t : tensor2 A) : nat := length (rows t).

(** [t.numel()] *)
Definition numel {A} (t : tensor2 A) : nat := nrows t * ncols t.

(** Every row has the width the tensor announces. *)
Definition wf2 {A} (t : tensor2 A) : Prop :=
  Forall (fun r => length r = ncols t) (rows t).

Definition wf2b {A} (t : tensor2 A) : bool :=
  forallb (fun r => Nat.eqb (length r) (ncols t)) (rows t).

(** [t.concat(ts, dim=0)] on 2-D tensors: an empty list of tensors is
    refused, and so are tensors of different widths. *)
Definition concat_rows {A} (ts : list (tensor2 A)) : result (tensor2 A) :=
  match ts with
  | [] => Raise RuntimeError
  | t0 :: _ =>
      if forallb (fun t => Nat.eqb (ncols t) (ncols t0)) ts
      then Ok (Tensor2 (ncols t0) (concat (map rows ts)))
      else Raise RuntimeError
  end.

(** [t.concat(vs, dim=0)] on 1-D tensors. *)
Definition concat_vecs {A} (vs : list (list A)) : result (list A) :=
  match vs with
  | [] => Raise RuntimeError
  | _ => Ok (concat vs)
  end.

(** [x[start : start + n, :]] *)
Definition slice_rows {A} (start n : nat) (t : tensor2 A) : tensor2 A :=
  Tensor2 (ncols t) (take n (drop start (rows t))).

(** [x[:, 0]]: the first column, refused when the tensor has no column. *)
Definition column0 {A} (t : tensor2 A) : result (list A) :=
  if Nat.eqb (ncols t) 0 then Raise IndexError
  else traverse (fun r => match r with
                          | [] => Raise IndexError
                          | a :: _ => Ok a
                          end) (rows t).

(** ** Corpus builder *)

Module Corpus.

(** [t.arange(0, stop, step)] for an integer [stop] and a natural [step]:
    a zero step is refused, and so is an upper bound below the start
    ([torch] checks that the bounds agree with the sign of the step). *)
Definition arange_from0 (stop : Z) (step : nat) : result (list nat) :=
  if Nat.eqb step 0 then Raise RuntimeError
  else if (stop <? 0)%Z then Raise RuntimeError
  else Ok (map (fun i => i * step)
               (seq 0 ((Z.to_nat stop + step - 1) / step))).

(** [t.arange(context_len)[None, :] + starts[:, None]] *)
Definition window_indices (context_len : nat) (starts : list nat)
  : list (list nat) :=
  map (fun s => map (fun j => j + s) (seq 0 context_len)) starts.

(** [tokens[0, :][inds]]: advanced indexing; an index past the end is an
    [IndexError]. *)
Definition index_select (toks : list Z) (inds : list (list nat))
  : result (list (list Z)) :=
  traverse (traverse (fun k => match toks !! k with
                               | Some x => Ok x
                               | None => Raise IndexError
                               end)) inds.

(** The body of the loop of [corpus_to_token_batches] for one label, from
    the token row [tokens[0, :]] of the label's concatenated text. *)
Definition token_snippets (toks : list Z) (context_len stride : nat)
  : result (tensor2 Z) :=
  let? starts :=
    arange_from0 (Z.of_nat (length toks) - Z.of_nat context_len) stride in
  let? snippets := index_select toks (window_indices context_len starts) in
  Ok (Tensor2 context_len snippets).

(** A row of the [texts] data frame. *)
Record row : Type := Row { text : string; label : string }.

(** [str.join] *)
Fixpoint join (sep : string) (parts : list string) : string :=
  match parts with
  | [] => ""
  | [p] => p
  | p :: ps => p +:+ sep +:+ join sep ps
  end.

(** The group keys of [texts.groupby(label_col)]: the distinct labels, in
    increasing order ([groupby] sorts its keys). *)
Fixpoint insert_key (l : string) (keys : list string) : list string :=
  match keys with
  | [] => [l]
  | k :: keys' =>
      if String.eqb l k then keys
      else if String.ltb l k then l :: keys
      else k :: insert_key l keys'
  end.

Definition group_keys (texts : list row) : list string :=
  foldr insert_key [] (map label texts).

(** [texts.groupby(label_col).agg({"text": eos.join})["text"]] *)
Definition grouped_texts (eos : string) (texts : list row)
  : list (string * string) :=
  map (fun l =>
         (l, join eos (map text
                         (filter (fun r => label r = l) texts))))
      (group_keys texts).

Section WithModel.
(** [model.to_tokens(text)[0, :]] and [model.tokenizer.eos_token]. *)
Variable to_tokens : string → list Z.
Variable eos_token : string.

Definition corpus_to_token_batches (texts : list row)
    (context_len stride : nat) : result (list (string * tensor2 Z)) :=
  traverse (fun '(l, txt) =>
              let? snippets :=
                token_snippets (to_tokens txt) context_len stride in
              Ok (l, snippets))
           (grouped_texts eos_token texts).
End WithModel.

(** [load_corpus_from_files]. [filenames] is a Python dict from a label to
    its file names, in insertion order; [read] is
    [open(filename, "r", encoding="utf8").read()], which may raise. The
    rows of the frame are in the order of the two loops. *)
Definition labelled_files (filenames : list (string * list string))
  : list (string * string) :=
  flat_map (fun '(l, filenames_list) => map (fun f => (l, f)) filenames_list)
           filenames.

Definition load_corpus_from_files (read : string → result string)
    (filenames : list (string * list string)) : result (list row) :=
  traverse (fun '(l, filename) =>
              let? txt := read filename in
              Ok (Row txt l))
           (labelled_files filenames).

(** Strictly increasing keys. *)
Definition keys_sorted (keys : list string) : Prop :=
  StronglySorted (fun a b => String.ltb a b = true) keys.

End Corpus.

(** ** Scalars of the training loss *)

(** A float that may have left the finite range. Only a division by zero
    produces the special values here. *)
Inductive scalar : Type :=
  | Finite (q : Q)
  | PosInf
  | NegInf
  | NaN.

Definition is_finite (s : scalar) : bool :=
  match s with Finite _ => true | _ => false end.

(** [x / n] in float arithmetic, for a count [n]: [0/0] is NaN and [x/0] an
    infinity of the sign of [x]; no exception is raised. *)
Definition float_div_count (x : Q) (n : nat) : scalar :=
  if Nat.eqb n 0 then
    if Qeq_bool x 0 then NaN
    else if Qle_bool 0 x then PosInf else NegInf
  else Finite (x / inject_Z (Z.of_nat n)).

Definition scalar_add (a b : scalar) : scalar :=
  match a, b with
  | NaN, _ | _, NaN => NaN
  | Finite x, Finite y => Finite (x + y)
  | PosInf, NegInf | NegInf, PosInf => NaN
  | PosInf, _ | _, PosInf => PosInf
  | NegInf, _ | _, NegInf => NegInf
  end.

(** [x / n] for a Python float [x] and a Python int [n]: Python raises on a
    zero divisor. *)
Definition py_float_div (x : scalar) (n : nat) : result scalar :=
  if Nat.eqb n 0 then Raise ZeroDivisionError
  else Ok (match x with
           | Finite q => Finite (q / inject_Z (Z.of_nat n))
           | s => s
           end).

(** ** The three-part loss of a mini-batch (lines 238-256) *)

Module Loss.

Definition Qsum (l : list Q) : Q := foldr Qplus 0%Q l.

(** [x.sum()] over all entries, row by row. *)
Definition tensor_sum (t : tensor2 Q) : Q := Qsum (concat (rows t)).

(** [t.abs(x)] *)
Definition tensor_abs (t : tensor2 Q) : tensor2 Q :=
  Tensor2 (ncols t) (map (map Qabs) (rows t)).

(** Broadcasting of one dimension: equal sizes, or one of them is 1. *)
Definition broadcast_dim (n m : nat) : result nat :=
  if Nat.eqb n m then Ok n
  else if Nat.eqb n 1 then Ok m
  else if Nat.eqb m 1 then Ok n
  else Raise RuntimeError.

Definition expand_row {A} (n : nat) (r : list A) : list A :=
  match r with
  | [a] => if Nat.eqb n 1 then r else replicate n a
  | _ => r
  end.

(** [x.expand(n, m)] for a tensor whose dimensions are [n], [m] or 1. *)
Definition expand {A} (n m : nat) (t : tensor2 A) : tensor2 A :=
  let rs := map (expand_row m) (rows t) in
  Tensor2 m (match rs with
             | [r] => if Nat.eqb n 1 then rs else replicate n r
             | _ => rs
             end).

(** [a - b] on 2-D tensors, with broadcasting. *)
Definition tensor_sub (a b : tensor2 Q) : result (tensor2 Q) :=
  let? n := broadcast_dim (nrows a) (nrows b) in
  let? m := broadcast_dim (ncols a) (ncols b) in
  Ok (Tensor2 m (zip_with (zip_with Qminus)
                          (rows (expand n m a)) (rows (expand n m b)))).

(** The rows a mask selects. *)
Definition selected {A} (mask : list bool) (rs : list (list A))
  : list (list A) :=
  map snd (filter (fun p => fst p = true) (zip mask rs)).

(** [x[mask, :]] for a boolean mask over the rows; the mask must have one
    entry per row. *)
Definition select_rows {A} (mask : list bool) (t : tensor2 A)
  : result (tensor2 A) :=
  if Nat.eqb (length mask) (nrows t)
  then Ok (Tensor2 (ncols t) (selected mask (rows t)))
  else Raise IndexError.

(** [batch["aligned"] == v] *)
Definition tag_mask (aligned : list Z) (v : Z) : list bool :=
  map (fun a => Z.eqb a v) aligned.

(** [relative_loss[batch["aligned"] == 1, :].sum()] *)
Definition aligned_term (rel : tensor2 Q) (aligned : list Z) : result Q :=
  let? sel := select_rows (tag_mask aligned 1) rel in
  Ok (tensor_sum sel).

(** [-relative_loss[batch["aligned"] == -1, :].sum()] *)
Definition opposed_term (rel : tensor2 Q) (aligned : list Z) : result Q :=
  let? sel := select_rows (tag_mask aligned (-1)) rel in
  Ok (- tensor_sum sel)%Q.

(** The neutral penalty, by [neutral_loss_method]; every method other than
    ["abs_of_mean"] takes the [else] branch. *)
Definition neutral_term (neutral_loss_method : string) (neutral_loss_beta : Q)
    (rel : tensor2 Q) (aligned : list Z) : result Q :=
  let? sel := select_rows (tag_mask aligned 0) rel in
  if String.eqb neutral_loss_method "abs_of_mean"
  then Ok (neutral_loss_beta * Qabs (tensor_sum sel))%Q
  else Ok (neutral_loss_beta * tensor_sum (tensor_abs sel))%Q.

(** Lines 240-254: [loss = a; loss += o; loss += n]. *)
Definition three_part_loss (neutral_loss_method : string)
    (neutral_loss_beta : Q) (rel : tensor2 Q) (aligned : list Z)
  : result Q :=
  let? a := aligned_term rel aligned in
  let? o := opposed_term rel aligned in
  let? n := neutral_term neutral_loss_method neutral_loss_beta rel aligned in
  Ok (a + o + n)%Q.

(** Lines 238-256, from the per-token loss of the hooked model and the
    batch's tags and cached baseline loss. *)
Definition batch_loss (neutral_loss_method : string) (neutral_loss_beta : Q)
    (loss_per_token : tensor2 Q) (aligned : list Z)
    (normal_loss : tensor2 Q) : result scalar :=
  let? relative_loss := tensor_sub loss_per_token normal_loss in
  let? loss := three_part_loss neutral_loss_method neutral_loss_beta
                 relative_loss aligned in
  Ok (float_div_count loss (numel relative_loss)).

(** *** The loss formula in the words of the specification

    These definitions follow the specification, not the code; the code is
    compared with them.

    [sum(relative_loss where tag == v)], entry by entry: the sum of the
    entries of [rel] in the rows whose tag is [tag]. *)
Fixpoint spec_sum_where (tag : Z) (aligned : list Z) (rel : list (list Q))
  : Q :=
  match aligned, rel with
  | a :: aligned', r :: rel' =>
      ((if Z.eqb a tag then Qsum r else 0) + spec_sum_where tag aligned' rel')%Q
  | _, _ => 0%Q
  end.

(** [relative_loss = loss_per_token - baseline_loss_per_token],
    element-wise. *)
Definition spec_relative_loss (loss baseline : list (list Q))
  : list (list Q) :=
  zip_with (zip_with Qminus) loss baseline.

Definition spec_neutral_penalty (method : string) (beta : Q)
    (aligned : list Z) (rel : list (list Q)) : Q :=
  if String.eqb method "abs_of_mean"
  then (beta * Qabs (spec_sum_where 0 aligned rel))%Q
  else (beta * spec_sum_where 0 aligned (map (map Qabs) rel))%Q.

Definition spec_loss (method : string) (beta : Q) (aligned : list Z)
    (rel : list (list Q)) : Q :=
  (spec_sum_where 1 aligned rel - spec_sum_where (-1) aligned rel
   + spec_neutral_penalty method beta aligned rel)%Q.

End Loss.

(** ** Aligned token dataset *)

Module Dataset.

(** [label in labels] on a Python list of strings. *)
Definition py_in (l : string) (labels : list string) : bool :=
  existsb (String.eqb l) labels.

(** Lines 81-86. *)
Definition aligned_val (aligned_labels : list string)
    (opposed_labels : option (list string)) (l : string) : Z :=
  if py_in l aligned_labels then 1%Z
  else match opposed_labels with
       | Some opposed => if py_in l opposed then (-1)%Z else 0%Z
       | None => 0%Z
       end.

(** [t.full_like(tokens[:, 0], aligned_val, dtype=int)] *)
Definition full_like_column0 (tokens : tensor2 Z) (v : Z) : result (list Z) :=
  let? col := column0 tokens in
  Ok (map (fun _ => v) col).

(** [range(0, stop, step)] of Python; a zero step is a [ValueError]. *)
Definition py_range_from0 (stop step : nat) : result (list nat) :=
  if Nat.eqb step 0 then Raise ValueError
  else Ok (map (fun i => i * step) (seq 0 ((stop + step - 1) / step))).

Record t : Type := Make {
  tokens : tensor2 Z;
  aligned : list Z;
  normal_loss : option (tensor2 Q)
}.

(** Lines 97-115: the cached per-token loss of the unperturbed model, in
    consecutive batches of [batch_size] snippets. *)
Definition cache_normal_loss (model : tensor2 Z → result (tensor2 Q))
    (toks : tensor2 Z) (batch_size : nat) : result (tensor2 Q) :=
  let? starts := py_range_from0 (nrows toks) batch_size in
  let? normal_losses_list :=
    traverse (fun start_idx => model (slice_rows start_idx batch_size toks))
             starts in
  let? normal_loss := concat_rows normal_losses_list in
  if Nat.eqb (nrows toks) (nrows normal_loss) then Ok normal_loss
  else Raise AssertionError.

(** [AlignedTokensDataset.__init__]. [tokens_by_label] is a Python dict: an
    association list in insertion order. [model] is the call
    [model(tokens_batch, return_type="loss", loss_per_token=True)], when a
    model is given. *)
Definition init (tokens_by_label : list (string * tensor2 Z))
    (aligned_labels : list string) (opposed_labels : option (list string))
    (model : option (tensor2 Z → result (tensor2 Q))) (batch_size : nat)
  : result t :=
  let? aligned_list :=
    traverse (fun '(l, toks) =>
                full_like_column0 toks
                  (aligned_val aligned_labels opposed_labels l))
             tokens_by_label in
  let tokens_list := map snd tokens_by_label in
  let? toks := concat_rows tokens_list in
  let? al := concat_vecs aligned_list in
  if negb (Nat.eqb (nrows toks) (length al)) then Raise AssertionError
  else
    match model with
    | Some m =>
        let? nl := cache_normal_loss m toks batch_size in
        Ok (Make toks al (Some nl))
    | None => Ok (Make toks al None)
    end.

(** [__len__] *)
Definition len (d : t) : nat := nrows (tokens d).

Record item : Type := Item {
  item_tokens : list Z;
  item_aligned : Z;
  item_normal_loss : option (list Q)
}.

Definition lookup_or_raise {A} (l : list A) (i : nat) : result A :=
  match l !! i with
  | Some a => Ok a
  | None => Raise IndexError
  end.

(** [__getitem__] for a natural index. *)
Definition getitem (d : t) (idx : nat) : result item :=
  let? toks := lookup_or_raise (rows (tokens d)) idx in
  let? al := lookup_or_raise (aligned d) idx in
  match normal_loss d with
  | Some nl =>
      let? r := lookup_or_raise (rows nl) idx in
      Ok (Item toks al (Some r))
  | None => Ok (Item toks al None)
  end.

(** *** Predicates on datasets *)

(** The blocks of tags that [init] builds, one per label. *)
Definition tag_blocks (al : list string) (ol : option (list string))
    (tbl : list (string * tensor2 Z)) : list (list Z) :=
  map (fun e => replicate (nrows (snd e)) (aligned_val al ol (fst e))) tbl.

(** The number of snippets that carry the tag [v]. *)
Definition count_tag (v : Z) (tags : list Z) : nat :=
  length (filter (fun a => a = v) tags).

(** A model that returns one loss per input token, in the shape of its
    input: on a tensor of tokens it returns a tensor of the same width. *)
Definition shape_preserving (m : tensor2 Z → result (tensor2 Q)) : Prop :=
  ∀ x y, wf2 x → m x = Ok y → wf2 y ∧ ncols y = ncols x.

End Dataset.

(** ** Mini-batches of the [DataLoader] *)

Module Loader.

(** A collated mini-batch: the stacked fields of its items. *)
Record batch : Type := Batch {
  batch_tokens : tensor2 Z;
  batch_aligned : list Z;
  batch_normal_loss : option (tensor2 Q)
}.

(** [BatchSampler] with [drop_last=False]: consecutive groups of
    [batch_size] indices, and a last, shorter group for the remainder. *)
Fixpoint batch_indices (batch_size : nat) (cur : list nat)
    (sampled : list nat) : list (list nat) :=
  match sampled with
  | [] => match cur with [] => [] | _ => [cur] end
  | idx :: rest =>
      let cur' := cur ++ [idx] in
      if Nat.eqb (length cur') batch_size
      then cur' :: batch_indices batch_size [] rest
      else batch_indices batch_size cur' rest
  end.

(** [default_collate] on the items of one group: the fields are stacked;
    the key ["normal_loss"] is present when the items have it. *)
Definition collate (d : Dataset.t) (items : list Dataset.item) : batch :=
  Batch (Tensor2 (ncols (Dataset.tokens d)) (map Dataset.item_tokens items))
        (map Dataset.item_aligned items)
        (match Dataset.normal_loss d with
         | Some nl =>
             Some (Tensor2 (ncols nl)
                     (flat_map (fun it => match Dataset.item_normal_loss it with
                                          | Some r => [r]
                                          | None => []
                                          end) items))
         | None => None
         end).

(** Fetching one mini-batch. *)
Definition fetch (d : Dataset.t) (idxs : list nat) : result batch :=
  let? items := traverse (Dataset.getitem d) idxs in
  Ok (collate d items).

(** The mini-batches of one pass over the dataset, for the order [perm]
    drawn by the sampler. *)
Definition epoch_batches (batch_size : nat) (perm : list nat)
  : list (list nat) :=
  batch_indices batch_size [] perm.

End Loader.

(** ** The injection hook *)

(** An activation [batch pos d_model]: its two inner dimensions and one
    matrix per batch element. *)
Record tensor3 : Type := Tensor3 {
  dim_pos : nat;
  dim_model : nat;
  items3 : list (list (list Q))
}.


(** [row += v] with [v] broadcast to the width [d] of the row: [v] has [d]
    entries, or one entry that is added everywhere. *)
Definition add_broadcast (d : nat) (v : list Q) (row : list Q)
  : list Q :=
  if Nat.eqb (length v) d then zip_with Qplus row v
  else match v with
       | [x] => map (fun a => (a + x)%Q) row
       | _ => row
       end.

(** [hook_fn] (lines 208-211), for the current value of
    [steering_vector]: [activation[:, 0, :] += steering_vector], and the
    activation is returned. Position 0 must exist, and the vector must
    broadcast to the last dimension. *)
Definition hook_fn (steering_vector : list Q) (activation : tensor3)
  : result tensor3 :=
  if Nat.eqb (dim_pos activation) 0 then Raise IndexError
  else if negb (Nat.eqb (length steering_vector) (dim_model activation)
                || Nat.eqb (length steering_vector) 1)
  then Raise RuntimeError
  else Ok (Tensor3 (dim_pos activation) (dim_model activation)
             (map (fun m => match m with
                            | [] => []
                            | r0 :: rest =>
                                add_broadcast (dim_model activation)
                                  steering_vector r0 :: rest
                            end) (items3 activation))).

(** ** The trainer *)

Module Train.

(** A registered hook function: it reads the parameter store when it runs,
    as the Python closure reads [steering_vector] when it is called. *)
Definition closure : Type := list (list Q) → tensor3 → result tensor3.

Record hook_entry : Type := HookEntry {
  hook_level : nat;
  hook_site : string;
  hook_body : closure
}.

(** One record of [wandb.log]. *)
Record log_record : Type := LogRecord {
  log_loss : scalar;
  log_epoch : nat;
  log_norm : Q
}.

(** The arguments of [learn_activation_addition]. [corpus_name],
    [wandb_project_name] and [wandb_additional_config] only label the
    wandb run and are left out. *)
Record args : Type := Args {
  act_name : string;
  tokens_by_label : list (string * tensor2 Z);
  aligned_labels : list string;
  opposed_labels : option (list string);
  lr : Q;
  weight_decay : Q;
  neutral_loss_method : string;
  neutral_loss_beta : Q;
  num_epochs : nat;
  batch_size : nat;
  seed : Z;
  do_print : bool;
  use_wandb : bool
}.

(** [f"steering_vector_epoch_{epoch:04d}.pt"] *)
Definition pad4 (s : string) : string :=
  String.concat "" (replicate (4 - String.length s) "0") +:+ s.

Definition checkpoint_basename (epoch : nat) : string :=
  "steering_vector_epoch_"
    +:+ pad4 (DecimalString.NilEmpty.string_of_uint (Nat.to_uint epoch))
    +:+ ".pt".

(** [os.path.join(dir, name)] for a relative [name]. *)
Definition path_join (dir name : string) : string := dir +:+ "/" +:+ name.

Definition is_under (dir path : string) : bool :=
  String.prefix (dir +:+ "/") path.

(** The collaborators of the trainer. *)
Class Collaborators : Type := {
  (** Pseudo-random generators: the state a seed gives, a draw of [n]
      normal samples, and the index order one pass of a shuffling
      [DataLoader] draws. *)
  rng : Type;
  manual_seed : Z → rng;
  randn : nat → rng → list Q * rng;
  randperm : nat → rng → list nat * rng;
  (** The model: [model(tokens, return_type="loss", loss_per_token=True)]
      under the forward hooks in force, the names of its hook points, and
      [model.cfg.d_model]. *)
  forward :
    list (string * (tensor3 → result tensor3)) → tensor2 Z →
    result (tensor2 Q);
  hook_point : string → bool;
  d_model : nat;
  (** [loss.backward()]: the gradient, at a point, of the loss as a
      function of the steering vector. *)
  autograd : (list Q → result scalar) → list Q → list Q;
  (** [t.optim.AdamW]: its state, and one [step] from the learning rate,
      the weight decay, the parameter and its gradient. *)
  opt_state : Type;
  adamw_init : opt_state;
  adamw_step : Q → Q → opt_state → list Q → list Q → list Q * opt_state;
  (** [steering_vector.norm()] *)
  vec_norm : list Q → Q;
  (** The name [wandb] gives its [n]-th run. *)
  wandb_run_name : nat → string
}.

Section Trainer.
Context `{Collaborators}.

(** What a call can read and change outside its arguments. *)
Record world : Type := World {
  global_rng : rng;
  hooks : list hook_entry;
  context_level : nat;
  params : list (list Q);
  dirs : list string;
  files : list (string * list Q);
  wandb_started : nat;
  wandb_active : option string;
  wandb_finished : list string;
  wandb_logged : list log_record;
  wandb_saved : list string;
  stdout : list (nat * scalar);
  (** Ghost: the hooks (level, site) in force at each forward pass of
      the epoch loop. *)
  training_passes : list (list (nat * string))
}.

Definition set_global_rng (r : rng) (w : world) : world :=
  World r (hooks w) (context_level w) (params w) (dirs w) (files w)
    (wandb_started w) (wandb_active w) (wandb_finished w)
    (wandb_logged w) (wandb_saved w) (stdout w) (training_passes w).

Definition set_hooks (hs : list hook_entry) (lvl : nat) (w : world)
  : world :=
  World (global_rng w) hs lvl (params w) (dirs w) (files w)
    (wandb_started w) (wandb_active w) (wandb_finished w)
    (wandb_logged w) (wandb_saved w) (stdout w) (training_passes w).

Definition set_params (ps : list (list Q)) (w : world) : world :=
  World (global_rng w) (hooks w) (context_level w) ps (dirs w) (files w)
    (wandb_started w) (wandb_active w) (wandb_finished w)
    (wandb_logged w) (wandb_saved w) (stdout w) (training_passes w).

Definition set_fs (ds : list string) (fs : list (string * list Q))
    (w : world) : world :=
  World (global_rng w) (hooks w) (context_level w) (params w) ds fs
    (wandb_started w) (wandb_active w) (wandb_finished w)
    (wandb_logged w) (wandb_saved w) (stdout w) (training_passes w).

Definition set_wandb_run (n : nat) (active : option string)
    (finished : list string) (w : world) : world :=
  World (global_rng w) (hooks w) (context_level w) (params w) (dirs w)
    (files w) n active finished
    (wandb_logged w) (wandb_saved w) (stdout w) (training_passes w).

Definition set_wandb_data (logged : list log_record)
    (saved : list string) (w : world) : world :=
  World (global_rng w) (hooks w) (context_level w) (params w) (dirs w)
    (files w) (wandb_started w) (wandb_active w) (wandb_finished w)
    logged saved (stdout w) (training_passes w).

Definition set_stdout (out : list (nat * scalar)) (w : world) : world :=
  World (global_rng w) (hooks w) (context_level w) (params w) (dirs w)
    (files w) (wandb_started w) (wandb_active w) (wandb_finished w)
    (wandb_logged w) (wandb_saved w) out (training_passes w).

Definition set_training_passes (tr : list (list (nat * string)))
    (w : world) : world :=
  World (global_rng w) (hooks w) (context_level w) (params w) (dirs w)
    (files w) (wandb_started w) (wandb_active w) (wandb_finished w)
    (wandb_logged w) (wandb_saved w) (stdout w) tr.

(** *** Computations that read and change the world and may raise *)

Definition M (A : Type) : Type := world → world * result A.

Definition ret {A} (a : A) : M A := fun w => (w, Ok a).
Definition raise {A} (e : exn) : M A := fun w => (w, Raise e).
Definition lift {A} (r : result A) : M A := fun w => (w, r).
Definition bind {A B} (c : M A) (k : A → M B) : M B :=
  fun w => match c w with
           | (w', Ok a) => k a w'
           | (w', Raise e) => (w', Raise e)
           end.
Definition get : M world := fun w => (w, Ok w).
Definition modify (f : world → world) : M unit := fun w => (f w, Ok tt).

Notation "'let!' x ':=' c 'in' k" := (bind c (fun x => k))
  (at level 10, x pattern, c at level 100, k at level 200).

Definition when (b : bool) (c : M unit) : M unit :=
  if b then c else ret tt.

(** [for x in xs: acc = body(acc, x)] *)
Fixpoint for_each {A S} (xs : list A) (body : S → A → M S) (acc : S)
  : M S :=
  match xs with
  | [] => ret acc
  | x :: xs' => let! acc' := body acc x in for_each xs' body acc'
  end.

(** [try: body finally: cleanup], for a cleanup that does not raise. *)
Definition try_finally {A} (body : M A) (cleanup : world → world) : M A :=
  fun w => let '(w', r) := body w in (cleanup w', r).

(** *** The logging backend and the file system *)

(** [wandb.init(..., reinit=True)]: a run still active is finished, and
    a new run becomes the active one. *)
Definition wandb_init : M string := fun w =>
  let name := wandb_run_name (wandb_started w) in
  let finished := match wandb_active w with
                  | Some old => wandb_finished w ++ [old]
                  | None => wandb_finished w
                  end in
  (set_wandb_run (S (wandb_started w)) (Some name) finished w, Ok name).

(** [Run.__exit__]: the run is finished; an exception is not swallowed. *)
Definition wandb_finish (w : world) : world :=
  match wandb_active w with
  | Some name =>
      set_wandb_run (wandb_started w) None (wandb_finished w ++ [name]) w
  | None => w
  end.

Definition wandb_log (r : log_record) : M unit :=
  modify (fun w => set_wandb_data (wandb_logged w ++ [r]) (wandb_saved w) w).

Definition wandb_save (path : string) : M unit :=
  modify (fun w => set_wandb_data (wandb_logged w) (wandb_saved w ++ [path]) w).

(** [wandb.run.name] *)
Definition wandb_run_dot_name : M string := fun w =>
  match wandb_active w with
  | Some name => (w, Ok name)
  | None => (w, Raise AttributeError)
  end.

Definition path_exists (p : string) (w : world) : bool :=
  existsb (String.eqb p) (dirs w)
  || existsb (fun f => String.eqb p (fst f)) (files w).

(** [os.mkdir(name)] *)
Definition os_mkdir (name : string) : M unit := fun w =>
  if path_exists name w then (w, Raise FileExistsError)
  else (set_fs (dirs w ++ [name]) (files w) w, Ok tt).

(** [with open(os.path.join(dir, base), "wb") as file: t.save(v, file)] *)
Definition save_tensor (dir base : string) (v : list Q) : M unit := fun w =>
  if existsb (String.eqb dir) (dirs w)
  then (set_fs (dirs w)
          (filter (fun f => fst f ≠ path_join dir base) (files w)
             ++ [(path_join dir base, v)]) w, Ok tt)
  else (w, Raise FileNotFoundError).

(** [shutil.rmtree(name)] *)
Definition shutil_rmtree (name : string) : M unit := fun w =>
  if existsb (String.eqb name) (dirs w)
  then (set_fs
          (List.filter (fun d => negb (String.eqb name d || is_under name d))
                       (dirs w))
          (List.filter (fun f => negb (is_under name (fst f))) (files w))
          w, Ok tt)
  else (w, Raise FileNotFoundError).

(** [with manager:] where [manager] is the wandb run or [nullcontext()]. *)
Definition with_manager {A} (manager : option string) (body : M A) : M A :=
  match manager with
  | Some _ => try_finally body wandb_finish
  | None => body
  end.

(** *** Hooks of the model *)

(** [self.mod_dict[name].add_hook(hook, dir="fwd",
    level=self.context_level)] *)
Definition add_hook (name : string) (f : closure) : M unit := fun w =>
  if hook_point name
  then (set_hooks (hooks w ++ [HookEntry (context_level w) name f])
                  (context_level w) w, Ok tt)
  else (w, Raise KeyError).

(** The [finally] of [HookedTransformer.hooks]: the hooks of the current
    context level are removed and the level is decremented. *)
Definition reset_hooks_end (w : world) : world :=
  set_hooks (filter (fun h => hook_level h ≠ context_level w) (hooks w))
            (context_level w - 1) w.

(** [with model.hooks(fwd_hooks=fwd_hooks):] *)
Definition model_hooks {A} (fwd_hooks : list (string * closure))
    (body : M A) : M A :=
  try_finally
    (let! _ := modify (fun w => set_hooks (hooks w) (S (context_level w)) w) in
     let! _ := for_each fwd_hooks (fun _ '(name, f) => add_hook name f) tt in
     body)
    reset_hooks_end.

(** The hook functions a forward pass runs, for a parameter store. *)
Definition hooks_in_force (store : list (list Q)) (w : world)
  : list (string * (tensor3 → result tensor3)) :=
  map (fun h => (hook_site h, hook_body h store)) (hooks w).

(** [hook_fn] as registered: a closure over the parameter
    [steering_vector], stored at [cell]. *)
Definition steering_hook (cell : nat) : closure :=
  fun store activation =>
    let? steering_vector := Dataset.lookup_or_raise store cell in
    hook_fn steering_vector activation.

(** *** The epoch loop *)

(** Lines 233-256 as a function of the value of the steering vector. *)
Definition loss_at (a : args) (w : world) (cell : nat) (b : Loader.batch)
    (v : list Q) : result scalar :=
  let? loss_per_token :=
    forward (hooks_in_force (<[cell := v]> (params w)) w)
            (Loader.batch_tokens b) in
  let? normal_loss := match Loader.batch_normal_loss b with
                      | Some nl => Ok nl
                      | None => Raise KeyError
                      end in
  Loss.batch_loss (neutral_loss_method a) (neutral_loss_beta a)
    loss_per_token (Loader.batch_aligned b) normal_loss.

Definition registered (w : world) : list (nat * string) :=
  map (fun h => (hook_level h, hook_site h)) (hooks w).

(** The body of [for batch in dataloader:]. *)
Definition train_batch (a : args) (dataset : Dataset.t) (cell epoch : nat)
    (st : opt_state * scalar * nat) (idxs : list nat)
  : M (opt_state * scalar * nat) :=
  let '(opt, epoch_loss, batch_cnt) := st in
  let! b := lift (Loader.fetch dataset idxs) in
  let! w := get in
  let! sv := lift (Dataset.lookup_or_raise (params w) cell) in
  let! _ := modify (fun w => set_training_passes
                               (training_passes w ++ [registered w]) w) in
  let! loss := lift (loss_at a w cell b sv) in
  let grad := autograd (loss_at a w cell b) sv in
  let '(sv', opt') := adamw_step (lr a) (weight_decay a) opt sv grad in
  let! _ := modify (fun w => set_params (<[cell := sv']> (params w)) w) in
  let! _ := when (use_wandb a)
              (wandb_log (LogRecord loss epoch (vec_norm sv'))) in
  ret (opt', scalar_add epoch_loss loss, S batch_cnt).

(** Lines 274-280. *)
Definition save_checkpoint (cell epoch : nat) : M unit :=
  let! name := wandb_run_dot_name in
  let! w := get in
  let! sv := lift (Dataset.lookup_or_raise (params w) cell) in
  let! _ := save_tensor name (checkpoint_basename epoch) sv in
  wandb_save (path_join name (checkpoint_basename epoch)).

(** The body of [for epoch in range(num_epochs):]. *)
Definition train_epoch (a : args) (dataset : Dataset.t) (cell : nat)
    (st : opt_state * rng) (epoch : nat) : M (opt_state * rng) :=
  let '(opt, generator) := st in
  let '(perm, generator') := randperm (Dataset.len dataset) generator in
  let! totals :=
    for_each (Loader.epoch_batches (batch_size a) perm)
             (train_batch a dataset cell epoch) (opt, Finite 0, 0) in
  let '(opt', epoch_loss, batch_cnt) := totals in
  let! _ := when (do_print a)
              (let! mean := lift (py_float_div epoch_loss batch_cnt) in
               modify (fun w => set_stdout (stdout w ++ [(epoch, mean)]) w)) in
  let! _ := when (use_wandb a) (save_checkpoint cell epoch) in
  ret (opt', generator').

(** Lines 189-280: the body of [with manager:]. It returns the cell of
    [steering_vector]. *)
Definition train (a : args) : M nat :=
  let! _ := modify (set_global_rng (manual_seed (seed a))) in
  let! w := get in
  let! dataset :=
    lift (Dataset.init (tokens_by_label a) (aligned_labels a)
            (opposed_labels a)
            (Some (forward (hooks_in_force (params w) w)))
            (batch_size a)) in
  let '(v, r) := randn d_model (global_rng w) in
  let cell := length (params w) in
  let! _ := modify (fun w => set_params (params w ++ [v])
                               (set_global_rng r w)) in
  let generator := manual_seed (seed a) in
  let! _ := if Nat.eqb (batch_size a) 0 then raise ValueError else ret tt in
  let! _ := model_hooks [(act_name a, steering_hook cell)]
              (for_each (seq 0 (num_epochs a))
                        (train_epoch a dataset cell)
                        (adamw_init, generator)) in
  ret cell.

(** Lines 157-185: the manager is the wandb run, named [run_name], or
    [nullcontext()]. *)
Definition start_logging (a : args) : M (option string) :=
  if use_wandb a
  then (let! run_name := wandb_init in
        let! _ := os_mkdir run_name in
        ret (Some run_name))
  else ret None.

Definition learn_activation_addition (a : args) : M (list Q) :=
  let! _ := if Dataset.py_in (neutral_loss_method a)
                 ["abs_of_mean"; "mean_of_abs"]%string
            then ret tt else raise AssertionError in
  let! manager := start_logging a in
  let! cell := with_manager manager (train a) in
  let! _ := match manager with
            | Some run_name => shutil_rmtree run_name
            | None => ret tt
            end in
  let! w := get in
  lift (Dataset.lookup_or_raise (params w) cell).

(** *** Predicates on worlds and computations *)

(** The hooks registered on entry sit at the current context level or
    below it. *)
Definition registry_ok (w : world) : Prop :=
  Forall (fun h => hook_level h ≤ context_level w) (hooks w).

(** What the steps of the epoch loop leave alone: the registry, the size
    of the parameter store, the directories and the active run; and every
    forward pass they record saw the registry as it was. *)
Definition frame (w w' : world) : Prop :=
  hooks w' = hooks w
  ∧ context_level w' = context_level w
  ∧ length (params w') = length (params w)
  ∧ dirs w' = dirs w
  ∧ wandb_active w' = wandb_active w
  ∧ ∃ new, training_passes w' = training_passes w ++ new
           ∧ Forall (fun e => e = registered w) new.

Definition steady {A} (c : M A) : Prop :=
  ∀ w w' r, c w = (w', r) → frame w w'.

(** A computation whose every run, returning or raising, relates the world
    before to the world after by [R]. *)
Definition preserves {A} (R : world → world → Prop) (c : M A) : Prop :=
  ∀ w w' r, c w = (w', r) → R w w'.

(** What the epoch loop leaves alone besides the fields of [frame]: the
    global generator and the count of runs; without logging, the files and
    the records of the backend; without printing, the output. *)
Definition untouched (a : args) (w w' : world) : Prop :=
  global_rng w' = global_rng w
  ∧ wandb_started w' = wandb_started w
  ∧ wandb_finished w' = wandb_finished w
  ∧ (use_wandb a = false →
     files w' = files w ∧ wandb_logged w' = wandb_logged w
     ∧ wandb_saved w' = wandb_saved w)
  ∧ (do_print a = false → stdout w' = stdout w).

Definition same_passes (w w' : world) : Prop :=
  training_passes w' = training_passes w.

Definition same_saved (w w' : world) : Prop :=
  wandb_saved w' = wandb_saved w ∧ wandb_active w' = wandb_active w.

(** The parameter stored at [cell] keeps the length [n]. *)
Definition keeps_length (cell n : nat) (w w' : world) : Prop :=
  (∃ v, params w !! cell = Some v ∧ length v = n) →
  ∃ v', params w' !! cell = Some v' ∧ length v' = n.

(** Collaborators that respect sizes: [randn n] has [n] entries, a gradient
    has the size of its parameter, and an optimizer step keeps the size of
    the parameter. *)
Definition sized_collaborators : Prop :=
  (∀ n g, length (fst (randn n g)) = n)
  ∧ (∀ f v, length (autograd f v) = length v)
  ∧ (∀ l wd st p g, length g = length p →
       length (fst (adamw_step l wd st p g)) = length p).

(** A sampler that draws one index per snippet. *)
Definition full_sampler : Prop :=
  ∀ n g, length (fst (randperm n g)) = n.

End Trainer.

End Train.

(** ** The word-count metric *)

Module Metrics.

(** Strings are taken over ASCII: on the strings of [is_ascii], the
    character classes and the case mapping below are those of Python's
    [str] methods and of [re]. On other characters Python follows the
    Unicode database, which is not modelled: the properties that depend on
    a character class are stated for ASCII strings. *)

Definition is_ascii_char (c : Ascii.ascii) : bool :=
  Ascii.nat_of_ascii c <? 128.

(** [str.isascii] *)
Definition is_ascii (s : string) : bool :=
  forallb is_ascii_char (String.list_ascii_of_string s).

Definition is_upper (c : Ascii.ascii) : bool :=
  (65 <=? Ascii.nat_of_ascii c) && (Ascii.nat_of_ascii c <=? 90).

Definition lower_char (c : Ascii.ascii) : Ascii.ascii :=
  if is_upper c then Ascii.ascii_of_nat (Ascii.nat_of_ascii c + 32) else c.

(** [str.lower], on an ASCII string. *)
Fixpoint lower (s : string) : string :=
  match s with
  | EmptyString => EmptyString
  | String c s' => String (lower_char c) (lower s')
  end.

(** The class [\w] on ASCII characters: letters, digits and the
    underscore. *)
Definition is_word_char (c : Ascii.ascii) : bool :=
  let n := Ascii.nat_of_ascii c in
  ((48 <=? n) && (n <=? 57)) || ((65 <=? n) && (n <=? 90))
  || ((97 <=? n) && (n <=? 122)) || (n =? 95).

(** [re.sub(r"\W", " ", s)] *)
Fixpoint sub_non_word (s : string) : string :=
  match s with
  | EmptyString => EmptyString
  | String c s' =>
      String (if is_word_char c then c else Ascii.ascii_of_nat 32)
             (sub_non_word s')
  end.

Definition is_space (c : Ascii.ascii) : bool :=
  let n := Ascii.nat_of_ascii c in
  (n =? 32) || ((9 <=? n) && (n <=? 13)) || ((28 <=? n) && (n <=? 31)).

(** [str.split()]: the maximal runs of characters that are not white
    space. [cur] is the run being read. *)
Fixpoint split_ws (cur : string) (s : string) : list string :=
  match s with
  | EmptyString => match cur with EmptyString => [] | _ => [cur] end
  | String c s' =>
      if is_space c
      then match cur with
           | EmptyString => split_ws EmptyString s'
           | _ => cur :: split_ws EmptyString s'
           end
      else split_ws (cur +:+ String c EmptyString) s'
  end.

(** [toks.count(word)] *)
Definition count (toks : list string) (word : string) : nat :=
  length (List.filter (String.eqb word) toks).

(** A data frame with one integer column: its index, the name of the
    column and the values, row by row. *)
Record frame : Type := Frame {
  index : list string;
  column_name : string;
  column : list nat
}.

(** The rows of a frame, as pairs of index label and value. *)
Definition frame_rows (f : frame) : list (string * nat) :=
  zip (index f) (column f).

(** [get_word_count_metric(words, case_sensitive)] *)
Definition get_word_count_metric (words : list string)
    (case_sensitive : bool) : list string → frame :=
  let words := if negb case_sensitive then map lower words else words in
  fun strs =>
    let strs_cmp := if negb case_sensitive then map lower strs else strs in
    let counts :=
      map (fun str_this =>
             let toks := split_ws EmptyString (sub_non_word str_this) in
             sum_list (map (count toks) words))
          strs_cmp in
    Frame strs "count" counts.

(** *** The OpenAI metric *)

(** [chunks(lst, size)], the generator run to its end, for a size that is
    not negative: the slices [lst[i : i + size]] for [i] in
    [range(0, len(lst), size)]. The API of OpenAI is a collaborator of the
    metric: a section variable. *)
Definition chunks {A} (lst : list A) (size : nat) : result (list (list A)) :=
  let? starts := Dataset.py_range_from0 (length lst) size in
  Ok (map (fun i => take size (drop i lst)) starts).

Definition is_digit (c : Ascii.ascii) : bool :=
  (48 <=? Ascii.nat_of_ascii c) && (Ascii.nat_of_ascii c <=? 57).

(** [str.isdigit], on an ASCII string. *)
Definition isdigit (s : string) : bool :=
  match s with
  | EmptyString => false
  | _ => forallb is_digit (String.list_ascii_of_string s)
  end.

(** The value of a string of digits, digit by digit. *)
Definition digit_step (acc : N) (c : Ascii.ascii) : N :=
  (acc * 10 + N.of_nat (Ascii.nat_of_ascii c - 48))%N.

Definition int_of_digits (s : string) : N :=
  fold_left digit_step (String.list_ascii_of_string s) 0%N.

(** The default of [sys.get_int_max_str_digits()]. *)
Definition int_max_str_digits : nat := 4300.

(** [int(s)] for a string of digits: a string of more digits than the
    limit is refused. *)
Definition py_int (s : string) : result N :=
  if int_max_str_digits <? String.length s then Raise ValueError
  else Ok (int_of_digits s).

Definition _intify (s : string) : result (option N) :=
  if isdigit s then (let? n := py_int s in Ok (Some n)) else Ok None.

Fixpoint lstrip_chars (cs : list Ascii.ascii) : list Ascii.ascii :=
  match cs with
  | [] => []
  | c :: cs' => if is_space c then lstrip_chars cs' else cs
  end.

(** [str.strip()], on an ASCII string. *)
Definition strip (s : string) : string :=
  String.string_of_list_ascii
    (rev (lstrip_chars (rev (lstrip_chars (String.list_ascii_of_string s))))).

Definition is_lower (c : Ascii.ascii) : bool :=
  (97 <=? Ascii.nat_of_ascii c) && (Ascii.nat_of_ascii c <=? 122).

Definition upper_char (c : Ascii.ascii) : Ascii.ascii :=
  if is_lower c then Ascii.ascii_of_nat (Ascii.nat_of_ascii c - 32) else c.

(** [str.title()]: a letter after a letter is lowered, any other letter is
    raised. *)
Fixpoint title_from (previous_is_cased : bool) (s : string) : string :=
  match s with
  | EmptyString => EmptyString
  | String c s' =>
      String (if previous_is_cased then lower_char c else upper_char c)
             (title_from (is_lower c || is_upper c) s')
  end.

Definition title (s : string) : string := title_from false s.

Definition newline : string := String (Ascii.ascii_of_nat 10) EmptyString.

(** The frame [pd.DataFrame({"rating": ..., "reasoning": ...}, index=...)]:
    columns of different lengths, or of a length other than that of the
    index, are refused. *)
Record rating_frame : Type := RatingFrame {
  rating_index : list string;
  rating : list (option N);
  reasoning : list string
}.

Definition data_frame (ratings : list (option N)) (reasons : list string)
    (idx : list string) : result rating_frame :=
  if Nat.eqb (length ratings) (length reasons)
     && Nat.eqb (length ratings) (length idx)
  then Ok (RatingFrame idx ratings reasons)
  else Raise ValueError.

(** A request to [openai.Completion.create]: the prompts and
    [max_tokens]. *)
Definition request : Type := list string * nat.

Section OpenAI.

(** [openai.Completion.create(model=model_name, prompt=prompts,
    temperature=0.0, max_tokens=n)]: the texts of the choices of the
    response, or the exception of the call. *)
Variable create : list string → nat → result (list string).

Variable criterion : string.
Variable chunk_size : nat.
Variable max_reasoning_tokens : nat.

Definition reasoning_prompt (s : string) : string :=
  "How " +:+ criterion
    +:+ " is this text? Give reasoning in 1-3 sentences. Text:" +:+ newline
    +:+ s +:+ newline +:+ "Reasoning:" +:+ newline.

Definition rating_prompt (ctx : string) : string :=
  ctx +:+ newline +:+ newline +:+ title criterion +:+ " rating (1-5):".

(** The body of the loop over the chunks: the requests it sends, and the
    ratings and the reasoning of the chunk. *)
Definition rate_chunk (chunk : list string)
  : list request * result (list (option N) * list string) :=
  let prompts := map reasoning_prompt chunk in
  match create prompts max_reasoning_tokens with
  | Raise e => ([(prompts, max_reasoning_tokens)], Raise e)
  | Ok chunk_reasoning =>
      let contexts := zip_with String.append prompts chunk_reasoning in
      let prompts' := map rating_prompt contexts in
      match create prompts' 1 with
      | Raise e =>
          ([(prompts, max_reasoning_tokens); (prompts', 1)], Raise e)
      | Ok texts =>
          ([(prompts, max_reasoning_tokens); (prompts', 1)],
           let? chunk_ratings :=
             traverse (fun text => _intify (strip text)) texts in
           Ok (chunk_ratings, chunk_reasoning))
      end
  end.

Fixpoint rate_chunks (cs : list (list string))
    (ratings : list (option N)) (reasons : list string)
  : list request * result (list (option N) * list string) :=
  match cs with
  | [] => ([], Ok (ratings, reasons))
  | chunk :: rest =>
      match rate_chunk chunk with
      | (sent, Raise e) => (sent, Raise e)
      | (sent, Ok (chunk_ratings, chunk_reasoning)) =>
          let '(sent', r) :=
            rate_chunks rest (ratings ++ chunk_ratings)
              (reasons ++ chunk_reasoning) in
          (sent ++ sent', r)
      end
  end.

(** [get_openai_metric(model_name, criterion, chunk_size,
    max_reasoning_tokens)] applied to [strs]: the requests sent, in their
    order, and the frame. *)
Definition get_openai_metric (strs : list string)
  : list request * result rating_frame :=
  match chunks strs chunk_size with
  | Raise e => ([], Raise e)
  | Ok cs =>
      let '(sent, r) := rate_chunks cs [] [] in
      (sent, let? totals := r in
             data_frame (fst totals) (snd totals) strs)
  end.

End OpenAI.


End Metrics.

(** ** A small model, for running the trainer *)

Module Toy.
Import Train.

(** Each token is embedded as a one-entry row; the hooks run on that
    activation in the order of their registration, and the loss of a token
    is the entry that is left. A hook that raises aborts the pass. *)
Definition embed (toks : tensor2 Z) : tensor3 :=
  Tensor3 (ncols toks) 1 (map (map (fun z => [inject_Z z])) (rows toks)).

Fixpoint run_hooks (hs : list (string * (tensor3 → result tensor3)))
    (a : tensor3) : result tensor3 :=
  match hs with
  | [] => Ok a
  | (_, h) :: hs' => let? a' := h a in run_hooks hs' a'
  end.

Definition toy_forward (hs : list (string * (tensor3 → result tensor3)))
    (toks : tensor2 Z) : result (tensor2 Q) :=
  let? a := run_hooks hs (embed toks) in
  Ok (Tensor2 (dim_pos a) (map (map (fun r => Loss.Qsum r)) (items3 a))).

(** A model of width [d]; its activations have width 1, so that the hook
    fits when [d = 1] and raises on the first training pass otherwise. *)
Definition collaborators (d : nat) : Collaborators := {|
  rng := nat;
  manual_seed := Z.to_nat;
  randn := fun n g => (replicate n (inject_Z (Z.of_nat g)), S g);
  randperm := fun n g => (seq 0 n, S g);
  forward := toy_forward;
  hook_point := fun name => String.eqb name "blocks.0.hook_resid_pre";
  d_model := d;
  autograd := fun _ v => map (fun _ => 1%Q) v;
  opt_state := unit;
  adamw_init := tt;
  adamw_step := fun lr _ st p g =>
                  (zip_with (fun x y => (x - lr * y)%Q) p g, st);
  vec_norm := fun v => Loss.Qsum (map Qabs v);
  wandb_run_name := fun _ => "run"%string
|}.

Definition tokens_AB : list (string * tensor2 Z) :=
  [("A"%string, Tensor2 2 [[1; 2]; [3; 4]]%Z);
   ("B"%string, Tensor2 2 [[5; 6]]%Z)].

(** A model in the shape of its input: loss 1 at every token. *)
Definition unit_loss_model (x : tensor2 Z) : result (tensor2 Q) :=
  Ok (Tensor2 (ncols x) (map (map (fun _ => 1%Q)) (rows x))).

(** A model that scores the prediction of every next token: one loss
    fewer than tokens in each row. *)
Definition next_token_loss_model (x : tensor2 Z) : result (tensor2 Q) :=
  Ok (Tensor2 (ncols x - 1)
        (map (fun r => map (fun _ => 1%Q) (tail r)) (rows x))).

(** The dataset of [tokens_AB] with label A aligned and label B opposed,
    and its mini-batch of the index group [[2]]. *)
Definition dataset_AB : Dataset.t :=
  Dataset.Make (Tensor2 2 [[1; 2]; [3; 4]; [5; 6]]%Z) [1; 1; -1]%Z
    (Some (Tensor2 2 [[1; 1]; [1; 1]; [1; 1]]%Q)).

Definition last_batch : Loader.batch :=
  Loader.Batch (Tensor2 2 [[5; 6]]%Z) [-1]%Z (Some (Tensor2 2 [[1; 1]]%Q)).


Definition toy_args (wandb : bool) : args := {|
  act_name := "blocks.0.hook_resid_pre";
  tokens_by_label := tokens_AB;
  aligned_labels := ["A"%string];
  opposed_labels := Some ["B"%string];
  lr := 1 # 100;
  weight_decay := 1 # 100;
  neutral_loss_method := "abs_of_mean";
  neutral_loss_beta := 1;
  num_epochs := 2;
  batch_size := 2;
  seed := 0;
  do_print := true;
  use_wandb := wandb
|}.

(** The arguments of [toy_args] with another hook point and number of
    epochs. *)
Definition toy_args_at (name : string) (epochs : nat) (wandb : bool)
  : args := {|
  act_name := name;
  tokens_by_label := tokens_AB;
  aligned_labels := ["A"%string];
  opposed_labels := Some ["B"%string];
  lr := 1 # 100;
  weight_decay := 1 # 100;
  neutral_loss_method := "abs_of_mean";
  neutral_loss_beta := 1;
  num_epochs := epochs;
  batch_size := 2;
  seed := 0;
  do_print := true;
  use_wandb := wandb
|}.

(** A world with no hook, no file and no run; the global generator is in
    the state [g]. *)
Definition empty_world (d : nat) (g : nat) : @world (collaborators d) :=
  @World (collaborators d) g [] 0 [] [] [] 0 None [] [] [] [] [].

(** A tokenizer with one token per character, and a file system with
    three files. *)
Definition char_tokens (s : string) : list Z :=
  map (fun c => Z.of_nat (Ascii.nat_of_ascii c)) (String.list_ascii_of_string s).

Definition three_files (filename : string) : result string :=
  if String.eqb filename "a1.txt" then Ok "abcdef"%string
  else if String.eqb filename "a2.txt" then Ok "gh"%string
  else if String.eqb filename "b1.txt" then Ok "uvwxyz"%string
  else Raise FileNotFoundError.

Definition texts_AB : list Corpus.row :=
  [Corpus.Row "uvwxyz" "B"; Corpus.Row "abcdef" "A"; Corpus.Row "gh" "A"].

Definition files_by_label : list (string * list string) :=
  [("B"%string, ["b1.txt"%string]);
   ("A"%string, ["a1.txt"%string; "a2.txt"%string]);
   ("C"%string, [])].


End Toy.

(** * Properties *)

(** ** Results and traversals *)

Lemma traverse_Forall2 {A B} (f : A → result B) (l : list A) (l' : list B) :
  traverse f l = Ok l' ↔ Forall2 (fun x y => f x = Ok y) l l'.
Proof.
  revert l'. induction l as [|x l IH]; intros l'; simpl.
  - split.
    + intros [= <-]. constructor.
    + intros H. inversion H. reflexivity.
  - split.
    + destruct (f x) as [y|e] eqn:Hx; simpl; [|discriminate].
      destruct (traverse f l) as [ys|e] eqn:Hl; simpl; [|discriminate].
      intros [= <-]. constructor; [assumption|]. apply IH. reflexivity.
    + intros H. inversion H as [|? y ? ys Hy Hys]; subst.
      rewrite Hy. simpl. apply IH in Hys. rewrite Hys. reflexivity.
Qed.

Lemma traverse_length {A B} (f : A → result B) l l' :
  traverse f l = Ok l' → length l' = length l.
Proof.
  intros H. apply traverse_Forall2 in H.
  symmetry. eapply Forall2_length, H.
Qed.

Lemma traverse_map_ok {A B} (f : A → result B) (g : A → B) l :
  (∀ x, x ∈ l → f x = Ok (g x)) → traverse f l = Ok (map g l).
Proof.
  intros H. apply traverse_Forall2.
  induction l as [|x l IH]; simpl; constructor.
  - apply H. left.
  - apply IH. intros y Hy. apply H. right. assumption.
Qed.

Lemma traverse_fmap_ok {A B C} (f : A → result B) (h : C → A) (g : C → B) l :
  (∀ x, x ∈ l → f (h x) = Ok (g x)) → traverse f (map h l) = Ok (map g l).
Proof.
  intros H. induction l as [|x l IH]; simpl; [reflexivity|].
  rewrite H by left. simpl. rewrite IH; [reflexivity|].
  intros y Hy. apply H. right. assumption.
Qed.

Lemma traverse_raise_inv {A B} (f : A → result B) l e :
  traverse f l = Raise e → ∃ x, x ∈ l ∧ f x = Raise e.
Proof.
  induction l as [|x l IH]; simpl; [discriminate|].
  destruct (f x) as [y|e'] eqn:Hx; simpl.
  - destruct (traverse f l) as [ys|e'] eqn:Hl; simpl; [discriminate|].
    intros [= ->]. destruct IH as (z & Hz & Hfz); [reflexivity|].
    exists z. split; [right; assumption|assumption].
  - intros [= ->]. exists x. split; [left|assumption].
Qed.

(** ** Windowing *)

Module CorpusFacts.
Import Corpus.

(** One window read through [index_select] is the slice
    [toks[s : s + L]]. *)
Lemma index_select_window (toks : list Z) (L s : nat) :
  s + L ≤ length toks →
  traverse (fun k => match toks !! k with
                     | Some x => Ok x
                     | None => Raise IndexError
                     end)
           (map (fun j => j + s) (seq 0 L))
  = Ok (take L (drop s toks)).
Proof.
  intros Hle. apply traverse_Forall2.
  apply Forall2_same_length_lookup. split.
  - rewrite length_map, length_seq, length_take, length_drop. lia.
  - intros i k x Hk Hx.
    rewrite list_lookup_fmap in Hk.
    destruct (seq 0 L !! i) as [j|] eqn:Hj; [|discriminate].
    apply lookup_seq in Hj as [-> Hi]. simpl in Hk. injection Hk as <-.
    rewrite lookup_take_lt in Hx by assumption.
    rewrite lookup_drop in Hx.
    replace (i + s) with (s + i) by lia. rewrite Hx. reflexivity.
Qed.

Lemma ceil_div_bound (d S i : nat) :
  0 < S → i < (d + S - 1) / S → i * S < d.
Proof.
  intros HS Hi.
  destruct (Nat.lt_ge_cases (i * S) d) as [|Hge]; [assumption|exfalso].
  assert ((d + S - 1) / S < i + 1); [|lia].
  apply Nat.Div0.div_lt_upper_bound. nia.
Qed.

(** What [token_snippets] computes when a window fits: the windows at the
    start offsets [0, S, 2S, ...] strictly below [N - L]. *)
Lemma token_snippets_windows (toks : list Z) (L S : nat) :
  0 < S → L ≤ length toks →
  token_snippets toks L S
  = Ok (Tensor2 L (map (fun i => take L (drop (i * S) toks))
                       (seq 0 ((length toks - L + S - 1) / S)))).
Proof.
  intros HS HL. unfold token_snippets, arange_from0.
  destruct (Nat.eqb_spec S 0) as [|_]; [lia|].
  destruct (Z.ltb_spec (Z.of_nat (length toks) - Z.of_nat L) 0) as [|_]; [lia|].
  replace (Z.to_nat (Z.of_nat (length toks) - Z.of_nat L))
    with (length toks - L) by lia.
  cbn [rbind]. unfold index_select, window_indices.
  rewrite map_map.
  rewrite (traverse_fmap_ok _ _ (fun i => take L (drop (i * S) toks))).
  - reflexivity.
  - intros i Hi. apply elem_of_seq in Hi as [_ Hi]. simpl in Hi.
    apply index_select_window.
    pose proof (ceil_div_bound (length toks - L) S i HS Hi). lia.
Qed.

Lemma ceil_div_exact (d S : nat) :
  0 < S → d mod S = 0 → (d + S - 1) / S = d / S.
Proof.
  intros HS Hm. pose proof (Nat.div_mod_eq d S) as Hd. rewrite Hm in Hd.
  symmetry. apply (Nat.div_unique _ _ _ (S - 1)); lia.
Qed.

Lemma ceil_div_inexact (d S : nat) :
  0 < S → d mod S ≠ 0 → (d + S - 1) / S = d / S + 1.
Proof.
  intros HS Hm. pose proof (Nat.div_mod_eq d S) as Hd.
  pose proof (Nat.mod_upper_bound d S ltac:(lia)) as Hlt.
  symmetry. apply (Nat.div_unique _ _ _ (d mod S - 1)); lia.
Qed.

(** When the stride does not divide [N - L], the number of snippets is the
    [floor((N-L)/S) + 1] of the specification. *)
Lemma token_snippets_count_inexact (toks : list Z) (L S : nat) :
  0 < S → L ≤ length toks → (length toks - L) mod S ≠ 0 →
  ∃ t, token_snippets toks L S = Ok t
       ∧ nrows t = (length toks - L) / S + 1.
Proof.
  intros HS HL Hm. eexists. split; [apply token_snippets_windows; assumption|].
  unfold nrows. simpl. rewrite length_map, length_seq.
  apply ceil_div_inexact; assumption.
Qed.

(** Every label of the result carries the snippets of its own concatenated
    text. *)
Lemma corpus_to_token_batches_labels (to_tokens : string → list Z)
    (eos : string) (texts : list row) (L S : nat) tbl :
  corpus_to_token_batches to_tokens eos texts L S = Ok tbl →
  Forall2 (fun g e => fst e = fst g
                      ∧ token_snippets (to_tokens (snd g)) L S = Ok (snd e))
          (grouped_texts eos texts) tbl.
Proof.
  unfold corpus_to_token_batches. intros H.
  apply traverse_Forall2 in H.
  eapply Forall2_impl; [exact H|].
  intros [l txt] [l' t]. simpl.
  destruct (token_snippets (to_tokens txt) L S); simpl; [|discriminate].
  intros [= -> ->]. split; reflexivity.
Qed.

(** C2, on the code. When the stride divides [N - L], [token_snippets]
    yields [(N - L) / S] snippets, one fewer than the [floor((N-L)/S) + 1]
    of the claim: the snippets it yields are the slices
    [toks[i*S : i*S + L]], but the start offsets stop strictly below
    [N - L], so the last full window, at offset [N - L], is not
    produced. *)
Theorem token_snippets_misses_last_window (toks : list Z) (L S : nat) :
  0 < S → L ≤ length toks → (length toks - L) mod S = 0 →
  ∃ t, token_snippets toks L S = Ok t
       ∧ nrows t = (length toks - L) / S
       ∧ nrows t ≠ (length toks - L) / S + 1
       ∧ (∀ i, i < nrows t → rows t !! i = Some (take L (drop (i * S) toks)))
       ∧ rows t !! ((length toks - L) / S) = None.
Proof.
  intros HS HL Hm. eexists. split; [apply token_snippets_windows; assumption|].
  rewrite ceil_div_exact by assumption.
  unfold nrows. simpl. rewrite length_map, length_seq.
  split; [reflexivity|]. split; [lia|]. split.
  - intros i Hi. rewrite list_lookup_fmap, lookup_seq_lt by assumption.
    reflexivity.
  - apply lookup_ge_None. rewrite length_map, length_seq. lia.
Qed.

(** Six tokens, windows of four, stride two: the window [toks[2:6]] is
    missing. *)
Lemma token_snippets_misses_last_window_witness :
  ∃ t, token_snippets [1; 2; 3; 4; 5; 6]%Z 4 2 = Ok t
       ∧ nrows t = 1
       ∧ nrows t ≠ 2
       ∧ (∀ i, i < nrows t →
               rows t !! i = Some (take 4 (drop (i * 2) [1; 2; 3; 4; 5; 6]%Z)))
       ∧ rows t !! 1 = None.
Proof.
  apply (token_snippets_misses_last_window [1; 2; 3; 4; 5; 6]%Z 4 2);
    simpl; [lia | lia | reflexivity].
Defined.

End CorpusFacts.

(** ** The dataset *)

Module DatasetFacts.
Import Dataset.

Lemma concat_rows_ok {A} (ts : list (tensor2 A)) (t : tensor2 A) :
  concat_rows ts = Ok t →
  rows t = concat (map rows ts) ∧ Forall (fun x => ncols x = ncols t) ts
  ∧ ts ≠ [].
Proof.
  destruct ts as [|t0 ts]; simpl; [discriminate|].
  rewrite Nat.eqb_refl. simpl.
  destruct (forallb _ ts) eqn:Hall; [|discriminate].
  intros [= <-]. simpl. split; [reflexivity|]. split; [|discriminate].
  constructor; [reflexivity|].
  apply Forall_forall. intros x Hx.
  rewrite forallb_forall in Hall. apply Nat.eqb_eq, Hall.
  apply list_elem_of_In. assumption.
Qed.

Lemma concat_vecs_ok {A} (vs : list (list A)) (v : list A) :
  concat_vecs vs = Ok v → v = concat vs.
Proof. destruct vs; simpl; [discriminate|]. intros [= <-]. reflexivity. Qed.

Lemma column0_length {A} (t : tensor2 A) (col : list A) :
  column0 t = Ok col → length col = nrows t.
Proof.
  unfold column0. destruct (ncols t =? 0); [discriminate|].
  apply traverse_length.
Qed.

Lemma map_const_replicate {A B} (v : B) (l : list A) :
  map (fun _ => v) l = replicate (length l) v.
Proof. induction l; simpl; [reflexivity|]. f_equal. assumption. Qed.

Lemma full_like_column0_ok (t : tensor2 Z) (v : Z) (b : list Z) :
  full_like_column0 t v = Ok b → b = replicate (nrows t) v.
Proof.
  unfold full_like_column0.
  destruct (column0 t) as [col|] eqn:Hc; simpl; [|discriminate].
  intros [= <-]. rewrite map_const_replicate.
  apply column0_length in Hc. rewrite Hc. reflexivity.
Qed.

Lemma py_in_spec (l : string) (ls : list string) :
  py_in l ls = true ↔ l ∈ ls.
Proof.
  unfold py_in. rewrite existsb_exists. split.
  - intros (x & Hx & Heq). apply String.eqb_eq in Heq as ->.
    apply list_elem_of_In. assumption.
  - intros H. exists l. split; [apply list_elem_of_In; assumption|].
    apply String.eqb_refl.
Qed.

(** The tag of a label, by cases. *)
Lemma aligned_val_cases (al : list string) (ol : option (list string))
    (l : string) :
  (l ∈ al → aligned_val al ol l = 1%Z)
  ∧ (∀ o, l ∉ al → ol = Some o → l ∈ o → aligned_val al ol l = (-1)%Z)
  ∧ (l ∉ al → (ol = None ∨ ∃ o, ol = Some o ∧ l ∉ o) →
     aligned_val al ol l = 0%Z).
Proof.
  unfold aligned_val.
  destruct (py_in l al) eqn:Hal.
  - apply py_in_spec in Hal. repeat split; intros; try reflexivity; tauto.
  - assert (l ∉ al) as Hn. { rewrite <- py_in_spec, Hal. discriminate. }
    split; [tauto|]. split.
    + intros o _ -> Ho. apply py_in_spec in Ho. rewrite Ho. reflexivity.
    + intros _ [-> | (o & -> & Ho)]; [reflexivity|].
      rewrite <- py_in_spec in Ho. destruct (py_in l o); [tauto|reflexivity].
Qed.

Lemma aligned_val_range al ol l :
  aligned_val al ol l = 1%Z ∨ aligned_val al ol l = (-1)%Z
  ∨ aligned_val al ol l = 0%Z.
Proof.
  unfold aligned_val. destruct (py_in l al); [tauto|].
  destruct ol as [o|]; [|tauto]. destruct (py_in l o); tauto.
Qed.

Lemma init_tokens_aligned tbl al ol model bs ds :
  init tbl al ol model bs = Ok ds →
  rows (tokens ds) = concat (map (fun e => rows (snd e)) tbl)
  ∧ aligned ds = concat (tag_blocks al ol tbl).
Proof.
  unfold init.
  destruct (traverse _ tbl) as [blocks|] eqn:Hb; simpl; [|discriminate].
  destruct (concat_rows (map snd tbl)) as [toks|] eqn:Ht; simpl; [|discriminate].
  destruct (concat_vecs blocks) as [alv|] eqn:Ha; simpl; [|discriminate].
  destruct (negb _); [discriminate|].
  apply concat_rows_ok in Ht as [Hrows _]. rewrite map_map in Hrows.
  apply concat_vecs_ok in Ha. subst alv.
  assert (blocks = tag_blocks al ol tbl) as ->.
  { apply traverse_Forall2 in Hb. unfold tag_blocks.
    clear -Hb. induction Hb as [|[l t] b tbl' bs' Hx _ IH]; simpl.
    - reflexivity.
    - f_equal; [|assumption]. apply full_like_column0_ok. assumption. }
  destruct model as [m|].
  - destruct (cache_normal_loss m toks bs); simpl; [|discriminate].
    intros [= <-]. simpl. split; assumption || reflexivity.
  - intros [= <-]. simpl. split; assumption || reflexivity.
Qed.

Lemma lookup_concat_block {A B} (f : A → list B) (pre post : list A)
    (x : A) (j : nat) :
  j < length (f x) →
  concat (map f (pre ++ x :: post))
    !! (sum_list (map (fun e => length (f e)) pre) + j)
  = f x !! j.
Proof.
  intros Hj. rewrite map_app, concat_app. simpl.
  assert (length (concat (map f pre))
          = sum_list (map (fun e => length (f e)) pre)) as <-.
  { rewrite length_concat, map_map. reflexivity. }
  rewrite lookup_app_r by lia.
  replace (length (concat (map f pre)) + j - length (concat (map f pre)))
    with j by lia.
  apply lookup_app_l. assumption.
Qed.

Lemma count_tag_partition (tags : list Z) :
  Forall (fun v => v = 1%Z ∨ v = (-1)%Z ∨ v = 0%Z) tags →
  count_tag 1 tags + count_tag (-1) tags + count_tag 0 tags = length tags.
Proof.
  unfold count_tag. induction 1 as [|v tags Hv _ IH]; [reflexivity|].
  rewrite !filter_cons. simpl.
  destruct Hv as [-> | [-> | ->]];
    repeat (destruct (decide _) as [?|?]; try discriminate; try congruence);
    simpl; lia.
Qed.

(** C5. In a constructed dataset there is one tag per snippet; the snippet
    number [j] of the label [l] sits at the offset of its label's block and
    carries the tag [aligned_val l]: 1 when [l] is in [aligned_labels],
    else -1 when [opposed_labels] is given and holds [l], else 0; every tag
    is one of the three, and the three classes add up to the dataset. *)
Theorem init_alignment_tags (tbl : list (string * tensor2 Z))
    (al : list string) (ol : option (list string))
    (model : option (tensor2 Z → result (tensor2 Q))) (bs : nat) (ds : t) :
  init tbl al ol model bs = Ok ds →
  length (aligned ds) = nrows (tokens ds)
  ∧ (∀ pre l t post j,
       tbl = pre ++ (l, t) :: post → j < nrows t →
       let idx := sum_list (map (fun e => nrows (snd e)) pre) + j in
       rows (tokens ds) !! idx = rows t !! j
       ∧ aligned ds !! idx = Some (aligned_val al ol l))
  ∧ (∀ l, (l ∈ al → aligned_val al ol l = 1%Z)
          ∧ (∀ o, l ∉ al → ol = Some o → l ∈ o →
                  aligned_val al ol l = (-1)%Z)
          ∧ (l ∉ al → (ol = None ∨ ∃ o, ol = Some o ∧ l ∉ o) →
             aligned_val al ol l = 0%Z))
  ∧ Forall (fun v => v = 1%Z ∨ v = (-1)%Z ∨ v = 0%Z) (aligned ds)
  ∧ count_tag 1 (aligned ds) + count_tag (-1) (aligned ds)
    + count_tag 0 (aligned ds) = len ds.
Proof.
  intros Hinit.
  destruct (init_tokens_aligned _ _ _ _ _ _ Hinit) as [Hrows Hal].
  assert (Forall (fun v => v = 1%Z ∨ v = (-1)%Z ∨ v = 0%Z) (aligned ds))
    as Hrange.
  { rewrite Hal. unfold tag_blocks. apply Forall_concat, Forall_fmap.
    apply Forall_forall. intros e _. simpl. apply Forall_replicate.
    apply aligned_val_range. }
  assert (length (aligned ds) = nrows (tokens ds)) as Hlen.
  { unfold nrows. rewrite Hal, Hrows, !length_concat.
    unfold tag_blocks. rewrite !map_map. f_equal.
    apply map_ext. intros e. apply length_replicate. }
  split; [exact Hlen|]. split; [|split; [|split]].
  - intros pre l t post j -> Hj idx. subst idx. split.
    + rewrite Hrows.
      apply (lookup_concat_block (fun e => rows (snd e)) pre post (l, t)).
      exact Hj.
    + rewrite Hal. unfold tag_blocks.
      erewrite (map_ext (fun e => nrows (snd e))); last first.
      { intros e. symmetry.
        exact (length_replicate (nrows (snd e)) (aligned_val al ol (fst e))). }
      rewrite (lookup_concat_block
                 (fun e => replicate (nrows (snd e))
                             (aligned_val al ol (fst e))) pre post (l, t)).
      * simpl. apply lookup_replicate_2. exact Hj.
      * simpl. rewrite length_replicate. exact Hj.
  - intros l. apply aligned_val_cases.
  - exact Hrange.
  - unfold len. rewrite <- Hlen. apply count_tag_partition. exact Hrange.
Qed.

Lemma init_alignment_tags_witness :
  ∃ ds, init Toy.tokens_AB ["A"%string] (Some ["B"%string]) None 10 = Ok ds
        ∧ aligned ds = [1; 1; -1]%Z
        ∧ count_tag 1 (aligned ds) + count_tag (-1) (aligned ds)
          + count_tag 0 (aligned ds) = len ds.
Proof.
  eexists. split; [reflexivity|]. split; [reflexivity|].
  eapply (init_alignment_tags Toy.tokens_AB ["A"%string] (Some ["B"%string])
            None 10).
  reflexivity.
Defined.

(** The cached loss is the concatenation of what the model returned on the
    consecutive slices, and it passed the row-count assertion. *)
Lemma cache_normal_loss_ok (m : tensor2 Z → result (tensor2 Q))
    (toks : tensor2 Z) (bs : nat) (nl : tensor2 Q) :
  cache_normal_loss m toks bs = Ok nl →
  nrows nl = nrows toks
  ∧ ∃ starts outs,
      py_range_from0 (nrows toks) bs = Ok starts
      ∧ Forall2 (fun s o => m (slice_rows s bs toks) = Ok o) starts outs
      ∧ rows nl = concat (map rows outs)
      ∧ Forall (fun o => ncols o = ncols nl) outs
      ∧ outs ≠ [].
Proof.
  unfold cache_normal_loss.
  destruct (py_range_from0 (nrows toks) bs) as [starts|] eqn:Hs;
    simpl; [|discriminate].
  destruct (traverse _ starts) as [outs|] eqn:Ho; simpl; [|discriminate].
  destruct (concat_rows outs) as [nl'|] eqn:Hc; simpl; [|discriminate].
  destruct (Nat.eqb_spec (nrows toks) (nrows nl')) as [Heq|]; [|discriminate].
  intros [= <-]. split; [symmetry; exact Heq|].
  exists starts, outs. apply traverse_Forall2 in Ho.
  apply concat_rows_ok in Hc as (Hrows & Hcols & Hne). auto 6.
Qed.

(** The row-count assertion of line 113: a model that returns another
    number of rows aborts the construction. *)
Lemma cache_normal_loss_mismatch (m : tensor2 Z → result (tensor2 Q))
    (toks : tensor2 Z) (bs : nat) starts outs nl :
  py_range_from0 (nrows toks) bs = Ok starts →
  traverse (fun s => m (slice_rows s bs toks)) starts = Ok outs →
  concat_rows outs = Ok nl →
  nrows nl ≠ nrows toks →
  cache_normal_loss m toks bs = Raise AssertionError.
Proof.
  intros Hs Ho Hc Hne. unfold cache_normal_loss.
  rewrite Hs. simpl. rewrite Ho. simpl. rewrite Hc. simpl.
  destruct (Nat.eqb_spec (nrows toks) (nrows nl)); [congruence|reflexivity].
Qed.

Lemma concat_rows_wf {A} (ts : list (tensor2 A)) (t : tensor2 A) :
  concat_rows ts = Ok t → Forall wf2 ts → wf2 t.
Proof.
  intros Hc Hwf. apply concat_rows_ok in Hc as (Hrows & Hcols & _).
  unfold wf2. rewrite Hrows. apply Forall_concat, Forall_fmap.
  rewrite Forall_forall in Hwf, Hcols. apply Forall_forall. intros x Hx.
  simpl. rewrite <- (Hcols x Hx). exact (Hwf x Hx).
Qed.

Lemma slice_rows_wf {A} (start n : nat) (t : tensor2 A) :
  wf2 t → wf2 (slice_rows start n t).
Proof. intros Hwf. unfold wf2. simpl. apply Forall_take, Forall_drop, Hwf. Qed.

Lemma unit_loss_model_shape_preserving :
  shape_preserving Toy.unit_loss_model.
Proof.
  intros x y Hx [= <-]. split; [|reflexivity].
  unfold wf2. simpl. apply Forall_fmap.
  eapply Forall_impl; [exact Hx|]. intros r Hr. simpl.
  rewrite length_map. exact Hr.
Qed.

(** C3, as the code has it. A dataset constructed with a model caches a
    loss tensor with one row per snippet (the constructor asserts it). The
    width of the rows is the width the model returns, which the constructor
    does not check: for token tensors and a model that returns one loss per
    input token, every row has the width of the snippets, which is the
    length of each snippet. *)
Theorem init_normal_loss_shape (tbl : list (string * tensor2 Z))
    (al : list string) (ol : option (list string))
    (m : tensor2 Z → result (tensor2 Q)) (bs : nat) (ds : t) :
  init tbl al ol (Some m) bs = Ok ds →
  ∃ nl, normal_loss ds = Some nl
        ∧ nrows nl = len ds
        ∧ (Forall (fun e => wf2 (snd e)) tbl → shape_preserving m →
           ncols nl = ncols (tokens ds)
           ∧ Forall (fun r => length r = ncols (tokens ds)) (rows nl)
           ∧ Forall (fun s => length s = ncols (tokens ds))
                    (rows (tokens ds))).
Proof.
  unfold init.
  destruct (traverse _ tbl) as [blocks|]; simpl; [|discriminate].
  destruct (concat_rows (map snd tbl)) as [toks|] eqn:Htoks; simpl;
    [|discriminate].
  destruct (concat_vecs blocks) as [alv|]; simpl; [|discriminate].
  destruct (negb _); [discriminate|].
  destruct (cache_normal_loss m toks bs) as [nl|] eqn:Hc; simpl;
    [|discriminate].
  intros [= <-]. simpl. exists nl. split; [reflexivity|].
  apply cache_normal_loss_ok in Hc
    as (Hn & starts & outs & Hs & Houts & Hrows & Hcols & Hne).
  split; [exact Hn|]. intros Htbl Hm.
  assert (wf2 toks) as Hwf.
  { apply (concat_rows_wf _ _ Htoks), Forall_fmap. exact Htbl. }
  assert (Forall (fun o => wf2 o ∧ ncols o = ncols toks) outs) as Hshape.
  { clear -Houts Hm Hwf. induction Houts as [|s o ss os Ho _ IH]; constructor.
    - apply Hm in Ho; [exact Ho|]. apply slice_rows_wf, Hwf.
    - exact IH. }
  destruct outs as [|o outs]; [congruence|].
  inversion Hcols as [|? ? Hc0 _]; subst.
  inversion Hshape as [|? ? [_ Hw0] _]; subst.
  assert (ncols nl = ncols toks) as Hw by congruence.
  split; [exact Hw|]. split; [|exact Hwf]. rewrite Hrows.
  apply Forall_concat, Forall_fmap.
  eapply Forall_impl; [exact Hshape|].
  intros o' [Hwf' Hco]. unfold wf2 in Hwf'. rewrite <- Hco. exact Hwf'.
Qed.

Lemma init_normal_loss_shape_witness :
  ∃ nl, init Toy.tokens_AB ["A"%string] (Some ["B"%string])
          (Some Toy.unit_loss_model) 2 = Ok Toy.dataset_AB
        ∧ normal_loss Toy.dataset_AB = Some nl
        ∧ nrows nl = len Toy.dataset_AB
        ∧ ncols nl = 2
        ∧ Forall (fun r => length r = 2) (rows nl)
        ∧ Forall (fun s => length s = 2) (rows (tokens Toy.dataset_AB)).
Proof.
  destruct (init_normal_loss_shape Toy.tokens_AB ["A"%string]
              (Some ["B"%string]) Toy.unit_loss_model 2 Toy.dataset_AB)
    as (nl & Hnl & Hrows & Hshape); [reflexivity|].
  destruct Hshape as (Hcols & Hlen & Htoks).
  - unfold wf2. simpl. repeat constructor.
  - exact unit_loss_model_shape_preserving.
  - exists nl. split; [reflexivity|]. split; [exact Hnl|].
    split; [exact Hrows|]. split; [exact Hcols|].
    split; [exact Hlen|exact Htoks].
Defined.

(** C3 as stated fails: the dataset is constructed, the loss tensor has one
    row per snippet, and its rows have one entry where the snippets have
    two. *)
Lemma init_normal_loss_row_length_counterexample :
  ∃ ds nl, init Toy.tokens_AB ["A"%string] (Some ["B"%string])
                (Some Toy.next_token_loss_model) 2 = Ok ds
           ∧ normal_loss ds = Some nl
           ∧ nrows nl = len ds
           ∧ Forall (fun r => length r = 2) (rows (tokens ds))
           ∧ ncols (tokens ds) = 2
           ∧ ¬ Forall (fun r => length r = ncols (tokens ds)) (rows nl).
Proof.
  eexists. eexists. split; [reflexivity|]. simpl.
  split; [reflexivity|]. split; [reflexivity|].
  split; [repeat constructor|]. split; [reflexivity|].
  intros H. inversion H as [|? ? Hlen _]. discriminate Hlen.
Qed.

End DatasetFacts.

(** ** The injection hook *)

Module HookFacts.



End HookFacts.

(** ** The loss of a mini-batch *)

Module LossFacts.
Import Loss.

Lemma Qsum_app (l1 l2 : list Q) : (Qsum (l1 ++ l2) == Qsum l1 + Qsum l2)%Q.
Proof.
  induction l1 as [|x l1 IH]; simpl.
  - ring.
  - rewrite IH. ring.
Qed.

Lemma selected_cons {A} (b : bool) mask (r : list A) rs :
  selected (b :: mask) (r :: rs)
  = if b then r :: selected mask rs else selected mask rs.
Proof.
  unfold selected. simpl. rewrite filter_cons. simpl.
  destruct b; destruct (decide _); try congruence; reflexivity.
Qed.

Lemma selected_sum (v : Z) (aligned : list Z) (rs : list (list Q)) :
  (Qsum (concat (selected (tag_mask aligned v) rs))
   == spec_sum_where v aligned rs)%Q.
Proof.
  revert rs. induction aligned as [|a aligned IH]; intros rs; simpl.
  - reflexivity.
  - destruct rs as [|r rs]; simpl.
    + reflexivity.
    + rewrite selected_cons. destruct (Z.eqb a v); simpl.
      * rewrite Qsum_app, IH. reflexivity.
      * rewrite IH. ring.
Qed.

Lemma selected_abs (mask : list bool) (rs : list (list Q)) :
  map (map Qabs) (selected mask rs) = selected mask (map (map Qabs) rs).
Proof.
  revert rs. induction mask as [|b mask IH]; intros rs; [reflexivity|].
  destruct rs as [|r rs]; [reflexivity|]. simpl map.
  rewrite !selected_cons. destruct b; simpl; rewrite IH; reflexivity.
Qed.


Lemma select_rows_ok {A} (aligned : list Z) (v : Z) (t : tensor2 A) :
  length aligned = nrows t →
  select_rows (tag_mask aligned v) t
  = Ok (Tensor2 (ncols t) (selected (tag_mask aligned v) (rows t))).
Proof.
  intros H. unfold select_rows, tag_mask. rewrite length_map, H.
  rewrite Nat.eqb_refl. reflexivity.
Qed.

(** The three terms and their sum, for tags that match the rows. *)
Lemma three_part_loss_ok (method : string) (beta : Q) (rel : tensor2 Q)
    (aligned : list Z) :
  length aligned = nrows rel →
  ∃ a o n,
    aligned_term rel aligned = Ok a
    ∧ opposed_term rel aligned = Ok o
    ∧ neutral_term method beta rel aligned = Ok n
    ∧ three_part_loss method beta rel aligned = Ok (a + o + n)%Q
    ∧ (a == spec_sum_where 1 aligned (rows rel))%Q
    ∧ (o == - spec_sum_where (-1) aligned (rows rel))%Q
    ∧ (n == spec_neutral_penalty method beta aligned (rows rel))%Q.
Proof.
  intros H. unfold three_part_loss, aligned_term, opposed_term, neutral_term.
  rewrite !select_rows_ok by exact H. simpl.
  unfold spec_neutral_penalty.
  destruct (String.eqb method "abs_of_mean");
    do 3 eexists; (split; [reflexivity|]); (split; [reflexivity|]);
    (split; [reflexivity|]); (split; [reflexivity|]);
    unfold tensor_sum, tensor_abs; simpl;
    rewrite ?selected_abs, !selected_sum; repeat split; reflexivity.
Qed.

Lemma expand_row_same {A} (m : nat) (r : list A) :
  length r = m → expand_row m r = r.
Proof.
  intros H. unfold expand_row. destruct r as [|a [|b r]]; try reflexivity.
  simpl in H. subst m. reflexivity.
Qed.

Lemma expand_same {A} (t : tensor2 A) :
  wf2 t → rows (expand (nrows t) (ncols t) t) = rows t.
Proof.
  intros Hwf. unfold expand. simpl.
  assert (map (expand_row (ncols t)) (rows t) = rows t) as ->.
  { unfold wf2 in Hwf. induction Hwf as [|r rs Hr _ IH]; simpl; [reflexivity|].
    rewrite expand_row_same by exact Hr. f_equal. exact IH. }
  unfold nrows. destruct (rows t) as [|r [|r' rs]]; reflexivity.
Qed.

(** On tensors of one shape, [tensor_sub] is the element-wise
    difference. *)
Lemma tensor_sub_same_shape (a b : tensor2 Q) :
  wf2 a → wf2 b → nrows b = nrows a → ncols b = ncols a →
  tensor_sub a b
  = Ok (Tensor2 (ncols a) (spec_relative_loss (rows a) (rows b))).
Proof.
  intros Ha Hb Hn Hm. unfold tensor_sub, broadcast_dim.
  rewrite Hn, Hm, !Nat.eqb_refl. cbn [rbind].
  rewrite (expand_same a Ha).
  rewrite <- Hn, <- Hm, (expand_same b Hb). reflexivity.
Qed.




End LossFacts.

(** ** Mini-batches *)

Module LoaderFacts.
Import Loader.

Lemma batch_indices_sizes (bs : nat) (cur perm : list nat) :
  0 < bs → length cur < bs →
  Forall (fun g => 0 < length g ≤ bs) (batch_indices bs cur perm).
Proof.
  intros Hbs. revert cur.
  induction perm as [|x perm IH]; intros cur Hcur; simpl.
  - destruct cur as [|c cur]; constructor; [simpl in *; lia|constructor].
  - assert (length (cur ++ [x]) = S (length cur)) as Hlen.
    { rewrite length_app. simpl. lia. }
    destruct (Nat.eqb_spec (length (cur ++ [x])) bs) as [Heq|Hne].
    + constructor; [lia|]. apply IH. simpl. lia.
    + apply IH. lia.
Qed.

(** All groups have [batch_size] indices, except possibly a last, shorter
    one. *)
Lemma batch_indices_shape (bs : nat) (cur perm : list nat) :
  0 < bs → length cur < bs →
  ∃ full rest,
    batch_indices bs cur perm = full ++ rest
    ∧ Forall (fun g => length g = bs) full
    ∧ (rest = [] ∨ ∃ g, rest = [g] ∧ 0 < length g < bs).
Proof.
  intros Hbs. revert cur.
  induction perm as [|x perm IH]; intros cur Hcur; simpl.
  - exists []. destruct cur as [|c cur].
    + exists []. auto.
    + exists [c :: cur]. split; [reflexivity|]. split; [constructor|].
      right. eexists. split; [reflexivity|]. simpl in *. lia.
  - assert (length (cur ++ [x]) = S (length cur)) as Hlen.
    { rewrite length_app. simpl. lia. }
    destruct (Nat.eqb_spec (length (cur ++ [x])) bs) as [Heq|Hne].
    + destruct (IH []) as (full & rest & -> & Hfull & Hrest); [simpl; lia|].
      exists ((cur ++ [x]) :: full), rest.
      split; [reflexivity|]. split; [constructor; assumption|assumption].
    + apply IH. lia.
Qed.

Lemma getitem_fields (d : Dataset.t) (i : nat) (it : Dataset.item) :
  Dataset.getitem d i = Ok it →
  rows (Dataset.tokens d) !! i = Some (Dataset.item_tokens it)
  ∧ Dataset.aligned d !! i = Some (Dataset.item_aligned it)
  ∧ match Dataset.normal_loss d with
    | Some nl => ∃ r, rows nl !! i = Some r
                      ∧ Dataset.item_normal_loss it = Some r
    | None => Dataset.item_normal_loss it = None
    end.
Proof.
  unfold Dataset.getitem, Dataset.lookup_or_raise.
  destruct (rows (Dataset.tokens d) !! i) as [toks|]; simpl; [|discriminate].
  destruct (Dataset.aligned d !! i) as [a|]; simpl; [|discriminate].
  destruct (Dataset.normal_loss d) as [nl|].
  - destruct (rows nl !! i) as [r|]; simpl; [|discriminate].
    intros [= <-]. simpl. eauto.
  - intros [= <-]. simpl. auto.
Qed.

(** A fetched mini-batch has one row, one tag and, when the dataset caches
    it, one baseline row per sampled index. *)
Lemma fetch_sizes (d : Dataset.t) (idxs : list nat) (b : batch) :
  fetch d idxs = Ok b →
  nrows (batch_tokens b) = length idxs
  ∧ length (batch_aligned b) = length idxs
  ∧ ∀ nl, batch_normal_loss b = Some nl → nrows nl = length idxs.
Proof.
  unfold fetch.
  destruct (traverse (Dataset.getitem d) idxs) as [items|] eqn:Ht;
    simpl; [|discriminate].
  intros [= <-]. unfold collate, nrows. simpl.
  pose proof (traverse_length _ _ _ Ht) as Hlen.
  rewrite !length_map. split; [exact Hlen|]. split; [exact Hlen|].
  intros nl. destruct (Dataset.normal_loss d) as [dnl|] eqn:Hd; [|discriminate].
  intros [= <-]. simpl. rewrite <- Hlen.
  apply traverse_Forall2 in Ht. clear Hlen.
  induction Ht as [|i it is' its Hi _ IH]; simpl; [reflexivity|].
  apply getitem_fields in Hi as (_ & _ & Hnl). rewrite Hd in Hnl.
  destruct Hnl as (r & _ & ->). simpl. f_equal. exact IH.
Qed.

End LoaderFacts.

(** ** The loss of the mini-batches of the loader *)

Module BatchLossFacts.
Import Loss LossFacts Loader LoaderFacts.

(** C1, as the code has it. For a mini-batch fetched for a group of
    indices of the loader, with a per-token loss in the shape of the cached
    baseline, the loss is the three-part sum of the specification divided
    by the number of entries of the relative loss of this mini-batch: the
    number of snippets in the mini-batch times the width of the per-token
    loss. The mini-batch holds between one and [batch_size] snippets, so
    the divisor is [batch_size * context_len] for a full mini-batch with
    one loss per token. *)
Theorem batch_loss_formula (d : Dataset.t) (bs : nat) (perm idxs : list nat)
    (b : batch) (method : string) (beta : Q) (lpt nl : tensor2 Q) :
  0 < bs →
  idxs ∈ epoch_batches bs perm →
  fetch d idxs = Ok b →
  batch_normal_loss b = Some nl →
  wf2 lpt → wf2 nl →
  nrows lpt = length idxs → ncols nl = ncols lpt → 0 < ncols lpt →
  ∃ v, batch_loss method beta lpt (batch_aligned b) nl
       = Ok (Finite (v / inject_Z (Z.of_nat (length idxs * ncols lpt))))
       ∧ (v == spec_loss method beta (batch_aligned b)
                 (spec_relative_loss (rows lpt) (rows nl)))%Q
       ∧ 0 < length idxs ≤ bs
       ∧ (length idxs = bs → ncols lpt = ncols (batch_tokens b) →
          length idxs * ncols lpt = bs * ncols (batch_tokens b)).
Proof.
  intros Hbs Hin Hfetch Hnl Hwl Hwn Hrows Hcols Hpos.
  destruct (fetch_sizes _ _ _ Hfetch) as (_ & Hal & Hnrows).
  specialize (Hnrows nl Hnl).
  assert (0 < length idxs ≤ bs) as Hsize.
  { pose proof (batch_indices_sizes bs [] perm Hbs Hbs) as Hall.
    rewrite Forall_forall in Hall. apply Hall. exact Hin. }
  unfold batch_loss.
  rewrite tensor_sub_same_shape by (assumption || congruence).
  cbn [rbind].
  set (rel := Tensor2 (ncols lpt) (spec_relative_loss (rows lpt) (rows nl))).
  assert (nrows rel = length idxs) as Hrel.
  { unfold rel, nrows, spec_relative_loss. simpl.
    rewrite length_zip_with. unfold nrows in *. lia. }
  destruct (three_part_loss_ok method beta rel (batch_aligned b))
    as (a & o & n & _ & _ & _ & Hloss & Ha & Ho & Hn); [congruence|].
  rewrite Hloss. cbn [rbind]. exists (a + o + n)%Q.
  unfold float_div_count, numel. rewrite Hrel. simpl ncols.
  destruct (Nat.eqb_spec (length idxs * ncols lpt) 0) as [Hz|_]; [nia|].
  split; [reflexivity|]. split.
  - unfold spec_loss. rewrite Ha, Ho, Hn. simpl rows. ring.
  - split; [exact Hsize|]. intros -> ->. reflexivity.
Qed.

(** The last mini-batch of a pass over three snippets in batches of two:
    one snippet, loss 3 per token against a baseline of 1. *)
Lemma batch_loss_formula_witness :
  ∃ v, batch_loss "abs_of_mean" 1 (Tensor2 2 [[3; 3]]%Q)
         (batch_aligned Toy.last_batch) (Tensor2 2 [[1; 1]]%Q)
       = Ok (Finite (v / inject_Z (Z.of_nat (1 * 2))))
       ∧ (v == -4)%Q.
Proof.
  destruct (batch_loss_formula Toy.dataset_AB 2 [0; 1; 2] [2] Toy.last_batch
              "abs_of_mean" 1 (Tensor2 2 [[3; 3]]%Q) (Tensor2 2 [[1; 1]]%Q))
    as (v & Hv & Hspec & _).
  - lia.
  - right. left.
  - reflexivity.
  - reflexivity.
  - repeat constructor.
  - repeat constructor.
  - reflexivity.
  - reflexivity.
  - simpl. lia.
  - exists v. split; [exact Hv|]. rewrite Hspec. reflexivity.
Defined.

(** C1 as stated fails on that mini-batch: with [batch_size = 2] and
    [context_len = 2] the loss would be [-4 / (2 * 2)]; the code divides by
    the two entries of the relative loss of the mini-batch. *)
Lemma batch_loss_divisor_counterexample :
  Dataset.init Toy.tokens_AB ["A"%string] (Some ["B"%string])
    (Some Toy.unit_loss_model) 2 = Ok Toy.dataset_AB
  ∧ [2] ∈ epoch_batches 2 [0; 1; 2]
  ∧ fetch Toy.dataset_AB [2] = Ok Toy.last_batch
  ∧ batch_normal_loss Toy.last_batch = Some (Tensor2 2 [[1; 1]]%Q)
  ∧ batch_loss "abs_of_mean" 1 (Tensor2 2 [[3; 3]]%Q)
      (batch_aligned Toy.last_batch) (Tensor2 2 [[1; 1]]%Q)
    = Ok (Finite (-4 # 2))
  ∧ ¬ (-4 # 2
       == spec_loss "abs_of_mean" 1 (batch_aligned Toy.last_batch)
            (spec_relative_loss [[3; 3]] [[1; 1]])
          / inject_Z (Z.of_nat (2 * 2)))%Q.
Proof.
  split; [reflexivity|]. split; [right; left|].
  split; [reflexivity|]. split; [reflexivity|]. split; [reflexivity|].
  intros Heq. vm_compute in Heq. discriminate Heq.
Qed.

End BatchLossFacts.

(** ** The trainer *)

Module TrainFacts.
Import Train.

Section Facts.
Context `{Collaborators}.

Lemma frame_refl w : frame w w.
Proof.
  repeat split. exists []. split; [symmetry; apply app_nil_r|constructor].
Qed.

Lemma frame_trans w1 w2 w3 : frame w1 w2 → frame w2 w3 → frame w1 w3.
Proof.
  intros (Hh & Hl & Hp & Hd & Ha & n1 & Ht1 & Hn1)
         (Hh' & Hl' & Hp' & Hd' & Ha' & n2 & Ht2 & Hn2).
  repeat split; try congruence.
  exists (n1 ++ n2). split.
  - rewrite Ht2, Ht1. symmetry. apply app_assoc.
  - apply Forall_app. split; [exact Hn1|].
    unfold registered in *. rewrite Hh in Hn2. exact Hn2.
Qed.

Lemma steady_ret {A} (a : A) : steady (ret a).
Proof. intros w w' r [= <- _]. apply frame_refl. Qed.

Lemma steady_raise {A} (e : exn) : steady (@raise _ A e).
Proof. intros w w' r [= <- _]. apply frame_refl. Qed.

Lemma steady_lift {A} (x : result A) : steady (lift x).
Proof. intros w w' r [= <- _]. apply frame_refl. Qed.

Lemma steady_get : steady get.
Proof. intros w w' r [= <- _]. apply frame_refl. Qed.

Lemma steady_modify (f : world → world) :
  (∀ w, frame w (f w)) → steady (modify f).
Proof. intros Hf w w' r [= <- _]. apply Hf. Qed.

Lemma steady_bind {A B} (c : M A) (k : A → M B) :
  steady c → (∀ a, steady (k a)) → steady (bind c k).
Proof.
  intros Hc Hk w w' r. unfold bind.
  destruct (c w) as [w1 [a|e]] eqn:Hcw.
  - intros Hk'. eapply frame_trans; [eapply Hc, Hcw|eapply Hk, Hk'].
  - intros [= <- _]. eapply Hc, Hcw.
Qed.

Lemma steady_when (b : bool) (c : M unit) : steady c → steady (when b c).
Proof. intros Hc. destruct b; [exact Hc|apply steady_ret]. Qed.

Lemma steady_for_each {A S} (xs : list A) (body : S → A → M S) (acc : S) :
  (∀ s x, steady (body s x)) → steady (for_each xs body acc).
Proof.
  intros Hbody. revert acc.
  induction xs as [|x xs IH]; intros acc; simpl.
  - apply steady_ret.
  - apply steady_bind; [apply Hbody|]. intros s. apply IH.
Qed.

Lemma frame_same (w w' : world) :
  hooks w' = hooks w → context_level w' = context_level w →
  length (params w') = length (params w) → dirs w' = dirs w →
  wandb_active w' = wandb_active w →
  training_passes w' = training_passes w →
  frame w w'.
Proof.
  intros. repeat split; try assumption.
  exists []. split; [rewrite app_nil_r; assumption|constructor].
Qed.

Lemma steady_wandb_log (r : log_record) : steady (wandb_log r).
Proof. apply steady_modify. intros w. apply frame_same; reflexivity. Qed.

Lemma steady_wandb_save (p : string) : steady (wandb_save p).
Proof. apply steady_modify. intros w. apply frame_same; reflexivity. Qed.

Lemma steady_wandb_run_dot_name : steady wandb_run_dot_name.
Proof.
  intros w w' r. unfold wandb_run_dot_name.
  destruct (wandb_active w); intros [= <- _]; apply frame_refl.
Qed.

Lemma steady_save_tensor dir base v : steady (save_tensor dir base v).
Proof.
  intros w w' r. unfold save_tensor.
  destruct (existsb _ _); intros [= <- _];
    [apply frame_same; reflexivity|apply frame_refl].
Qed.

Lemma steady_save_checkpoint cell epoch : steady (save_checkpoint cell epoch).
Proof.
  unfold save_checkpoint.
  apply steady_bind; [apply steady_wandb_run_dot_name|]. intros name.
  apply steady_bind; [apply steady_get|]. intros w.
  apply steady_bind; [apply steady_lift|]. intros sv.
  apply steady_bind; [apply steady_save_tensor|]. intros _.
  apply steady_wandb_save.
Qed.

Lemma steady_train_batch a dataset cell epoch st idxs :
  steady (train_batch a dataset cell epoch st idxs).
Proof.
  unfold train_batch. destruct st as [[opt epoch_loss] batch_cnt].
  apply steady_bind; [apply steady_lift|]. intros b.
  apply steady_bind; [apply steady_get|]. intros w0.
  apply steady_bind; [apply steady_lift|]. intros sv.
  apply steady_bind.
  { apply steady_modify. intros w. repeat split.
    exists [registered w]. split; [reflexivity|]. repeat constructor. }
  intros _.
  apply steady_bind; [apply steady_lift|]. intros loss.
  destruct (adamw_step _ _ _ _ _) as [sv' opt'].
  apply steady_bind.
  { apply steady_modify. intros w. apply frame_same; try reflexivity.
    simpl. apply length_insert. }
  intros _.
  apply steady_bind; [apply steady_when, steady_wandb_log|]. intros _.
  apply steady_ret.
Qed.

Lemma steady_train_epoch a dataset cell st epoch :
  steady (train_epoch a dataset cell st epoch).
Proof.
  unfold train_epoch. destruct st as [opt generator].
  destruct (randperm _ _) as [perm generator'].
  apply steady_bind; [apply steady_for_each; intros; apply steady_train_batch|].
  intros [[opt' epoch_loss] batch_cnt].
  apply steady_bind.
  { apply steady_when. apply steady_bind; [apply steady_lift|]. intros mean.
    apply steady_modify. intros w. apply frame_same; reflexivity. }
  intros _.
  apply steady_bind; [apply steady_when, steady_save_checkpoint|]. intros _.
  apply steady_ret.
Qed.

Lemma filter_all {A} (P : A → Prop) `{∀ x, Decision (P x)} (l : list A) :
  Forall P l → filter P l = l.
Proof.
  induction 1 as [|x l Hx _ IH]; [reflexivity|].
  rewrite filter_cons. destruct (decide (P x)); [|contradiction].
  f_equal. exact IH.
Qed.

Lemma reset_drops_new_hook (hs : list hook_entry) (lvl : nat) name f :
  Forall (fun h => hook_level h ≤ lvl) hs →
  filter (fun h => hook_level h ≠ S lvl) (hs ++ [HookEntry (S lvl) name f])
  = hs.
Proof.
  intros Hok. rewrite filter_app, filter_cons. simpl.
  destruct (decide (S lvl ≠ S lvl)) as [Hne|_]; [congruence|].
  rewrite filter_nil, app_nil_r. apply filter_all.
  eapply Forall_impl; [exact Hok|]. simpl. intros h Hh. lia.
Qed.

Lemma reset_keeps_old_hooks (hs : list hook_entry) (lvl : nat) :
  Forall (fun h => hook_level h ≤ lvl) hs →
  filter (fun h => hook_level h ≠ S lvl) hs = hs.
Proof.
  intros Hok. apply filter_all.
  eapply Forall_impl; [exact Hok|]. simpl. intros h Hh. lia.
Qed.

(** [with model.hooks(fwd_hooks=[(name, f)]): body], for a body that
    leaves the registry alone: whatever the body returns or raises, the
    registry is afterwards what it was before, and every forward pass the
    body recorded saw the old hooks and the new one. *)
Lemma model_hooks_scoped {A} (name : string) (f : closure) (body : M A)
    (w w' : world) (r : result A) :
  steady body →
  model_hooks [(name, f)] body w = (w', r) →
  length (params w') = length (params w)
  ∧ dirs w' = dirs w
  ∧ wandb_active w' = wandb_active w
  ∧ (registry_ok w →
     hooks w' = hooks w
     ∧ context_level w' = context_level w
     ∧ ∃ new, training_passes w' = training_passes w ++ new
              ∧ Forall (fun e => e = registered w
                                      ++ [(S (context_level w), name)]) new).
Proof.
  intros Hbody. unfold model_hooks, try_finally, for_each, bind, modify,
    add_hook, ret. simpl.
  destruct (hook_point name).
  - destruct (body _) as [w3 r'] eqn:Hb.
    apply Hbody in Hb as (Hh & Hl & Hp & Hd & Ha & new & Ht & Hnew).
    simpl in *. intros [= <- <-]. unfold reset_hooks_end. simpl.
    repeat split; try assumption.
    + rewrite Hh, Hl. apply reset_drops_new_hook. assumption.
    + rewrite Hl. lia.
    + exists new. split; [exact Ht|].
      eapply Forall_impl; [exact Hnew|]. simpl. intros e ->.
      unfold registered. simpl. rewrite map_app. reflexivity.
  - intros [= <- <-]. unfold reset_hooks_end. simpl.
    repeat split.
    + apply reset_keeps_old_hooks. assumption.
    + lia.
    + exists []. split; [symmetry; apply app_nil_r|constructor].
Qed.

(** The body of [with manager:]. *)
Lemma train_scoped (a : args) (w w' : world) (r : result nat) :
  train a w = (w', r) →
  dirs w' = dirs w
  ∧ wandb_active w' = wandb_active w
  ∧ (∀ cell, r = Ok cell → cell < length (params w'))
  ∧ (registry_ok w →
     hooks w' = hooks w
     ∧ context_level w' = context_level w
     ∧ ∃ new, training_passes w' = training_passes w ++ new
              ∧ Forall (fun e => e = registered w
                                      ++ [(S (context_level w), act_name a)])
                       new).
Proof.
  assert (∀ w0 : world, ∃ new,
            training_passes w0 = training_passes w0 ++ new
            ∧ Forall (fun e => e = registered w
                                 ++ [(S (context_level w), act_name a)]) new)
    as Hnone.
  { intros w0. exists []. split; [symmetry; apply app_nil_r|constructor]. }
  unfold train, bind at 1, modify, bind at 1, get, bind at 1, lift.
  destruct (Dataset.init _ _ _ _ _) as [dataset|e].
  2: { intros [= <- <-]. simpl. repeat split; try discriminate.
       apply Hnone. }
  simpl fst. simpl snd. cbv iota beta.
  destruct (randn _ _) as [v g]. unfold bind at 1.
  destruct (batch_size a =? 0).
  { unfold bind at 1, raise. intros [= <- <-]. simpl.
    repeat split; try discriminate. apply Hnone. }
  unfold bind at 1, ret at 1. unfold bind at 1.
  destruct (model_hooks _ _ _) as [w3 r3] eqn:Hm.
  apply model_hooks_scoped in Hm
    as (Hp & Hd & Ha & Hreg);
    [|apply steady_for_each; intros; apply steady_train_epoch].
  simpl in Hp, Hd, Ha, Hreg.
  destruct r3 as [[opt' gen']|e]; intros [= <- <-].
  - split; [exact Hd|]. split; [exact Ha|]. split.
    + intros cell [= <-]. rewrite Hp, length_app. simpl. lia.
    + exact Hreg.
  - split; [exact Hd|]. split; [exact Ha|]. split; [discriminate|].
    exact Hreg.
Qed.

Lemma start_logging_frame (a : args) (w w1 : world) rm :
  start_logging a w = (w1, rm) →
  hooks w1 = hooks w ∧ context_level w1 = context_level w
  ∧ training_passes w1 = training_passes w.
Proof.
  unfold start_logging, bind, wandb_init, os_mkdir, ret.
  destruct (use_wandb a); [|intros [= <- _]; auto].
  destruct (path_exists _ _); intros [= <- _]; auto.
Qed.

Lemma with_manager_train_scoped (a : args) manager (w w' : world) r :
  with_manager manager (train a) w = (w', r) →
  dirs w' = dirs w
  ∧ (∀ cell, r = Ok cell → cell < length (params w'))
  ∧ (wandb_active w' = None ∨ (manager = None ∧ wandb_active w' = wandb_active w))
  ∧ (registry_ok w →
     hooks w' = hooks w
     ∧ context_level w' = context_level w
     ∧ ∃ new, training_passes w' = training_passes w ++ new
              ∧ Forall (fun e => e = registered w
                                      ++ [(S (context_level w), act_name a)])
                       new).
Proof.
  destruct manager as [name|]; unfold with_manager, try_finally.
  - destruct (train a w) as [w2 r2] eqn:Ht. intros [= <- <-].
    apply train_scoped in Ht as (Hd & Ha & Hc & Hreg).
    unfold wandb_finish.
    destruct (wandb_active w2) eqn:Hact; simpl;
      (split; [exact Hd|]); (split; [exact Hc|]);
      (split; [left; first [reflexivity|exact Hact]|exact Hreg]).
  - intros Ht. apply train_scoped in Ht as (Hd & Ha & Hc & Hreg).
    split; [exact Hd|]. split; [exact Hc|].
    split; [right; split; [reflexivity|exact Ha]|exact Hreg].
Qed.

Lemma shutil_rmtree_frame (name : string) (w w' : world) r :
  shutil_rmtree name w = (w', r) →
  hooks w' = hooks w ∧ context_level w' = context_level w
  ∧ training_passes w' = training_passes w
  ∧ params w' = params w
  ∧ wandb_active w' = wandb_active w.
Proof.
  unfold shutil_rmtree. destruct (existsb _ _); intros [= <- _]; auto.
Qed.

(** C6. From a registry whose hooks sit at the current context level or
    below, however [learn_activation_addition] ends (with a vector or
    with an exception), the hooks of the model and its context level are
    afterwards what they were before, so a forward pass runs the same
    hook functions as before the call; and every forward pass of the
    epoch loop ran with the hooks of before and the injection hook at
    [act_name]. *)
Theorem hook_scoped_to_epoch_loop (a : args) (w w' : world)
    (r : result (list Q)) :
  registry_ok w →
  learn_activation_addition a w = (w', r) →
  hooks w' = hooks w
  ∧ context_level w' = context_level w
  ∧ (∀ store toks,
       forward (hooks_in_force store w') toks
       = forward (hooks_in_force store w) toks)
  ∧ ∃ new, training_passes w' = training_passes w ++ new
           ∧ Forall (fun e => e = registered w
                                   ++ [(S (context_level w), act_name a)])
                    new.
Proof.
  intros Hok Hrun.
  cut (hooks w' = hooks w
       ∧ context_level w' = context_level w
       ∧ ∃ new, training_passes w' = training_passes w ++ new
                ∧ Forall (fun e => e = registered w
                                        ++ [(S (context_level w), act_name a)])
                         new).
  { intros (Hh & Hl & Hp). repeat split; try assumption.
    intros store toks. unfold hooks_in_force. rewrite Hh. reflexivity. }
  revert Hrun. unfold learn_activation_addition, bind at 1.
  destruct (Dataset.py_in _ _).
  2: { unfold raise. intros [= <- _]. repeat split.
       exists []. split; [symmetry; apply app_nil_r|constructor]. }
  unfold ret at 1. unfold bind at 1.
  destruct (start_logging a w) as [w1 [manager|e]] eqn:Hs.
  2: { intros [= <- _]. apply start_logging_frame in Hs as (-> & -> & ->).
       repeat split.
       exists []. split; [symmetry; apply app_nil_r|constructor]. }
  apply start_logging_frame in Hs as (Hh1 & Hl1 & Hp1).
  unfold bind at 1.
  destruct (with_manager manager (train a) w1) as [w2 [cell|e]] eqn:Ht.
  2: { intros [= <- _].
       apply with_manager_train_scoped in Ht as (_ & _ & _ & Hreg).
       destruct Hreg as (Hh2 & Hl2 & new & Hp2 & Hnew).
       { unfold registry_ok. rewrite Hh1, Hl1. exact Hok. }
       unfold registered in *. rewrite Hh1, Hl1, Hp1 in *. eauto. }
  apply with_manager_train_scoped in Ht as (_ & _ & _ & Hreg).
  destruct Hreg as (Hh2 & Hl2 & new & Hp2 & Hnew).
  { unfold registry_ok. rewrite Hh1, Hl1. exact Hok. }
  unfold registered in *. rewrite Hh1, Hl1, Hp1 in *.
  unfold bind at 1.
  destruct manager as [name|].
  - destruct (shutil_rmtree name w2) as [w3 [[]|e]] eqn:Hr;
      apply shutil_rmtree_frame in Hr as (Hh3 & Hl3 & Hp3 & _ & _).
    + unfold bind, get, lift. intros [= <- _].
      rewrite Hh3, Hl3, Hp3. eauto.
    + intros [= <- _]. rewrite Hh3, Hl3, Hp3. eauto.
  - unfold ret at 1, bind, get, lift. intros [= <- _]. eauto.
Qed.

Lemma existsb_eqb_last (name : string) (l : list string) :
  existsb (String.eqb name) (l ++ [name]) = true.
Proof.
  rewrite existsb_app. simpl. rewrite String.eqb_refl.
  destruct (existsb _ l); reflexivity.
Qed.

Lemma rmtree_removes (name : string) (l : list string) :
  name ∉ List.filter
           (fun d => negb (String.eqb name d || is_under name d)) l.
Proof.
  rewrite list_elem_of_In, filter_In. intros [_ Hn].
  rewrite String.eqb_refl in Hn. discriminate.
Qed.

(** C7, as the code has it. With logging, the run directory is made
    before the with-block of the run. When the name of the run is free,
    the wandb run is finished however the function ends; the run directory
    is removed when the function returns its vector, and it is still there
    when an exception leaves the function. When a file or a directory of
    that name exists already, [os.mkdir] raises before the with-block:
    [FileExistsError] leaves the function, the run is still active, and no
    directory has been made or removed. *)
Theorem run_directory_cleanup (a : args) (w w' : world)
    (r : result (list Q)) :
  use_wandb a = true →
  Dataset.py_in (neutral_loss_method a)
    ["abs_of_mean"; "mean_of_abs"]%string = true →
  learn_activation_addition a w = (w', r) →
  (path_exists (wandb_run_name (wandb_started w)) w = false →
   wandb_active w' = None
   ∧ (is_ok r = true → wandb_run_name (wandb_started w) ∉ dirs w')
   ∧ (is_ok r = false → wandb_run_name (wandb_started w) ∈ dirs w'))
  ∧ (path_exists (wandb_run_name (wandb_started w)) w = true →
     r = Raise FileExistsError
     ∧ wandb_active w' = Some (wandb_run_name (wandb_started w))
     ∧ dirs w' = dirs w).
Proof.
  intros Hwandb Hmethod Hrun. split; intros Hfree; revert Hrun.
  - set (name := wandb_run_name (wandb_started w)) in *.
    unfold learn_activation_addition, bind at 1. rewrite Hmethod.
    unfold ret at 1, bind at 1, start_logging. rewrite Hwandb.
    unfold bind at 1, wandb_init. unfold bind at 1, os_mkdir.
    fold name.
    assert (path_exists name
              (set_wandb_run (S (wandb_started w)) (Some name)
                 match wandb_active w with
                 | Some old => wandb_finished w ++ [old]
                 | None => wandb_finished w
                 end w) = false) as -> by exact Hfree.
    unfold ret at 1, bind at 1.
    match goal with
    | |- context [with_manager _ _ ?w1] => set (w1' := w1)
    end.
    destruct (with_manager (Some name) (train a) w1') as [w2 rt] eqn:Ht.
    apply with_manager_train_scoped in Ht as (Hd & Hc & Hact & _).
    destruct Hact as [Hact|[? _]]; [|discriminate].
    assert (dirs w2 = dirs w ++ [name]) as Hdirs by exact Hd.
    destruct rt as [cell|e].
    + unfold bind at 1, shutil_rmtree.
      rewrite Hdirs, existsb_eqb_last.
      unfold bind, get, lift, Dataset.lookup_or_raise. simpl params.
      specialize (Hc cell eq_refl).
      destruct (params w2 !! cell) as [v|] eqn:Hv.
      * intros [= <- <-]. simpl.
        split; [exact Hact|]. split; [|discriminate].
        intros _. apply rmtree_removes.
      * apply lookup_ge_None in Hv. lia.
    + intros [= <- <-]. split; [exact Hact|]. split; [discriminate|].
      intros _. rewrite Hdirs. apply elem_of_app. right. left.
  - unfold learn_activation_addition, start_logging, bind, wandb_init,
      os_mkdir, ret.
    rewrite Hmethod, Hwandb.
    match goal with
    | |- context [path_exists ?n ?w0] =>
        change (path_exists n w0)
          with (path_exists (wandb_run_name (wandb_started w)) w)
    end.
    rewrite Hfree. intros [= <- <-]. simpl. auto.
Qed.

Lemma start_logging_rng (a : args) (g : rng) (w : world) :
  start_logging a (set_global_rng g w)
  = (set_global_rng g (fst (start_logging a w)), snd (start_logging a w)).
Proof.
  unfold start_logging, bind, wandb_init, os_mkdir, ret, path_exists.
  destruct (use_wandb a); [|reflexivity]. simpl.
  destruct (_ || _); reflexivity.
Qed.

(** [train] starts by seeding the global generator: the state in which
    it finds that generator does not matter. *)
Lemma train_rng (a : args) (g : rng) (w : world) :
  train a (set_global_rng g w) = train a w.
Proof. reflexivity. Qed.

(** C8. The outcome of [learn_activation_addition] (the trained vector,
    or the exception) is a function of its arguments and of the world
    without the state of the global generator: runs with the same
    arguments, seed included, from worlds that differ only in that state
    return the same outcome. *)
Theorem seed_determines_vector (a : args) (w : world) (g1 g2 : rng) :
  snd (learn_activation_addition a (set_global_rng g1 w))
  = snd (learn_activation_addition a (set_global_rng g2 w)).
Proof.
  assert (∀ g, snd (learn_activation_addition a (set_global_rng g w))
               = snd (learn_activation_addition a w)) as Hg.
  { intros g. unfold learn_activation_addition, bind, ret, raise.
    (* the assertion on the method does not read the world *)
    destruct (Dataset.py_in _ _); [|reflexivity].
    (* starting the logging leaves the generator as it found it *)
    rewrite start_logging_rng.
    destruct (start_logging a w) as [w1 [manager|e]]; [|reflexivity].
    simpl fst. simpl snd.
    (* the body of the with-block seeds the generator first *)
    assert (with_manager manager (train a) (set_global_rng g w1)
            = with_manager manager (train a) w1) as ->; [|reflexivity].
    destruct manager; unfold with_manager, try_finally;
      rewrite train_rng; reflexivity. }
  rewrite (Hg g1), (Hg g2). reflexivity.
Qed.

End Facts.

End TrainFacts.

(** ** Runs of the trainer on the small model *)

Module RunFacts.
Import Train TrainFacts.

(** Two runs with logging: one with a model of width 1, and one with a
    model of width 2, on which the injection hook does not fit the
    activation and the first forward pass of the epoch loop raises. *)
Abbreviation good_run :=
  (@learn_activation_addition (Toy.collaborators 1) (Toy.toy_args true)
     (Toy.empty_world 1 5)).

Abbreviation failing_run :=
  (@learn_activation_addition (Toy.collaborators 2) (Toy.toy_args true)
     (Toy.empty_world 2 5)).

(** A run with logging in a world where a file has the name of the run. *)
Abbreviation taken_run :=
  (@learn_activation_addition (Toy.collaborators 1) (Toy.toy_args true)
     (set_fs [] [("run"%string, [])] (Toy.empty_world 1 5))).

Lemma hook_scoped_to_epoch_loop_witness :
  snd failing_run = Raise RuntimeError
  ∧ hooks (fst failing_run) = []
  ∧ context_level (fst failing_run) = 0
  ∧ training_passes (fst failing_run)
    = [[(1, "blocks.0.hook_resid_pre"%string)]].
Proof.
  split; [vm_compute; reflexivity|].
  destruct (hook_scoped_to_epoch_loop (H := Toy.collaborators 2)
              (Toy.toy_args true) (Toy.empty_world 2 5)
              (fst failing_run) (snd failing_run))
    as (Hh & Hl & _ & _).
  - constructor.
  - apply surjective_pairing.
  - split; [exact Hh|]. split; [exact Hl|]. vm_compute. reflexivity.
Defined.

Lemma run_directory_cleanup_witness :
  is_ok (snd good_run) = true
  ∧ wandb_active (fst good_run) = None
  ∧ ("run"%string ∉ dirs (fst good_run))
  ∧ snd taken_run = Raise FileExistsError
  ∧ wandb_active (fst taken_run) = Some "run"%string
  ∧ dirs (fst taken_run) = [].
Proof.
  split; [vm_compute; reflexivity|].
  destruct (run_directory_cleanup (H := Toy.collaborators 1)
              (Toy.toy_args true) (Toy.empty_world 1 5)
              (fst good_run) (snd good_run))
    as [Hfree _].
  - reflexivity.
  - reflexivity.
  - apply surjective_pairing.
  - destruct Hfree as (Hact & Hok & _); [reflexivity|].
    split; [exact Hact|]. split; [apply Hok; vm_compute; reflexivity|].
    destruct (run_directory_cleanup (H := Toy.collaborators 1)
                (Toy.toy_args true)
                (set_fs [] [("run"%string, [])] (Toy.empty_world 1 5))
                (fst taken_run) (snd taken_run))
      as [_ Htaken].
    + reflexivity.
    + reflexivity.
    + apply surjective_pairing.
    + destruct Htaken as (Hr & Ha & Hd); [reflexivity|].
      split; [exact Hr|]. split; [exact Ha|exact Hd].
Defined.

(** C7 as stated fails: logging was started, the directory of the run did
    not exist before the call, a forward pass of the epoch loop raised, and
    the directory is there after the call. *)
Lemma run_directory_left_on_failure_counterexample :
  use_wandb (Toy.toy_args true) = true
  ∧ dirs (Toy.empty_world 2 5) = []
  ∧ snd failing_run = Raise RuntimeError
  ∧ training_passes (fst failing_run)
    = [[(1, "blocks.0.hook_resid_pre"%string)]]
  ∧ wandb_active (fst failing_run) = None
  ∧ wandb_finished (fst failing_run) = ["run"%string]
  ∧ dirs (fst failing_run) = ["run"%string].
Proof. vm_compute. repeat split. Qed.

End RunFacts.

(** ** The word-count metric *)

Module MetricsFacts.
Import Metrics.

Lemma remove_dups_length_le (l : list string) :
  length (remove_dups l) ≤ length l.
Proof.
  induction l as [|s l IH]; simpl; [lia|].
  destruct (decide_rel elem_of s l); simpl; lia.
Qed.

(** C10, as the code has it. The frame of the word-count metric is indexed
    by the input strings themselves, in their order: one row per input
    string, so a string given twice has two rows; the rows are one per
    distinct string exactly when the inputs are pairwise distinct. *)
Theorem word_count_metric_rows (words : list string) (case_sensitive : bool)
    (strs : list string) :
  index (get_word_count_metric words case_sensitive strs) = strs
  ∧ column_name (get_word_count_metric words case_sensitive strs)
    = "count"%string
  ∧ length (frame_rows (get_word_count_metric words case_sensitive strs))
    = length strs
  ∧ (∀ i s, strs !! i = Some s →
       ∃ c, frame_rows (get_word_count_metric words case_sensitive strs) !! i
            = Some (s, c))
  ∧ (length (frame_rows (get_word_count_metric words case_sensitive strs))
     = length (remove_dups strs) ↔ NoDup strs).
Proof.
  assert (length (frame_rows (get_word_count_metric words case_sensitive strs))
          = length strs) as Hlen.
  { unfold frame_rows, get_word_count_metric. simpl.
    rewrite length_zip_with, length_map.
    destruct case_sensitive; simpl; rewrite ?length_map; lia. }
  split; [reflexivity|]. split; [reflexivity|]. split; [exact Hlen|]. split.
  - intros i s Hs.
    destruct (frame_rows (get_word_count_metric words case_sensitive strs) !! i)
      as [[s' c]|] eqn:Hrow.
    + exists c. unfold frame_rows in Hrow. simpl in Hrow.
      apply lookup_zip_with_Some in Hrow as (x & y & [= <- <-] & Hx & _).
      congruence.
    + apply lookup_ge_None in Hrow. apply lookup_lt_Some in Hs. lia.
  - rewrite Hlen. split.
    + intros Heq. clear Hlen. induction strs as [|s strs IH]; [constructor|].
      simpl in Heq. destruct (decide_rel elem_of s strs) as [Hin|Hnin].
      * pose proof (remove_dups_length_le strs). lia.
      * simpl in Heq. constructor; [exact Hnin|]. apply IH. lia.
    + intros Hnd. clear Hlen. induction Hnd as [|s strs Hnin _ IH]; [reflexivity|].
      simpl. destruct (decide_rel elem_of s strs); [contradiction|].
      simpl. f_equal. exact IH.
Qed.

(** C10 as stated fails: the same string given twice has two rows. *)
Lemma word_count_metric_duplicates_counterexample :
  frame_rows (get_word_count_metric ["wedding"%string] false
                ["a wedding"%string; "a wedding"%string])
  = [("a wedding"%string, 1); ("a wedding"%string, 1)]
  ∧ remove_dups ["a wedding"%string; "a wedding"%string]
    = ["a wedding"%string]
  ∧ length (frame_rows (get_word_count_metric ["wedding"%string] false
                          ["a wedding"%string; "a wedding"%string]))
    ≠ length (remove_dups ["a wedding"%string; "a wedding"%string]).
Proof.
  split; [reflexivity|]. split; [reflexivity|]. vm_compute. discriminate.
Qed.

End MetricsFacts.

(** * Further properties of the code *)

(** ** The corpus builder *)

Module CorpusMore.
Import Corpus CorpusFacts.

Lemma ltb_trans (a b c : string) :
  String.ltb a b = true → String.ltb b c = true → String.ltb a c = true.
Proof.
  unfold String.ltb.
  destruct (String.compare a b) eqn:Hab; try discriminate.
  destruct (String.compare b c) eqn:Hbc; try discriminate.
  intros _ _.
  apply OrderedTypeEx.String_as_OT.cmp_lt in Hab, Hbc.
  pose proof (OrderedTypeEx.String_as_OT.lt_trans _ _ _ Hab Hbc) as Hac.
  apply OrderedTypeEx.String_as_OT.cmp_lt in Hac.
  unfold OrderedTypeEx.String_as_OT.cmp in Hac. rewrite Hac. reflexivity.
Qed.

Lemma ltb_irrefl (a : string) : String.ltb a a = false.
Proof.
  unfold String.ltb. pose proof (String.compare_antisym a a) as H.
  destruct (String.compare a a); try reflexivity; discriminate.
Qed.

Lemma ltb_total (a b : string) :
  String.eqb a b = false → String.ltb a b = false → String.ltb b a = true.
Proof.
  unfold String.ltb. rewrite (String.compare_antisym b a).
  intros Hne. destruct (String.compare a b) eqn:Hc; try discriminate.
  - apply String.compare_eq_iff in Hc. subst.
    rewrite String.eqb_refl in Hne. discriminate.
  - reflexivity.
Qed.

Lemma elem_of_insert_key (l x : string) (keys : list string) :
  x ∈ insert_key l keys ↔ x = l ∨ x ∈ keys.
Proof.
  induction keys as [|k keys IH]; simpl.
  - rewrite list_elem_of_singleton. split; [auto|]. intros [H|H]; [auto|].
    inversion H.
  - destruct (String.eqb_spec l k) as [->|Hne].
    + rewrite elem_of_cons. tauto.
    + destruct (String.ltb l k).
      * rewrite elem_of_cons. tauto.
      * rewrite !elem_of_cons, IH. tauto.
Qed.

Lemma insert_key_sorted (l : string) (keys : list string) :
  keys_sorted keys → keys_sorted (insert_key l keys).
Proof.
  unfold keys_sorted. induction 1 as [|k keys Hs IH Hk]; simpl.
  - repeat constructor.
  - destruct (String.eqb l k) eqn:Heq; [constructor; assumption|].
    destruct (String.ltb l k) eqn:Hlt.
    + constructor; [constructor; assumption|].
      constructor; [exact Hlt|].
      eapply Forall_impl; [exact Hk|]. simpl. intros x Hx.
      eapply ltb_trans; eassumption.
    + constructor; [exact IH|].
      apply Forall_forall. intros x Hx.
      apply elem_of_insert_key in Hx as [->|Hx].
      * apply ltb_total; assumption.
      * rewrite Forall_forall in Hk. apply Hk. exact Hx.
Qed.

Lemma keys_sorted_NoDup (keys : list string) : keys_sorted keys → NoDup keys.
Proof.
  induction 1 as [|k keys _ IH Hk]; constructor; [|exact IH].
  intros Hin. rewrite Forall_forall in Hk. specialize (Hk k Hin).
  rewrite ltb_irrefl in Hk. discriminate.
Qed.

Lemma group_keys_spec (texts : list row) :
  keys_sorted (group_keys texts)
  ∧ ∀ l, l ∈ group_keys texts ↔ ∃ r, r ∈ texts ∧ label r = l.
Proof.
  unfold group_keys. induction texts as [|r texts [IHs IHm]]; simpl.
  - split; [constructor|]. intros l. split.
    + intros H. inversion H.
    + intros (r & H & _). inversion H.
  - split; [apply insert_key_sorted; exact IHs|].
    intros l. rewrite elem_of_insert_key, IHm. split.
    + intros [->|(r' & Hr' & <-)].
      * exists r. split; [left|reflexivity].
      * exists r'. split; [right; exact Hr'|reflexivity].
    + intros (r' & Hr' & <-). apply elem_of_cons in Hr' as [->|Hr'].
      * left. reflexivity.
      * right. exists r'. auto.
Qed.


Lemma corpus_keys_group (to_tokens : string → list Z) (eos : string)
    (texts : list row) (L S : nat) (tbl : list (string * tensor2 Z)) :
  corpus_to_token_batches to_tokens eos texts L S = Ok tbl →
  map fst tbl = group_keys texts.
Proof.
  intros Hc. pose proof (corpus_to_token_batches_labels _ _ _ _ _ _ Hc) as Hl.
  unfold grouped_texts in Hl. clear Hc. revert tbl Hl.
  generalize (group_keys texts). intros keys.
  induction keys as [|k keys IH]; intros tbl Hl;
    inversion Hl as [|g e gs es [Hfst _] Hrest]; subst.
  - reflexivity.
  - simpl in *. f_equal; [exact Hfst|]. apply IH. exact Hrest.
Qed.

(** The keys of the result of [corpus_to_token_batches] are the distinct
    labels of the texts, each once, in increasing order, and every tensor
    has [context_len] columns. *)
Theorem corpus_keys_sorted_distinct (to_tokens : string → list Z)
    (eos : string) (texts : list row) (L S : nat)
    (tbl : list (string * tensor2 Z)) :
  corpus_to_token_batches to_tokens eos texts L S = Ok tbl →
  keys_sorted (map fst tbl)
  ∧ NoDup (map fst tbl)
  ∧ (∀ l, l ∈ map fst tbl ↔ ∃ r, r ∈ texts ∧ label r = l)
  ∧ Forall (fun e => ncols (snd e) = L) tbl.
Proof.
  intros Hc. pose proof (corpus_to_token_batches_labels _ _ _ _ _ _ Hc) as Hl.
  pose proof (corpus_keys_group _ _ _ _ _ _ Hc) as Hkeys.
  destruct (group_keys_spec texts) as [Hs Hm]. rewrite Hkeys.
  split; [exact Hs|]. split; [apply keys_sorted_NoDup; exact Hs|].
  split; [exact Hm|].
  clear Hkeys Hc. induction Hl as [|g e gs es [_ Ht] _ IH]; constructor.
  - unfold token_snippets in Ht.
    destruct (arange_from0 _ _); simpl in Ht; [|discriminate].
    destruct (index_select _ _); simpl in Ht; [|discriminate].
    injection Ht as <-. reflexivity.
  - exact IH.
Qed.

Lemma corpus_keys_sorted_distinct_witness :
  ∃ tbl, corpus_to_token_batches Toy.char_tokens "|" Toy.texts_AB 4 2 = Ok tbl
         ∧ map fst tbl = ["A"%string; "B"%string]
         ∧ map (fun e => nrows (snd e)) tbl = [3; 1]
         ∧ NoDup (map fst tbl).
Proof.
  eexists. split; [vm_compute; reflexivity|].
  split; [reflexivity|]. split; [reflexivity|].
  eapply (corpus_keys_sorted_distinct Toy.char_tokens "|" Toy.texts_AB 4 2).
  vm_compute. reflexivity.
Defined.

(** For a positive stride and at least [context_len] tokens, the snippets
    are rows of [context_len] tokens, one for each start offset
    [0, S, 2S, ...] strictly below [N - L]; there is none exactly when
    [N = L]; and consecutive snippets overlap: the tokens of a snippet
    after its first [S] are the first [L - S] tokens of the next one. *)
Theorem token_snippets_overlap (toks : list Z) (L S : nat) :
  0 < S → L ≤ length toks →
  ∃ t, token_snippets toks L S = Ok t
       ∧ ncols t = L
       ∧ wf2 t
       ∧ nrows t = (length toks - L + S - 1) / S
       ∧ (nrows t = 0 ↔ length toks = L)
       ∧ (∀ i r, rows t !! i = Some r →
            r = take L (drop (i * S) toks) ∧ i * S + L < length toks)
       ∧ (∀ i r r', rows t !! i = Some r → rows t !! (i + 1) = Some r' →
            drop S r = take (L - S) r').
Proof.
  intros HS HL. eexists. split; [apply token_snippets_windows; assumption|].
  simpl. unfold nrows, wf2. simpl. rewrite length_map, length_seq.
  assert (∀ i r,
            map (fun i => take L (drop (i * S) toks))
                (seq 0 ((length toks - L + S - 1) / S)) !! i = Some r →
            r = take L (drop (i * S) toks) ∧ i * S + L < length toks)
    as Hrow.
  { intros i r Hr. rewrite list_lookup_fmap in Hr.
    destruct (seq 0 _ !! i) as [j|] eqn:Hj; [|discriminate].
    apply lookup_seq in Hj as [-> Hi]. simpl in Hr. injection Hr as <-.
    split; [reflexivity|].
    pose proof (ceil_div_bound (length toks - L) S i HS Hi). lia. }
  split; [reflexivity|]. split.
  { apply Forall_forall. intros r Hr.
    apply list_elem_of_lookup in Hr as [i Hi].
    apply Hrow in Hi as [-> Hi].
    rewrite length_take, length_drop. lia. }
  split; [reflexivity|]. split.
  { split.
    - intros Hz. destruct (Nat.eq_dec (length toks) L) as [|Hne]; [assumption|].
      exfalso.
      assert (1 ≤ (length toks - L + S - 1) / S); [|lia].
      apply Nat.div_le_lower_bound; lia.
    - intros ->. replace (L - L + S - 1) with (S - 1) by lia.
      apply Nat.div_small. lia. }
  split; [exact Hrow|].
  intros i r r' Hr Hr'.
  apply Hrow in Hr as [-> _]. apply Hrow in Hr' as [-> Hi'].
  rewrite skipn_firstn_comm, drop_drop, take_take.
  replace (i * S + S) with ((i + 1) * S) by lia.
  replace (min (L - S) L) with (L - S) by lia. reflexivity.
Qed.

Lemma token_snippets_overlap_witness :
  ∃ t, token_snippets [1; 2; 3; 4; 5; 6; 7]%Z 4 2 = Ok t
       ∧ rows t = [[1; 2; 3; 4]; [3; 4; 5; 6]]%Z
       ∧ wf2 t.
Proof.
  destruct (token_snippets_overlap [1; 2; 3; 4; 5; 6; 7]%Z 4 2)
    as (t & Ht & _ & Hwf & _); [lia|simpl; lia|].
  exists t. split; [exact Ht|]. split; [|exact Hwf].
  vm_compute in Ht. injection Ht as <-. reflexivity.
Defined.

Lemma traverse_not_ok {A B} (f : A → result B) (l : list A) (x : A) :
  x ∈ l → is_ok (f x) = false → is_ok (traverse f l) = false.
Proof.
  intros Hx Hf. destruct (traverse f l) as [ys|e] eqn:Ht; [|reflexivity].
  apply traverse_Forall2 in Ht.
  apply list_elem_of_lookup in Hx as [i Hi].
  destruct (Forall2_lookup_l _ _ _ _ _ Ht Hi) as (y & _ & Hy).
  rewrite Hy in Hf. discriminate.
Qed.

(** A label whose concatenated text has fewer than [context_len] tokens
    does not get an empty tensor: [t.arange] refuses the negative bound
    and the whole call raises, whatever the other labels hold; a zero
    stride is refused as well. *)
Theorem corpus_short_label_raises (to_tokens : string → list Z)
    (eos : string) (texts : list row) (L S : nat) (g : string * string) :
  g ∈ grouped_texts eos texts →
  length (to_tokens (snd g)) < L ∨ S = 0 →
  token_snippets (to_tokens (snd g)) L S = Raise RuntimeError
  ∧ is_ok (corpus_to_token_batches to_tokens eos texts L S) = false.
Proof.
  intros Hg Hshort.
  assert (token_snippets (to_tokens (snd g)) L S = Raise RuntimeError) as Hr.
  { unfold token_snippets, arange_from0.
    destruct (Nat.eqb_spec S 0) as [|HS]; [reflexivity|].
    destruct Hshort as [Hlt|]; [|contradiction].
    destruct (Z.ltb_spec (Z.of_nat (length (to_tokens (snd g))) - Z.of_nat L) 0);
      [reflexivity|lia]. }
  split; [exact Hr|]. unfold corpus_to_token_batches.
  eapply traverse_not_ok; [exact Hg|].
  destruct g as [l txt]. simpl in *. rewrite Hr. reflexivity.
Qed.

Lemma corpus_short_label_raises_witness :
  corpus_to_token_batches Toy.char_tokens "|"
    [Row "abcdefgh" "A"; Row "xy" "B"] 4 2 = Raise RuntimeError
  ∧ is_ok (corpus_to_token_batches Toy.char_tokens "|"
             [Row "abcdefgh" "A"; Row "xy" "B"] 4 2) = false.
Proof.
  split; [vm_compute; reflexivity|].
  apply (corpus_short_label_raises Toy.char_tokens "|"
           [Row "abcdefgh" "A"; Row "xy" "B"] 4 2 ("B"%string, "xy"%string)).
  - right. left.
  - left. simpl. lia.
Defined.


Lemma elem_of_labelled_files (fns : list (string * list string)) l f :
  (l, f) ∈ labelled_files fns ↔ ∃ fs, (l, fs) ∈ fns ∧ f ∈ fs.
Proof.
  unfold labelled_files. rewrite list_elem_of_In, in_flat_map. split.
  - intros ([l' fs] & Hin & Hfs). apply in_map_iff in Hfs as (f' & [= -> ->] & Hf).
    exists fs. rewrite !list_elem_of_In. auto.
  - intros (fs & Hfs & Hf). exists (l, fs).
    apply list_elem_of_In in Hfs. apply list_elem_of_In in Hf.
    split; [exact Hfs|]. apply in_map_iff. exists f. auto.
Qed.

Lemma load_corpus_rows (read : string → result string)
    (fns : list (string * list string)) (rows : list row) :
  load_corpus_from_files read fns = Ok rows →
  Forall2 (fun p r => read (snd p) = Ok (text r) ∧ label r = fst p)
          (labelled_files fns) rows.
Proof.
  unfold load_corpus_from_files. intros Ht. apply traverse_Forall2 in Ht.
  eapply Forall2_impl; [exact Ht|]. intros [l f] r. simpl.
  destruct (read f) as [txt|]; simpl; [|discriminate].
  intros [= <-]. auto.
Qed.


(** From files to token batches: the labels of the result are the labels
    of the dict that have at least one file; a label with an empty list of
    files has no entry. (The frame must have a row: without any row it has
    no label column to group by.) *)
Theorem corpus_labels_need_files (read : string → result string)
    (fns : list (string * list string)) (rows : list row)
    (to_tokens : string → list Z) (eos : string) (L S : nat)
    (tbl : list (string * tensor2 Z)) :
  load_corpus_from_files read fns = Ok rows →
  rows ≠ [] →
  corpus_to_token_batches to_tokens eos rows L S = Ok tbl →
  ∀ l, l ∈ map fst tbl ↔ ∃ fs, (l, fs) ∈ fns ∧ fs ≠ [].
Proof.
  intros Hload _ Hc l.
  rewrite (corpus_keys_group _ _ _ _ _ _ Hc).
  destruct (group_keys_spec rows) as [_ Hm]. rewrite Hm.
  pose proof (load_corpus_rows _ _ _ Hload) as Hrows. split.
  - intros (r & Hr & <-).
    apply list_elem_of_lookup in Hr as [i Hi].
    destruct (Forall2_lookup_r _ _ _ _ _ Hrows Hi) as ([l' f] & Hp & _ & Hl).
    simpl in Hl. subst l'.
    apply list_elem_of_lookup_2 in Hp.
    apply elem_of_labelled_files in Hp as (fs & Hfs & Hf).
    exists fs. split; [exact Hfs|]. intros ->. inversion Hf.
  - intros (fs & Hfs & Hne). destruct fs as [|f fs]; [congruence|].
    assert ((l, f) ∈ labelled_files fns) as Hp.
    { apply elem_of_labelled_files. exists (f :: fs). split; [exact Hfs|left]. }
    apply list_elem_of_lookup in Hp as [i Hi].
    destruct (Forall2_lookup_l _ _ _ _ _ Hrows Hi) as (r & Hr & _ & Hl).
    exists r. split; [eapply list_elem_of_lookup_2, Hr|exact Hl].
Qed.

Lemma corpus_labels_need_files_witness :
  ∃ rows tbl,
    load_corpus_from_files Toy.three_files Toy.files_by_label = Ok rows
    ∧ corpus_to_token_batches Toy.char_tokens "|" rows 4 2 = Ok tbl
    ∧ map fst tbl = ["A"%string; "B"%string]
    ∧ ("C"%string ∈ map fst tbl
       ↔ ∃ fs, ("C"%string, fs) ∈ Toy.files_by_label ∧ fs ≠ []).
Proof.
  eexists. eexists. split; [vm_compute; reflexivity|].
  split; [vm_compute; reflexivity|]. split; [reflexivity|].
  eapply (corpus_labels_need_files Toy.three_files Toy.files_by_label _
            Toy.char_tokens "|" 4 2).
  - vm_compute. reflexivity.
  - discriminate.
  - vm_compute. reflexivity.
Defined.

End CorpusMore.

(** ** The dataset *)

Module DatasetMore.
Import Dataset DatasetFacts.

(** What the assertions of [init] leave true of a constructed dataset. *)
Lemma init_sizes tbl al ol model bs ds :
  init tbl al ol model bs = Ok ds →
  length (aligned ds) = len ds
  ∧ match model with
    | Some m => ∃ nl, normal_loss ds = Some nl
                      ∧ cache_normal_loss m (tokens ds) bs = Ok nl
                      ∧ nrows nl = len ds
    | None => normal_loss ds = None
    end.
Proof.
  unfold init, len.
  destruct (traverse _ tbl) as [blocks|]; simpl; [|discriminate].
  destruct (concat_rows (map snd tbl)) as [toks|]; simpl; [|discriminate].
  destruct (concat_vecs blocks) as [alv|]; simpl; [|discriminate].
  destruct (Nat.eqb_spec (nrows toks) (length alv)) as [Heq|]; [|discriminate].
  simpl. destruct model as [m|].
  - destruct (cache_normal_loss m toks bs) as [nl|] eqn:Hc; simpl;
      [|discriminate].
    intros [= <-]. simpl. split; [symmetry; exact Heq|].
    exists nl. split; [reflexivity|]. split; [exact Hc|].
    apply cache_normal_loss_ok in Hc as [Hn _]. exact Hn.
  - intros [= <-]. simpl. split; [symmetry; exact Heq|reflexivity].
Qed.

(** On a constructed dataset [getitem] is defined exactly on the indices
    below [len]: there it returns the snippet, its tag and, when the
    dataset was constructed with a model, its baseline row; from [len] on
    it raises [IndexError]. *)
Theorem getitem_in_range tbl al ol model bs ds (idx : nat) :
  init tbl al ol model bs = Ok ds →
  (idx < len ds →
   ∃ it, getitem ds idx = Ok it
         ∧ rows (tokens ds) !! idx = Some (item_tokens it)
         ∧ aligned ds !! idx = Some (item_aligned it)
         ∧ (is_Some (item_normal_loss it) ↔ is_Some model)
         ∧ ∀ nl, normal_loss ds = Some nl →
                 ∃ r, rows nl !! idx = Some r ∧ item_normal_loss it = Some r)
  ∧ (len ds ≤ idx → getitem ds idx = Raise IndexError).
Proof.
  intros Hinit. apply init_sizes in Hinit as [Hal Hnl].
  unfold getitem, lookup_or_raise, len, nrows in *. split.
  - intros Hidx.
    destruct (lookup_lt_is_Some_2 (rows (tokens ds)) idx Hidx) as [toks Ht].
    destruct (lookup_lt_is_Some_2 (aligned ds) idx ltac:(lia)) as [a Ha].
    rewrite Ht, Ha. simpl. destruct model as [m|].
    + destruct Hnl as (nl & Hds & _ & Hn). rewrite Hds.
      destruct (lookup_lt_is_Some_2 (rows nl) idx ltac:(lia)) as [r Hr].
      rewrite Hr. simpl. eexists. split; [reflexivity|]. simpl.
      repeat split; eauto. intros nl' [= <-]. eauto.
    + rewrite Hnl. eexists. split; [reflexivity|]. simpl.
      repeat split; first [discriminate | intros [? ?]; discriminate].
  - intros Hidx. rewrite (lookup_ge_None_2 (rows (tokens ds)) idx Hidx).
    reflexivity.
Qed.

Lemma getitem_in_range_witness :
  ∃ it, getitem Toy.dataset_AB 2 = Ok it
        ∧ item_tokens it = [5; 6]%Z ∧ item_aligned it = (-1)%Z
        ∧ getitem Toy.dataset_AB 3 = Raise IndexError.
Proof.
  destruct (getitem_in_range Toy.tokens_AB ["A"%string] (Some ["B"%string])
              (Some Toy.unit_loss_model) 2 Toy.dataset_AB 2)
    as [Hin _]; [reflexivity|].
  destruct Hin as (it & Hit & _); [unfold len, nrows; simpl; lia|].
  exists it. split; [exact Hit|].
  vm_compute in Hit. injection Hit as <-. repeat split.
Defined.

Lemma concat_slices {A} (bs k : nat) (l : list A) :
  0 < bs → length l ≤ k * bs →
  concat (map (fun i => take bs (drop (i * bs) l)) (seq 0 k)) = l.
Proof.
  intros Hbs. revert l. induction k as [|k IH]; intros l Hl.
  - destruct l; [reflexivity|simpl in Hl; lia].
  - rewrite <- cons_seq, <- fmap_S_seq. simpl.
    transitivity (take bs l ++ drop bs l); [|apply take_drop].
    f_equal. rewrite map_map.
    etransitivity; [|apply (IH (drop bs l)); rewrite length_drop; lia].
    f_equal. apply map_ext. intros i.
    rewrite drop_drop. replace (S i * bs) with (bs + i * bs) by lia.
    reflexivity.
Qed.

Lemma ceil_div_covers (n bs : nat) : 0 < bs → n ≤ (n + bs - 1) / bs * bs.
Proof.
  intros Hbs. pose proof (Nat.div_mod_eq (n + bs - 1) bs) as Hd.
  pose proof (Nat.mod_upper_bound (n + bs - 1) bs ltac:(lia)). nia.
Qed.

(** The baseline loss is computed on consecutive slices of at most
    [batch_size] snippets, none of them empty, which together are the
    snippets of the dataset in their order: nothing is shuffled, skipped or
    scored twice; the cached tensor is the concatenation of what the model
    returned on each slice. *)
Theorem baseline_batches_partition (m : tensor2 Z → result (tensor2 Q))
    (toks : tensor2 Z) (bs : nat) (nl : tensor2 Q) :
  cache_normal_loss m toks bs = Ok nl →
  0 < bs
  ∧ ∃ outs,
      Forall2 (fun i o => m (slice_rows (i * bs) bs toks) = Ok o)
              (seq 0 ((nrows toks + bs - 1) / bs)) outs
      ∧ concat (map (fun i => rows (slice_rows (i * bs) bs toks))
                    (seq 0 ((nrows toks + bs - 1) / bs))) = rows toks
      ∧ (∀ i, i < (nrows toks + bs - 1) / bs →
              0 < nrows (slice_rows (i * bs) bs toks) ≤ bs)
      ∧ rows nl = concat (map rows outs).
Proof.
  intros Hc.
  apply cache_normal_loss_ok in Hc
    as (_ & starts & outs & Hs & Houts & Hrows & _ & _).
  unfold py_range_from0 in Hs.
  destruct (Nat.eqb_spec bs 0) as [|Hbs]; [discriminate|].
  injection Hs as <-. split; [lia|]. exists outs. split; [|split; [|split]].
  - apply Forall2_fmap_l in Houts. exact Houts.
  - apply concat_slices; [lia|]. apply ceil_div_covers. lia.
  - intros i Hi. unfold nrows, slice_rows. simpl.
    rewrite length_take, length_drop.
    pose proof (CorpusFacts.ceil_div_bound (nrows toks) bs i ltac:(lia) Hi).
    unfold nrows in *. lia.
  - exact Hrows.
Qed.

Lemma baseline_batches_partition_witness :
  ∃ nl, cache_normal_loss Toy.unit_loss_model
          (Tensor2 2 [[1; 2]; [3; 4]; [5; 6]]%Z) 2 = Ok nl
        ∧ nrows nl = 3.
Proof.
  eexists. split; [vm_compute; reflexivity|].
  destruct (baseline_batches_partition Toy.unit_loss_model
              (Tensor2 2 [[1; 2]; [3; 4]; [5; 6]]%Z) 2
              (Tensor2 2 [[1; 1]; [1; 1]; [1; 1]]%Q))
    as (_ & outs & _ & _ & _ & Hrows); [vm_compute; reflexivity|].
  reflexivity.
Defined.

(** When no label has a snippet (for instance when every label has exactly
    [context_len] tokens), a dataset cannot be constructed with a model:
    there is no batch to score and the concatenation of the empty list of
    losses raises. *)
Theorem init_without_snippets_raises (tbl : list (string * tensor2 Z))
    (al : list string) (ol : option (list string))
    (m : tensor2 Z → result (tensor2 Q)) (bs : nat) :
  Forall (fun e => nrows (snd e) = 0) tbl →
  is_ok (init tbl al ol (Some m) bs) = false.
Proof.
  intros Hempty.
  destruct (init tbl al ol (Some m) bs) as [ds|] eqn:Hinit; [|reflexivity].
  exfalso.
  destruct (init_tokens_aligned _ _ _ _ _ _ Hinit) as [Hrows _].
  apply init_sizes in Hinit as (_ & nl & _ & Hc & _).
  assert (nrows (tokens ds) = 0) as Hz.
  { unfold nrows. rewrite Hrows. clear -Hempty.
    induction Hempty as [|e tbl He _ IH]; [reflexivity|].
    simpl. rewrite length_app, IH. unfold nrows in He. lia. }
  apply cache_normal_loss_ok in Hc
    as (_ & starts & outs & Hs & Houts & _ & _ & Hne).
  unfold py_range_from0 in Hs. rewrite Hz in Hs.
  destruct (Nat.eqb_spec bs 0) as [|Hbs]; [discriminate|].
  replace ((0 + bs - 1) / bs) with 0 in Hs
    by (symmetry; apply Nat.div_small; lia).
  injection Hs as <-. inversion Houts. congruence.
Qed.

Lemma init_without_snippets_raises_witness :
  init [("A"%string, Tensor2 4 [])] ["A"%string] None
       (Some Toy.unit_loss_model) 2 = Raise RuntimeError
  ∧ is_ok (init [("A"%string, Tensor2 4 [])] ["A"%string] None
             (Some Toy.unit_loss_model) 2) = false.
Proof.
  split; [reflexivity|].
  apply (init_without_snippets_raises [("A"%string, Tensor2 4 [])]).
  repeat constructor.
Defined.

Lemma token_snippets_wf (toks : list Z) (L S : nat) (t : tensor2 Z) :
  Corpus.token_snippets toks L S = Ok t → wf2 t ∧ ncols t = L.
Proof.
  intros Ht.
  assert (0 < S ∧ L ≤ length toks) as [HS HL].
  { unfold Corpus.token_snippets, Corpus.arange_from0 in Ht.
    destruct (Nat.eqb_spec S 0); [discriminate|].
    destruct (Z.ltb_spec (Z.of_nat (length toks) - Z.of_nat L) 0);
      [discriminate|]. lia. }
  rewrite (CorpusFacts.token_snippets_windows toks L S HS HL) in Ht.
  injection Ht as <-. split; [|reflexivity].
  unfold wf2. simpl. apply Forall_fmap, Forall_forall. intros i Hi. simpl.
  apply elem_of_seq in Hi as [_ Hi].
  pose proof (CorpusFacts.ceil_div_bound (length toks - L) S i HS Hi).
  rewrite length_take, length_drop. lia.
Qed.

Lemma column0_ok {A} (t : tensor2 A) :
  wf2 t → 0 < ncols t → ∃ col, column0 t = Ok col.
Proof.
  unfold column0, wf2. intros Hwf Hpos.
  destruct (Nat.eqb_spec (ncols t) 0); [lia|].
  induction Hwf as [|r rs Hr _ [col IH]]; simpl; [eauto|].
  destruct r as [|a r]; [simpl in Hr; lia|]. simpl. rewrite IH. simpl. eauto.
Qed.

Lemma init_without_model_ok (tbl : list (string * tensor2 Z))
    (al : list string) (ol : option (list string)) (bs L : nat) :
  tbl ≠ [] → 0 < L →
  Forall (fun e => wf2 (snd e) ∧ ncols (snd e) = L) tbl →
  ∃ ds, init tbl al ol None bs = Ok ds
        ∧ ncols (tokens ds) = L
        ∧ normal_loss ds = None.
Proof.
  intros Hne HL Hall. unfold init.
  rewrite (traverse_map_ok _
             (fun e => replicate (nrows (snd e)) (aligned_val al ol (fst e)))).
  2: { intros [l t] He. rewrite Forall_forall in Hall.
       destruct (Hall _ He) as [Hwf Hc]. simpl in *.
       destruct (column0_ok t Hwf ltac:(lia)) as [col Hcol].
       unfold full_like_column0. rewrite Hcol. simpl.
       rewrite map_const_replicate, (column0_length _ _ Hcol). reflexivity. }
  cbn [rbind].
  destruct tbl as [|[l0 t0] tbl]; [congruence|].
  unfold concat_rows. cbn [map snd].
  assert (forallb (fun t => ncols t =? ncols t0) (t0 :: map snd tbl) = true)
    as ->.
  { apply forallb_forall. intros t Ht. apply Nat.eqb_eq.
    rewrite Forall_forall in Hall.
    assert (ncols t0 = L) as -> by (apply (Hall (l0, t0)); left).
    destruct Ht as [<-|Ht]; [apply (Hall (l0, t0)); left|].
    apply in_map_iff in Ht as (e & <- & He).
    apply (Hall e). apply list_elem_of_In. right. exact He. }
  cbn [rbind concat_vecs map].
  match goal with
  | |- context [negb (?a =? ?b)] =>
      assert (a = b) as Hlen; [|rewrite Hlen, Nat.eqb_refl]
  end.
  { unfold nrows. cbn [rows]. rewrite !length_concat. f_equal.
    cbn [map]. f_equal.
    - cbn. rewrite length_replicate. reflexivity.
    - rewrite !map_map. apply map_ext. intros e. cbn.
      rewrite length_replicate. reflexivity. }
  simpl. eexists. split; [reflexivity|]. simpl.
  rewrite Forall_forall in Hall.
  split; [apply (Hall (l0, t0)); left|reflexivity].
Qed.

(** The token batches that [corpus_to_token_batches] returns for texts with
    at least one row always make a dataset (without a model) when
    [context_len] is positive, of as many snippets as the labels have
    together; with [context_len = 0] the construction raises
    [IndexError], the tensors having no column to read the tags from. *)
Theorem corpus_feeds_dataset (to_tokens : string → list Z) (eos : string)
    (texts : list Corpus.row) (L S : nat) (tbl : list (string * tensor2 Z))
    (al : list string) (ol : option (list string)) (bs : nat) :
  Corpus.corpus_to_token_batches to_tokens eos texts L S = Ok tbl →
  texts ≠ [] →
  (0 < L →
   ∃ ds, init tbl al ol None bs = Ok ds
         ∧ ncols (tokens ds) = L
         ∧ len ds = sum_list (map (fun e => nrows (snd e)) tbl))
  ∧ (L = 0 → init tbl al ol None bs = Raise IndexError).
Proof.
  intros Hc Htexts.
  pose proof (CorpusFacts.corpus_to_token_batches_labels _ _ _ _ _ _ Hc) as Hl.
  assert (Forall (fun e => wf2 (snd e) ∧ ncols (snd e) = L) tbl) as Hall.
  { clear -Hl. induction Hl as [|g e gs es [_ Ht] _ IH]; constructor.
    - eapply token_snippets_wf, Ht.
    - exact IH. }
  assert (tbl ≠ []) as Hne.
  { intros ->. inversion Hl as [Hg|]. symmetry in Hg.
    unfold Corpus.grouped_texts in Hg. apply map_eq_nil in Hg.
    destruct texts as [|r texts]; [congruence|].
    unfold Corpus.group_keys in Hg. simpl in Hg.
    assert (Corpus.label r ∈ @nil string) as Hin; [|inversion Hin].
    rewrite <- Hg. apply CorpusMore.elem_of_insert_key. left. reflexivity. }
  split.
  - intros HL.
    destruct (init_without_model_ok tbl al ol bs L Hne HL Hall)
      as (ds & Hds & Hcols & _).
    exists ds. split; [exact Hds|]. split; [exact Hcols|].
    destruct (init_tokens_aligned _ _ _ _ _ _ Hds) as [Hrows _].
    unfold len, nrows. rewrite Hrows, length_concat, map_map. reflexivity.
  - intros ->. unfold init. destruct tbl as [|[l t] tbl]; [congruence|].
    simpl. inversion Hall as [|? ? [_ Hcol] _]; subst. simpl in Hcol.
    unfold full_like_column0, column0. rewrite Hcol. reflexivity.
Qed.

Lemma corpus_feeds_dataset_witness :
  ∃ tbl ds,
    Corpus.corpus_to_token_batches Toy.char_tokens "|" Toy.texts_AB 4 2
    = Ok tbl
    ∧ init tbl ["A"%string] (Some ["B"%string]) None 10 = Ok ds
    ∧ len ds = 4 ∧ aligned ds = [1; 1; 1; -1]%Z.
Proof.
  destruct (corpus_feeds_dataset Toy.char_tokens "|" Toy.texts_AB 4 2
              ltac:(let t := eval vm_compute in
                      (match Corpus.corpus_to_token_batches Toy.char_tokens
                               "|" Toy.texts_AB 4 2 with
                       | Ok t => t | Raise _ => [] end) in exact t)
              ["A"%string] (Some ["B"%string]) 10)
    as [Hok _].
  - vm_compute. reflexivity.
  - discriminate.
  - destruct Hok as (ds & Hds & _ & Hlen); [lia|].
    eexists. exists ds. split; [vm_compute; reflexivity|].
    split; [exact Hds|]. vm_compute in Hds. injection Hds as <-.
    split; reflexivity.
Defined.

Lemma aligned_val_swap (al ol : list string) (l : string) :
  (∀ x, x ∈ al → x ∉ ol) →
  aligned_val ol (Some al) l = (- aligned_val al (Some ol) l)%Z.
Proof.
  intros Hdisj. unfold aligned_val.
  destruct (py_in l al) eqn:Hal, (py_in l ol) eqn:Hol; try reflexivity.
  apply py_in_spec in Hal, Hol. destruct (Hdisj l Hal Hol).
Qed.

Lemma traverse_negated {A} (f g : A → result (list Z)) (l : list A) :
  (∀ x, g x = let? b := f x in Ok (map Z.opp b)) →
  traverse g l = let? bs := traverse f l in Ok (map (map Z.opp) bs).
Proof.
  intros Hfg. induction l as [|x l IH]; simpl; [reflexivity|].
  rewrite Hfg, IH. destruct (f x); simpl; [|reflexivity].
  destruct (traverse f l); reflexivity.
Qed.

(** Exchanging the aligned and the opposed labels, when no label is both,
    negates every tag and changes nothing else: the same snippets, the same
    baseline loss, and the same exception when the construction fails. *)
Theorem swapped_labels_negate_tags (tbl : list (string * tensor2 Z))
    (al ol : list string) (model : option (tensor2 Z → result (tensor2 Q)))
    (bs : nat) :
  (∀ l, l ∈ al → l ∉ ol) →
  init tbl ol (Some al) model bs
  = let? ds := init tbl al (Some ol) model bs in
    Ok (Make (tokens ds) (map Z.opp (aligned ds)) (normal_loss ds)).
Proof.
  intros Hdisj. unfold init.
  rewrite (traverse_negated
             (fun '(l, toks) =>
                full_like_column0 toks (aligned_val al (Some ol) l))).
  2: { intros [l toks]. rewrite (aligned_val_swap al ol l Hdisj).
       unfold full_like_column0. destruct (column0 toks); simpl;
         [|reflexivity].
       rewrite map_map. reflexivity. }
  destruct (traverse _ tbl) as [blocks|e]; simpl; [|reflexivity].
  destruct (concat_rows (map snd tbl)) as [toks|e]; simpl; [|reflexivity].
  assert (concat_vecs (map (map Z.opp) blocks)
          = let? alv := concat_vecs blocks in Ok (map Z.opp alv)) as ->.
  { destruct blocks as [|b blocks]; [reflexivity|].
    simpl. rewrite map_app, concat_map. reflexivity. }
  destruct (concat_vecs blocks) as [alv|e]; simpl; [|reflexivity].
  rewrite length_map.
  destruct (nrows toks =? length alv); simpl; [|reflexivity].
  destruct model as [m|]; [|reflexivity].
  destruct (cache_normal_loss m toks bs); reflexivity.
Qed.

Lemma swapped_labels_negate_tags_witness :
  init Toy.tokens_AB ["A"%string] (Some ["B"%string]) None 2
  = Ok (Make (Tensor2 2 [[1; 2]; [3; 4]; [5; 6]]%Z) [1; 1; -1]%Z None)
  ∧ init Toy.tokens_AB ["B"%string] (Some ["A"%string]) None 2
    = Ok (Make (Tensor2 2 [[1; 2]; [3; 4]; [5; 6]]%Z) [-1; -1; 1]%Z None).
Proof.
  split; [reflexivity|].
  rewrite (swapped_labels_negate_tags Toy.tokens_AB ["A"%string]
             ["B"%string] None 2).
  - reflexivity.
  - intros l Hl Hl'. apply list_elem_of_In in Hl, Hl'. simpl in Hl, Hl'.
    destruct Hl as [<-|[]]. destruct Hl' as [[=]|[]].
Defined.

End DatasetMore.

(** ** Mini-batches *)

Module LoaderMore.
Import Loader LoaderFacts.

Lemma batch_indices_concat (bs : nat) (cur perm : list nat) :
  length cur < bs →
  concat (batch_indices bs cur perm) = cur ++ perm.
Proof.
  revert cur. induction perm as [|x perm IH]; intros cur Hcur; simpl.
  - destruct cur; simpl; rewrite ?app_nil_r; reflexivity.
  - assert (length (cur ++ [x]) = S (length cur)) as Hlen.
    { rewrite length_app. simpl. lia. }
    destruct (Nat.eqb_spec (length (cur ++ [x])) bs) as [Heq|Hne].
    + simpl. rewrite IH by (simpl; lia). simpl. rewrite <- app_assoc. reflexivity.
    + rewrite IH by (simpl; lia). rewrite <- app_assoc. reflexivity.
Qed.

Lemma batch_indices_count (bs : nat) (cur perm : list nat) :
  length cur < bs →
  length (batch_indices bs cur perm)
  = (length cur + length perm + bs - 1) / bs.
Proof.
  revert cur. induction perm as [|x perm IH]; intros cur Hcur; simpl.
  - rewrite Nat.add_0_r. destruct cur as [|c cur].
    + simpl. symmetry. apply Nat.div_small. simpl in Hcur. lia.
    + change (1 = (length (c :: cur) + bs - 1) / bs).
      remember (length (c :: cur)) as n eqn:Hn.
      assert (0 < n) by (subst n; simpl; lia).
      apply (Nat.div_unique _ _ _ (n - 1)); lia.
  - assert (length (cur ++ [x]) = S (length cur)) as Hlen.
    { rewrite length_app. simpl. lia. }
    destruct (Nat.eqb_spec (length (cur ++ [x])) bs) as [Heq|Hne].
    + simpl. rewrite IH by (simpl; lia). simpl.
      replace (length cur + S (length perm) + bs - 1)
        with (1 * bs + (length perm + bs - 1)) by lia.
      rewrite Nat.div_add_l by lia. reflexivity.
    + rewrite IH by (simpl; lia). f_equal. lia.
Qed.

(** One pass of the loader over the order [perm] drawn by the sampler: the
    mini-batches, one after the other, are [perm] itself, so each sampled
    index is in one mini-batch only; there are [ceil(n / batch_size)] of
    them, all of [batch_size] indices except possibly the last, which is
    not empty. *)
Theorem epoch_batches_cover (bs : nat) (perm : list nat) :
  0 < bs →
  concat (epoch_batches bs perm) = perm
  ∧ length (epoch_batches bs perm) = (length perm + bs - 1) / bs
  ∧ ∃ full rest,
      epoch_batches bs perm = full ++ rest
      ∧ Forall (fun g => length g = bs) full
      ∧ (rest = [] ∨ ∃ g, rest = [g] ∧ 0 < length g < bs).
Proof.
  intros Hbs. unfold epoch_batches. split; [|split].
  - apply (batch_indices_concat bs [] perm). simpl. lia.
  - apply (batch_indices_count bs [] perm). simpl. lia.
  - apply batch_indices_shape; simpl; lia.
Qed.

Lemma epoch_batches_cover_witness :
  concat (epoch_batches 2 [4; 0; 3; 1; 2]) = [4; 0; 3; 1; 2]
  ∧ length (epoch_batches 2 [4; 0; 3; 1; 2]) = 3.
Proof.
  destruct (epoch_batches_cover 2 [4; 0; 3; 1; 2]) as (Hc & Hl & _); [lia|].
  split; [exact Hc|exact Hl].
Defined.

Lemma getitem_raises_index_error (d : Dataset.t) (i : nat) (e : exn) :
  Dataset.getitem d i = Raise e → e = IndexError.
Proof.
  unfold Dataset.getitem, Dataset.lookup_or_raise.
  destruct (rows (Dataset.tokens d) !! i); simpl; [|congruence].
  destruct (Dataset.aligned d !! i); simpl; [|congruence].
  destruct (Dataset.normal_loss d) as [nl|]; [|discriminate].
  destruct (rows nl !! i); simpl; [discriminate|congruence].
Qed.

(** Collation keeps the fields of a snippet together. For a constructed
    dataset and indices below its length, the mini-batch is fetched, and
    its row [k] holds the tokens, the tag and (when cached) the baseline
    loss of the snippet whose index is number [k] of the group. An index
    from [len] on makes the fetch raise [IndexError]. *)
Theorem fetch_rows_aligned tbl al ol model bs (ds : Dataset.t)
    (idxs : list nat) :
  Dataset.init tbl al ol model bs = Ok ds →
  (Forall (fun i => i < Dataset.len ds) idxs →
   ∃ b, fetch ds idxs = Ok b
        ∧ ncols (batch_tokens b) = ncols (Dataset.tokens ds)
        ∧ ∀ k i, idxs !! k = Some i →
            rows (batch_tokens b) !! k = rows (Dataset.tokens ds) !! i
            ∧ batch_aligned b !! k = Dataset.aligned ds !! i
            ∧ ∀ nl, Dataset.normal_loss ds = Some nl →
                ∃ bnl, batch_normal_loss b = Some bnl
                       ∧ rows bnl !! k = rows nl !! i)
  ∧ (Exists (fun i => Dataset.len ds ≤ i) idxs →
     fetch ds idxs = Raise IndexError).
Proof.
  intros Hinit. pose proof (DatasetMore.init_sizes _ _ _ _ _ _ Hinit)
    as [Hal Hnl].
  assert (∀ i, i < Dataset.len ds → ∃ it, Dataset.getitem ds i = Ok it)
    as Htotal.
  { intros i Hi. unfold Dataset.getitem, Dataset.lookup_or_raise,
      Dataset.len, nrows in *.
    destruct (lookup_lt_is_Some_2 (rows (Dataset.tokens ds)) i Hi) as [t ->].
    destruct (lookup_lt_is_Some_2 (Dataset.aligned ds) i ltac:(lia)) as [a ->].
    simpl. destruct model as [m|].
    - destruct Hnl as (nl & -> & _ & Hn).
      destruct (lookup_lt_is_Some_2 (rows nl) i ltac:(lia)) as [r ->].
      simpl. eauto.
    - rewrite Hnl. eauto. }
  split.
  - intros Hall. unfold fetch.
    destruct (traverse (Dataset.getitem ds) idxs) as [items|e] eqn:Ht.
    2: { apply traverse_raise_inv in Ht as (i & Hi & Hr).
         rewrite Forall_forall in Hall. destruct (Htotal i (Hall i Hi)) as [it Hit].
         congruence. }
    simpl. eexists. split; [reflexivity|]. split; [reflexivity|].
    apply traverse_Forall2 in Ht. intros k i Hk.
    destruct (Forall2_lookup_l _ _ _ _ _ Ht Hk) as (it & Hit & Hget).
    apply getitem_fields in Hget as (Htok & Htag & Hbase).
    unfold collate. simpl. rewrite !list_lookup_fmap, Hit. simpl.
    split; [symmetry; exact Htok|]. split; [symmetry; exact Htag|].
    intros nl Hds. rewrite Hds in *. eexists. split; [reflexivity|]. simpl.
    destruct Hbase as (r & Hr & Hitem). rewrite Hr.
    (* every item has its baseline row: the flattening is a map *)
    assert (flat_map (fun it => match Dataset.item_normal_loss it with
                                | Some r => [r]
                                | None => []
                                end) items
            = map (fun it => default [] (Dataset.item_normal_loss it)) items)
      as ->.
    { clear -Ht Hds. induction Ht as [|j it' js its Hj _ IH]; [reflexivity|].
      simpl. apply getitem_fields in Hj as (_ & _ & Hb). rewrite Hds in Hb.
      destruct Hb as (r' & _ & ->). simpl. f_equal. exact IH. }
    rewrite list_lookup_fmap, Hit. simpl. rewrite Hitem. reflexivity.
  - intros Hex. unfold fetch.
    destruct (traverse (Dataset.getitem ds) idxs) as [items|e] eqn:Ht.
    + exfalso. apply traverse_Forall2 in Ht.
      apply Exists_exists in Hex as (i & Hi & Hge).
      apply list_elem_of_lookup in Hi as [k Hk].
      destruct (Forall2_lookup_l _ _ _ _ _ Ht Hk) as (it & _ & Hget).
      apply getitem_fields in Hget as (Htok & _).
      apply lookup_lt_Some in Htok. unfold Dataset.len, nrows in Hge. lia.
    + simpl. apply traverse_raise_inv in Ht as (i & _ & Hr).
      apply getitem_raises_index_error in Hr. congruence.
Qed.

Lemma fetch_rows_aligned_witness :
  ∃ b, fetch Toy.dataset_AB [2; 0] = Ok b
       ∧ rows (batch_tokens b) = [[5; 6]; [1; 2]]%Z
       ∧ batch_aligned b = [-1; 1]%Z
       ∧ fetch Toy.dataset_AB [0; 3] = Raise IndexError.
Proof.
  destruct (fetch_rows_aligned Toy.tokens_AB ["A"%string] (Some ["B"%string])
              (Some Toy.unit_loss_model) 2 Toy.dataset_AB [2; 0])
    as [Hok _]; [reflexivity|].
  destruct Hok as (b & Hb & _).
  { repeat constructor. }
  exists b. split; [exact Hb|].
  vm_compute in Hb. injection Hb as <-.
  split; [reflexivity|]. split; [reflexivity|].
  apply (fetch_rows_aligned Toy.tokens_AB ["A"%string] (Some ["B"%string])
           (Some Toy.unit_loss_model) 2 Toy.dataset_AB [0; 3]);
    [reflexivity|].
  right. left. unfold Dataset.len, nrows. simpl. lia.
Defined.

End LoaderMore.

(** ** The loss *)

Module LossMore.
Import Loss LossFacts.







Lemma Qabs_Qsum (l : list Q) : (Qabs (Qsum l) <= Qsum (map Qabs l))%Q.
Proof.
  induction l as [|x l IH]; simpl.
  - discriminate.
  - eapply Qle_trans; [apply Qabs_triangle|].
    apply Qplus_le_r. exact IH.
Qed.

Lemma concat_map_map {A B} (f : A → B) (ls : list (list A)) :
  concat (map (map f) ls) = map f (concat ls).
Proof.
  induction ls as [|l ls IH]; simpl; [reflexivity|].
  rewrite map_app, IH. reflexivity.
Qed.

(** The two neutral penalties, for a non-negative [neutral_loss_beta]:
    both are non-negative, and the penalty of ["abs_of_mean"] is at most
    the penalty of the other method. *)
Theorem neutral_penalties_ordered (beta : Q) (rel : tensor2 Q)
    (aligned : list Z) :
  (0 <= beta)%Q → length aligned = nrows rel →
  ∃ p q, neutral_term "abs_of_mean" beta rel aligned = Ok p
         ∧ neutral_term "mean_of_abs" beta rel aligned = Ok q
         ∧ (0 <= p)%Q ∧ (p <= q)%Q.
Proof.
  intros Hbeta Hal. unfold neutral_term.
  rewrite select_rows_ok by exact Hal. simpl.
  do 2 eexists. split; [reflexivity|]. split; [reflexivity|].
  unfold tensor_sum, tensor_abs. simpl. rewrite concat_map_map. split.
  - apply Qmult_le_0_compat; [exact Hbeta|apply Qabs_nonneg].
  - rewrite !(Qmult_comm beta).
    apply Qmult_le_compat_r; [apply Qabs_Qsum|exact Hbeta].
Qed.

Lemma neutral_penalties_ordered_witness :
  ∃ p q, neutral_term "abs_of_mean" 1 (Tensor2 2 [[1; -3]; [5; 5]]%Q)
           [0; 1]%Z = Ok p
         ∧ neutral_term "mean_of_abs" 1 (Tensor2 2 [[1; -3]; [5; 5]]%Q)
             [0; 1]%Z = Ok q
         ∧ (0 <= p)%Q ∧ (p <= q)%Q.
Proof.
  apply (neutral_penalties_ordered 1 (Tensor2 2 [[1; -3]; [5; 5]]%Q)
           [0; 1]%Z).
  - discriminate.
  - reflexivity.
Defined.

Lemma spec_sum_where_opp (v : Z) (aligned : list Z) (rel : list (list Q)) :
  spec_sum_where v (map Z.opp aligned) rel
  = spec_sum_where (- v) aligned rel.
Proof.
  revert rel. induction aligned as [|a aligned IH]; intros [|r rel]; simpl;
    try reflexivity.
  rewrite IH. replace (- a =? v)%Z with (a =? - v)%Z; [reflexivity|].
  destruct (Z.eqb_spec a (- v)), (Z.eqb_spec (- a) v); try reflexivity; lia.
Qed.

(** Negating every tag of a mini-batch (aligned snippets become opposed
    and opposed ones aligned) exchanges the aligned and the opposed term
    with their signs flipped and leaves the neutral term as it is. *)
Theorem negated_tags_flip_loss (method : string) (beta : Q)
    (rel : tensor2 Q) (aligned : list Z) :
  length aligned = nrows rel →
  ∃ a o n a' o' n',
    aligned_term rel aligned = Ok a
    ∧ opposed_term rel aligned = Ok o
    ∧ neutral_term method beta rel aligned = Ok n
    ∧ aligned_term rel (map Z.opp aligned) = Ok a'
    ∧ opposed_term rel (map Z.opp aligned) = Ok o'
    ∧ neutral_term method beta rel (map Z.opp aligned) = Ok n'
    ∧ (a' == - o)%Q ∧ (o' == - a)%Q ∧ (n' == n)%Q.
Proof.
  intros Hal.
  destruct (three_part_loss_ok method beta rel aligned Hal)
    as (a & o & n & Ha & Ho & Hn & _ & Hae & Hoe & Hne).
  destruct (three_part_loss_ok method beta rel (map Z.opp aligned))
    as (a' & o' & n' & Ha' & Ho' & Hn' & _ & Hae' & Hoe' & Hne');
    [rewrite length_map; exact Hal|].
  exists a, o, n, a', o', n'. repeat (split; [assumption|]).
  rewrite Hae', Hoe', Hne', Hae, Hoe, Hne.
  unfold spec_neutral_penalty. rewrite !spec_sum_where_opp.
  change (- (1))%Z with (-1)%Z. change (- (-1))%Z with 1%Z.
  change (- 0)%Z with 0%Z.
  repeat split; try reflexivity. rewrite Qopp_involutive. reflexivity.
Qed.

Lemma negated_tags_flip_loss_witness :
  ∃ a o n a' o' n',
    aligned_term (Tensor2 1 [[2]; [3]; [5]]%Q) [1; -1; 0]%Z = Ok a
    ∧ opposed_term (Tensor2 1 [[2]; [3]; [5]]%Q) [1; -1; 0]%Z = Ok o
    ∧ neutral_term "abs_of_mean" 1 (Tensor2 1 [[2]; [3]; [5]]%Q)
        [1; -1; 0]%Z = Ok n
    ∧ aligned_term (Tensor2 1 [[2]; [3]; [5]]%Q)
        (map Z.opp [1; -1; 0]%Z) = Ok a'
    ∧ opposed_term (Tensor2 1 [[2]; [3]; [5]]%Q)
        (map Z.opp [1; -1; 0]%Z) = Ok o'
    ∧ neutral_term "abs_of_mean" 1 (Tensor2 1 [[2]; [3]; [5]]%Q)
        (map Z.opp [1; -1; 0]%Z) = Ok n'
    ∧ (a' == - o)%Q ∧ (o' == - a)%Q ∧ (n' == n)%Q.
Proof.
  apply (negated_tags_flip_loss "abs_of_mean" 1
           (Tensor2 1 [[2]; [3]; [5]]%Q) [1; -1; 0]%Z).
  reflexivity.
Defined.

Lemma spec_sum_where_perm (v : Z) (ps qs : list (Z * list Q)) :
  Permutation ps qs →
  (spec_sum_where v (map fst ps) (map snd ps)
   == spec_sum_where v (map fst qs) (map snd qs))%Q.
Proof.
  induction 1 as [|[a r] ps qs _ IH|[a r] [b t] ps|ps qs rs _ IH1 _ IH2];
    simpl.
  - reflexivity.
  - rewrite IH. reflexivity.
  - ring.
  - rewrite IH1. exact IH2.
Qed.

(** In exact arithmetic the three-part loss does not depend on the order
    of the snippets in the mini-batch: the same snippets with their tags,
    in another order, give the same loss. *)
Theorem loss_row_order_irrelevant (method : string) (beta : Q) (c : nat)
    (ps qs : list (Z * list Q)) :
  Permutation ps qs →
  ∃ x y,
    three_part_loss method beta (Tensor2 c (map snd ps)) (map fst ps) = Ok x
    ∧ three_part_loss method beta (Tensor2 c (map snd qs)) (map fst qs)
      = Ok y
    ∧ (x == y)%Q.
Proof.
  intros Hperm.
  destruct (three_part_loss_ok method beta (Tensor2 c (map snd ps))
              (map fst ps))
    as (a & o & n & _ & _ & _ & Hx & Ha & Ho & Hn);
    [unfold nrows; simpl; rewrite !length_map; reflexivity|].
  destruct (three_part_loss_ok method beta (Tensor2 c (map snd qs))
              (map fst qs))
    as (a' & o' & n' & _ & _ & _ & Hy & Ha' & Ho' & Hn');
    [unfold nrows; simpl; rewrite !length_map; reflexivity|].
  do 2 eexists. split; [exact Hx|]. split; [exact Hy|].
  simpl rows in *.
  assert (Permutation (map (fun p => (fst p, map Qabs (snd p))) ps)
                      (map (fun p => (fst p, map Qabs (snd p))) qs))
    as Habs by (apply Permutation_map; exact Hperm).
  pose proof (spec_sum_where_perm 0 _ _ Habs) as H0abs.
  rewrite !map_map in H0abs. simpl in H0abs.
  rewrite <- !(map_map snd (map Qabs)) in H0abs.
  rewrite Ha, Ho, Hn, Ha', Ho', Hn'. unfold spec_neutral_penalty.
  rewrite (spec_sum_where_perm 1 ps qs Hperm),
    (spec_sum_where_perm (-1) ps qs Hperm).
  destruct (String.eqb method "abs_of_mean").
  - rewrite (spec_sum_where_perm 0 ps qs Hperm). reflexivity.
  - rewrite H0abs. reflexivity.
Qed.

Lemma loss_row_order_irrelevant_witness :
  ∃ x y,
    three_part_loss "mean_of_abs" 1 (Tensor2 1 [[2]; [3]; [5]]%Q)
      [1; -1; 0]%Z = Ok x
    ∧ three_part_loss "mean_of_abs" 1 (Tensor2 1 [[3]; [2]; [5]]%Q)
        [-1; 1; 0]%Z = Ok y
    ∧ (x == y)%Q.
Proof.
  apply (loss_row_order_irrelevant "mean_of_abs" 1 1
           [(1%Z, [2%Q]); ((-1)%Z, [3%Q]); (0%Z, [5%Q])]
           [((-1)%Z, [3%Q]); (1%Z, [2%Q]); (0%Z, [5%Q])]).
  apply perm_swap.
Defined.

End LossMore.

(** ** The trainer *)

Module TrainMore.
Import Train TrainFacts.

Section More.
Context `{Collaborators}.

Lemma preserves_ret {A} R `{!Reflexive R} (a : A) : preserves R (ret a).
Proof. intros w w' r [= <- _]. reflexivity. Qed.

Lemma preserves_raise {A} R `{!Reflexive R} (e : exn) :
  preserves R (@raise _ A e).
Proof. intros w w' r [= <- _]. reflexivity. Qed.

Lemma preserves_lift {A} R `{!Reflexive R} (x : result A) :
  preserves R (lift x).
Proof. intros w w' r [= <- _]. reflexivity. Qed.

Lemma preserves_get R `{!Reflexive R} : preserves R get.
Proof. intros w w' r [= <- _]. reflexivity. Qed.

Lemma preserves_modify R (f : world → world) :
  (∀ w, R w (f w)) → preserves R (modify f).
Proof. intros Hf w w' r [= <- _]. apply Hf. Qed.

Lemma preserves_bind {A B} R `{!Transitive R} (c : M A) (k : A → M B) :
  preserves R c → (∀ a, preserves R (k a)) → preserves R (bind c k).
Proof.
  intros Hc Hk w w' r. unfold bind.
  destruct (c w) as [w1 [a|e]] eqn:Hcw.
  - intros Hk'. transitivity w1; [eapply Hc, Hcw|eapply Hk, Hk'].
  - intros [= <- _]. eapply Hc, Hcw.
Qed.

Lemma preserves_when R `{!Reflexive R} (b : bool) (c : M unit) :
  preserves R c → preserves R (when b c).
Proof. intros Hc. destruct b; [exact Hc|apply preserves_ret; assumption]. Qed.

Lemma preserves_for_each {A S} R `{!Reflexive R} `{!Transitive R}
    (xs : list A) (body : S → A → M S) (acc : S) :
  (∀ s x, preserves R (body s x)) → preserves R (for_each xs body acc).
Proof.
  intros Hbody. revert acc. induction xs as [|x xs IH]; intros acc; simpl.
  - apply preserves_ret; assumption.
  - apply preserves_bind; [assumption|apply Hbody|]. intros s. apply IH.
Qed.

#[local] Instance untouched_refl (a : args) : Reflexive (untouched a).
Proof. intros w. unfold untouched. auto 10. Qed.

#[local] Instance untouched_trans (a : args) : Transitive (untouched a).
Proof.
  intros w1 w2 w3 (Hg & Hs & Hf & Hw & Hp) (Hg' & Hs' & Hf' & Hw' & Hp').
  unfold untouched.
  split; [congruence|]. split; [congruence|]. split; [congruence|]. split.
  - intros Hno. destruct (Hw Hno) as (? & ? & ?), (Hw' Hno) as (? & ? & ?).
    repeat split; congruence.
  - intros Hno. rewrite (Hp' Hno). apply Hp, Hno.
Qed.

#[local] Instance same_passes_refl : Reflexive same_passes.
Proof. intros w. reflexivity. Qed.

#[local] Instance same_passes_trans : Transitive same_passes.
Proof. intros w1 w2 w3. unfold same_passes. congruence. Qed.

#[local] Instance same_saved_refl : Reflexive same_saved.
Proof. intros w. split; reflexivity. Qed.

#[local] Instance same_saved_trans : Transitive same_saved.
Proof. intros w1 w2 w3 [? ?] [? ?]. split; congruence. Qed.

#[local] Instance keeps_length_refl cell n : Reflexive (keeps_length cell n).
Proof. intros w Hw. exact Hw. Qed.

#[local] Instance keeps_length_trans cell n :
  Transitive (keeps_length cell n).
Proof. intros w1 w2 w3 H12 H23 Hw. apply H23, H12, Hw. Qed.

Lemma preserves_try_finally {A} R `{!Transitive R} (body : M A)
    (cleanup : world → world) :
  preserves R body → (∀ w, R w (cleanup w)) →
  preserves R (try_finally body cleanup).
Proof.
  intros Hb Hc w w' r. unfold try_finally.
  destruct (body w) as [w1 r1] eqn:Hbw. intros [= <- _].
  transitivity w1; [eapply Hb, Hbw|apply Hc].
Qed.

(** [with model.hooks(...)] keeps every relation that does not look at the
    registry and that its body keeps. *)
Lemma preserves_model_hooks {A} R `{!Reflexive R} `{!Transitive R}
    (fwd_hooks : list (string * closure)) (body : M A) :
  (∀ w hs lvl, R w (set_hooks hs lvl w)) →
  preserves R body → preserves R (model_hooks fwd_hooks body).
Proof.
  intros Hset Hbody. unfold model_hooks.
  apply preserves_try_finally; [assumption| |intros w; apply Hset].
  apply preserves_bind; [assumption|apply preserves_modify; intros w; apply Hset|].
  intros _. apply preserves_bind; [assumption| |intros _; exact Hbody].
  apply preserves_for_each; [assumption|assumption|].
  intros _ [name f] w w' r. unfold add_hook.
  destruct (hook_point name); intros [= <- _]; [apply Hset|reflexivity].
Qed.

(** The steps of [train], laid out. *)
Lemma train_inv (a : args) (w w' : world) (r : result nat) :
  train a w = (w', r) →
  match Dataset.init (tokens_by_label a) (aligned_labels a)
          (opposed_labels a) (Some (forward (hooks_in_force (params w) w)))
          (batch_size a) with
  | Raise e => w' = set_global_rng (manual_seed (seed a)) w ∧ r = Raise e
  | Ok dataset =>
      let w1 := set_params
                  (params w ++ [fst (randn d_model (manual_seed (seed a)))])
                  (set_global_rng
                     (snd (randn d_model (manual_seed (seed a)))) w) in
      if Nat.eqb (batch_size a) 0 then w' = w1 ∧ r = Raise ValueError
      else ∃ r3,
          model_hooks [(act_name a, steering_hook (length (params w)))]
            (for_each (seq 0 (num_epochs a))
               (train_epoch a dataset (length (params w)))
               (adamw_init, manual_seed (seed a))) w1 = (w', r3)
          ∧ r = match r3 with
                | Ok _ => Ok (length (params w))
                | Raise e => Raise e
                end
  end.
Proof.
  unfold train, bind at 1, modify, bind at 1, get, bind at 1, lift.
  change (hooks_in_force
            (params (set_global_rng (manual_seed (seed a)) w))
            (set_global_rng (manual_seed (seed a)) w))
    with (hooks_in_force (params w) w).
  destruct (Dataset.init _ _ _ _ _) as [dataset|e].
  2: { intros [= <- <-]. split; reflexivity. }
  simpl fst. simpl snd. cbv iota beta.
  change (global_rng (set_global_rng (manual_seed (seed a)) w))
    with (manual_seed (seed a)).
  destruct (randn d_model (manual_seed (seed a))) as [v g].
  unfold bind at 1. simpl fst. simpl snd.
  destruct (batch_size a =? 0).
  { unfold bind at 1, raise. intros [= <- <-]. split; reflexivity. }
  unfold bind at 1, ret at 1. unfold bind at 1.
  change (params (set_global_rng (manual_seed (seed a)) w)) with (params w).
  destruct (model_hooks _ _ _) as [w3 r3] eqn:Hm.
  intros Hr. exists r3. destruct r3 as [st|e]; injection Hr as <- <-;
    (split; [|reflexivity]).
  - rewrite <- Hm. reflexivity.
  - rewrite <- Hm. reflexivity.
Qed.

(** The steps of [learn_activation_addition], laid out. *)
Lemma learn_inv (a : args) (w w' : world) (r : result (list Q)) :
  learn_activation_addition a w = (w', r) →
  if Dataset.py_in (neutral_loss_method a)
       ["abs_of_mean"; "mean_of_abs"]%string
  then ∃ w1 rm,
      start_logging a w = (w1, rm)
      ∧ match rm with
        | Raise e => w' = w1 ∧ r = Raise e
        | Ok manager =>
            ∃ w2 rt,
              with_manager manager (train a) w1 = (w2, rt)
              ∧ match rt with
                | Raise e => w' = w2 ∧ r = Raise e
                | Ok cell =>
                    match manager with
                    | Some name =>
                        ∃ w3 rr,
                          shutil_rmtree name w2 = (w3, rr)
                          ∧ w' = w3
                          ∧ r = match rr with
                                | Ok _ => Dataset.lookup_or_raise
                                            (params w3) cell
                                | Raise e => Raise e
                                end
                    | None =>
                        w' = w2
                        ∧ r = Dataset.lookup_or_raise (params w2) cell
                    end
                end
        end
  else w' = w ∧ r = Raise AssertionError.
Proof.
  unfold learn_activation_addition, bind at 1.
  destruct (Dataset.py_in _ _).
  2: { unfold raise. intros [= <- <-]. split; reflexivity. }
  unfold ret at 1. unfold bind at 1.
  destruct (start_logging a w) as [w1 [manager|e]] eqn:Hs.
  2: { intros [= <- <-]. exists w1, (Raise e). auto. }
  intros Hrun. exists w1, (Ok manager). split; [reflexivity|].
  revert Hrun. unfold bind at 1.
  destruct (with_manager manager (train a) w1) as [w2 [cell|e]] eqn:Ht.
  2: { intros [= <- <-]. exists w2, (Raise e). auto. }
  intros Hrun. exists w2, (Ok cell). split; [reflexivity|].
  revert Hrun. unfold bind at 1. destruct manager as [name|].
  - destruct (shutil_rmtree name w2) as [w3 [[]|e]] eqn:Hr.
    + unfold bind, get, lift. intros [= <- <-]. exists w3, (Ok tt). auto.
    + intros [= <- <-]. exists w3, (Raise e). auto.
  - unfold ret at 1, bind, get, lift. intros [= <- <-]. auto.
Qed.

Lemma untouched_same (a : args) (w w' : world) :
  global_rng w' = global_rng w → wandb_started w' = wandb_started w →
  wandb_finished w' = wandb_finished w → files w' = files w →
  wandb_logged w' = wandb_logged w → wandb_saved w' = wandb_saved w →
  stdout w' = stdout w → untouched a w w'.
Proof. unfold untouched. auto 10. Qed.

Lemma train_batch_untouched a dataset cell epoch st idxs :
  preserves (untouched a) (train_batch a dataset cell epoch st idxs).
Proof.
  unfold train_batch. destruct st as [[opt epoch_loss] batch_cnt].
  apply preserves_bind; [apply _|apply preserves_lift, _|]. intros b.
  apply preserves_bind; [apply _|apply preserves_get, _|]. intros w0.
  apply preserves_bind; [apply _|apply preserves_lift, _|]. intros sv.
  apply preserves_bind; [apply _| |].
  { apply preserves_modify. intros w. apply untouched_same; reflexivity. }
  intros _.
  apply preserves_bind; [apply _|apply preserves_lift, _|]. intros loss.
  destruct (adamw_step _ _ _ _ _) as [sv' opt'].
  apply preserves_bind; [apply _| |].
  { apply preserves_modify. intros w. apply untouched_same; reflexivity. }
  intros _.
  apply preserves_bind; [apply _| |intros _; apply preserves_ret, _].
  unfold when. destruct (use_wandb a) eqn:Hw; [|apply preserves_ret, _].
  apply preserves_modify. intros w. unfold untouched. simpl.
  repeat split; try reflexivity; intros; congruence.
Qed.

Lemma save_checkpoint_untouched a cell epoch :
  use_wandb a = true → preserves (untouched a) (save_checkpoint cell epoch).
Proof.
  intros Hw w w' r Hrun.
  assert (global_rng w' = global_rng w ∧ wandb_started w' = wandb_started w
          ∧ wandb_finished w' = wandb_finished w ∧ stdout w' = stdout w)
    as (Hg & Hs & Hf & Ho).
  { revert Hrun. unfold save_checkpoint, bind, wandb_run_dot_name, get, lift,
      save_tensor, wandb_save, modify.
    destruct (wandb_active w) as [name|]; [|intros [= <- _]; auto].
    destruct (Dataset.lookup_or_raise (params w) cell);
      [|intros [= <- _]; auto].
    destruct (existsb _ _); intros [= <- _]; auto. }
  unfold untouched. repeat split; try assumption; intros; congruence.
Qed.

Lemma train_epoch_untouched a dataset cell st epoch :
  preserves (untouched a) (train_epoch a dataset cell st epoch).
Proof.
  unfold train_epoch. destruct st as [opt generator].
  destruct (randperm _ _) as [perm generator'].
  apply preserves_bind; [apply _| |].
  { apply preserves_for_each; [apply _|apply _|].
    intros. apply train_batch_untouched. }
  intros [[opt' epoch_loss] batch_cnt].
  apply preserves_bind; [apply _| |].
  { unfold when. destruct (do_print a) eqn:Hp; [|apply preserves_ret, _].
    apply preserves_bind; [apply _|apply preserves_lift, _|]. intros mean.
    apply preserves_modify. intros w. unfold untouched. simpl.
    repeat split; try reflexivity; intros; congruence. }
  intros _.
  apply preserves_bind; [apply _| |intros _; apply preserves_ret, _].
  unfold when. destruct (use_wandb a) eqn:Hw; [|apply preserves_ret, _].
  apply save_checkpoint_untouched. exact Hw.
Qed.

Lemma hooked_loop_untouched a dataset cell st :
  preserves (untouched a)
    (model_hooks [(act_name a, steering_hook cell)]
       (for_each (seq 0 (num_epochs a)) (train_epoch a dataset cell) st)).
Proof.
  apply preserves_model_hooks; [apply _|apply _| |].
  - intros w hs lvl. apply untouched_same; reflexivity.
  - apply preserves_for_each; [apply _|apply _|].
    intros. apply train_epoch_untouched.
Qed.

(** What [train] leaves behind besides the fields of [train_scoped]. *)
Lemma train_untouched (a : args) (w w' : world) (r : result nat) :
  train a w = (w', r) →
  wandb_started w' = wandb_started w
  ∧ wandb_finished w' = wandb_finished w
  ∧ (use_wandb a = false →
     files w' = files w ∧ wandb_logged w' = wandb_logged w
     ∧ wandb_saved w' = wandb_saved w)
  ∧ (do_print a = false → stdout w' = stdout w)
  ∧ global_rng w'
    = match Dataset.init (tokens_by_label a) (aligned_labels a)
              (opposed_labels a)
              (Some (forward (hooks_in_force (params w) w)))
              (batch_size a) with
      | Ok _ => snd (randn d_model (manual_seed (seed a)))
      | Raise _ => manual_seed (seed a)
      end.
Proof.
  intros Ht. apply train_inv in Ht.
  destruct (Dataset.init _ _ _ _ _) as [dataset|e].
  2: { destruct Ht as [-> _]. simpl. auto 10. }
  cbv zeta in Ht. destruct (batch_size a =? 0).
  { destruct Ht as [-> _]. simpl. auto 10. }
  destruct Ht as (r3 & Hm & _).
  apply hooked_loop_untouched in Hm as (Hg & Hs & Hf & Hw & Hp).
  simpl in *. auto 10.
Qed.

(** Without logging, [learn_activation_addition] touches neither the file
    system nor the logging backend, however it ends; and without printing
    it writes nothing to the output. *)
Theorem no_logging_no_traces (a : args) (w w' : world)
    (r : result (list Q)) :
  use_wandb a = false →
  learn_activation_addition a w = (w', r) →
  dirs w' = dirs w ∧ files w' = files w
  ∧ wandb_started w' = wandb_started w
  ∧ wandb_active w' = wandb_active w
  ∧ wandb_finished w' = wandb_finished w
  ∧ wandb_logged w' = wandb_logged w
  ∧ wandb_saved w' = wandb_saved w
  ∧ (do_print a = false → stdout w' = stdout w).
Proof.
  intros Hno Hrun. apply learn_inv in Hrun.
  destruct (Dataset.py_in _ _); [|destruct Hrun as [-> _]; auto 10].
  destruct Hrun as (w1 & rm & Hs & Hrest).
  unfold start_logging in Hs. rewrite Hno in Hs. injection Hs as <- <-.
  destruct Hrest as (w2 & rt & Ht & Hrest). simpl in Ht.
  assert (w' = w2) as ->.
  { destruct rt; [destruct Hrest as [-> _]|destruct Hrest as [-> _]];
      reflexivity. }
  pose proof (train_scoped _ _ _ _ Ht) as (Hd & Ha & _ & _).
  pose proof (train_untouched _ _ _ _ Ht) as (Hst & Hf & Hw & Hp & _).
  destruct (Hw Hno) as (Hfiles & Hlog & Hsaved). auto 10.
Qed.


(** The run directory is made before the with-block of the run is
    entered. When a file or directory of the name of the new run exists
    already, [os.mkdir] raises [FileExistsError] out of the function: the
    run that [wandb.init] has just started is left active and is not
    finished (only a run that was active before is, by [reinit]), and
    nothing else has happened: no seeding, no hook, no training pass, no
    change to the file system. *)
Theorem existing_run_directory_leaks_run (a : args) (w w' : world)
    (r : result (list Q)) :
  use_wandb a = true →
  Dataset.py_in (neutral_loss_method a)
    ["abs_of_mean"; "mean_of_abs"]%string = true →
  path_exists (wandb_run_name (wandb_started w)) w = true →
  learn_activation_addition a w = (w', r) →
  r = Raise FileExistsError
  ∧ wandb_active w' = Some (wandb_run_name (wandb_started w))
  ∧ wandb_finished w' = match wandb_active w with
                        | Some old => wandb_finished w ++ [old]
                        | None => wandb_finished w
                        end
  ∧ dirs w' = dirs w ∧ files w' = files w
  ∧ global_rng w' = global_rng w ∧ hooks w' = hooks w
  ∧ params w' = params w
  ∧ training_passes w' = training_passes w.
Proof.
  intros Hwandb Hmethod Hexists Hrun. apply learn_inv in Hrun.
  rewrite Hmethod in Hrun. destruct Hrun as (w1 & rm & Hs & Hrest).
  revert Hs. unfold start_logging, bind, wandb_init, os_mkdir.
  rewrite Hwandb.
  match goal with
  | |- context [path_exists ?n ?w0] =>
      change (path_exists n w0)
        with (path_exists (wandb_run_name (wandb_started w)) w)
  end.
  rewrite Hexists. intros [= <- <-]. destruct Hrest as [-> ->]. simpl.
  repeat split; reflexivity.
Qed.

Lemma with_manager_inv {A} (manager : option string) (c : M A)
    (w w' : world) (r : result A) :
  with_manager manager c w = (w', r) →
  ∃ w0, c w = (w0, r)
        ∧ hooks w' = hooks w0 ∧ params w' = params w0
        ∧ training_passes w' = training_passes w0
        ∧ wandb_saved w' = wandb_saved w0 ∧ files w' = files w0
        ∧ dirs w' = dirs w0.
Proof.
  destruct manager as [name|]; unfold with_manager, try_finally.
  - destruct (c w) as [w0 r0]. intros [= <- <-]. exists w0.
    unfold wandb_finish. destruct (wandb_active w0); simpl; auto 10.
  - intros Hc. exists w'. auto 10.
Qed.

Lemma start_logging_keeps (a : args) (w w1 : world) rm :
  start_logging a w = (w1, rm) →
  hooks w1 = hooks w ∧ params w1 = params w
  ∧ training_passes w1 = training_passes w
  ∧ wandb_saved w1 = wandb_saved w ∧ files w1 = files w.
Proof.
  unfold start_logging, bind, wandb_init, os_mkdir, ret.
  destruct (use_wandb a); [|intros [= <- _]; auto 10].
  destruct (path_exists _ _); intros [= <- _]; auto 10.
Qed.

Lemma rmtree_keeps (name : string) (w w' : world) rr :
  shutil_rmtree name w = (w', rr) →
  params w' = params w ∧ training_passes w' = training_passes w
  ∧ wandb_saved w' = wandb_saved w.
Proof.
  unfold shutil_rmtree. destruct (existsb _ _); intros [= <- _]; auto.
Qed.

(** From a run of [learn_activation_addition] that returns a vector to
    the run of [train] inside it. *)
Lemma learn_ok_inv (a : args) (w w' : world) (v : list Q) :
  learn_activation_addition a w = (w', Ok v) →
  ∃ w1 w2 manager cell,
    start_logging a w = (w1, Ok manager)
    ∧ train a w1 = (w2, Ok cell)
    ∧ params w2 !! cell = Some v
    ∧ training_passes w' = training_passes w2
    ∧ wandb_saved w' = wandb_saved w2
    ∧ (∀ name, manager = Some name →
               Forall (fun f => is_under name (fst f) = false) (files w')).
Proof.
  intros Hrun. apply learn_inv in Hrun.
  destruct (Dataset.py_in _ _); [|destruct Hrun as [_ [=]]].
  destruct Hrun as (w1 & rm & Hs & Hrest).
  destruct rm as [manager|e]; [|destruct Hrest as [_ [=]]].
  destruct Hrest as (w2 & rt & Ht & Hrest).
  destruct rt as [cell|e]; [|destruct Hrest as [_ [=]]].
  apply with_manager_inv in Ht as (w0 & Ht & _ & Hp & Htp & Hsv & _).
  exists w1, w0, manager, cell. split; [exact Hs|]. split; [exact Ht|].
  destruct manager as [name|].
  - destruct Hrest as (w3 & rr & Hr & -> & Hv).
    pose proof (rmtree_keeps _ _ _ _ Hr) as (Hp3 & Htp3 & Hsv3).
    destruct rr as [[]|e]; [|discriminate].
    unfold Dataset.lookup_or_raise in Hv. rewrite Hp3, Hp in Hv.
    destruct (params w0 !! cell) as [v'|]; [|discriminate].
    injection Hv as ->. split; [reflexivity|].
    split; [congruence|]. split; [congruence|].
    intros name' [= <-]. unfold shutil_rmtree in Hr.
    destruct (existsb _ _); [|discriminate]. injection Hr as <-. simpl.
    apply Forall_forall. intros f Hf.
    apply list_elem_of_In, filter_In in Hf as [_ Hf].
    destruct (is_under name (fst f)); [discriminate|reflexivity].
  - destruct Hrest as [-> Hv].
    unfold Dataset.lookup_or_raise in Hv. rewrite Hp in Hv.
    destruct (params w0 !! cell) as [v'|]; [|discriminate].
    injection Hv as ->. split; [reflexivity|].
    split; [congruence|]. split; [congruence|]. discriminate.
Qed.

(** [with model.hooks(fwd_hooks=[(name, f)]):], laid out. *)
Lemma model_hooks_inv {A} (name : string) (f : closure) (body : M A)
    (w w' : world) (r : result A) :
  model_hooks [(name, f)] body w = (w', r) →
  if hook_point name
  then ∃ wb,
      body (set_hooks (hooks w ++ [HookEntry (S (context_level w)) name f])
              (S (context_level w)) w) = (wb, r)
      ∧ w' = reset_hooks_end wb
  else w' = reset_hooks_end (set_hooks (hooks w) (S (context_level w)) w)
       ∧ r = Raise KeyError.
Proof.
  unfold model_hooks, try_finally, for_each, bind, modify, add_hook, ret.
  simpl. destruct (hook_point name).
  - destruct (body _) as [wb rb] eqn:Hb. intros [= <- <-]. eauto.
  - intros [= <- <-]. auto.
Qed.

(** A hook point the model does not have is found only when the hook is
    registered, after the dataset has been built: the call raises, and no
    training pass has run. *)
Theorem unknown_hook_point_never_trains (a : args) (w w' : world)
    (r : result (list Q)) :
  hook_point (act_name a) = false →
  learn_activation_addition a w = (w', r) →
  (∃ e, r = Raise e) ∧ training_passes w' = training_passes w.
Proof.
  intros Hhp Hrun. apply learn_inv in Hrun.
  destruct (Dataset.py_in _ _); [|destruct Hrun as [-> ->]; eauto].
  destruct Hrun as (w1 & rm & Hs & Hrest).
  pose proof (start_logging_keeps _ _ _ _ Hs) as (_ & _ & Hp1 & _).
  destruct rm as [manager|e]; [|destruct Hrest as [-> ->]; eauto].
  destruct Hrest as (w2 & rt & Ht & Hrest).
  apply with_manager_inv in Ht as (w0 & Ht & _ & _ & Hp2 & _).
  apply train_inv in Ht.
  assert ((∃ e, rt = Raise e) ∧ training_passes w0 = training_passes w1)
    as [[e ->] Hp0].
  { destruct (Dataset.init _ _ _ _ _) as [dataset|e].
    2: { destruct Ht as [-> ->]. eauto. }
    cbv zeta in Ht. destruct (batch_size a =? 0).
    { destruct Ht as [-> ->]. eauto. }
    destruct Ht as (r3 & Hm & ->). apply model_hooks_inv in Hm.
    rewrite Hhp in Hm. destruct Hm as [-> ->]. eauto. }
  destruct Hrest as [-> ->]. split; [eauto|congruence].
Qed.

(** With [num_epochs = 0] a call that returns gives back the vector it drew
    from the generator seeded with [seed], untrained. *)
Theorem zero_epochs_returns_seeded_draw (a : args) (w w' : world)
    (v : list Q) :
  num_epochs a = 0 →
  learn_activation_addition a w = (w', Ok v) →
  v = fst (randn d_model (manual_seed (seed a)))
  ∧ training_passes w' = training_passes w.
Proof.
  intros Hzero Hrun.
  apply learn_ok_inv in Hrun
    as (w1 & w2 & manager & cell & Hs & Ht & Hv & Hp & _).
  pose proof (start_logging_keeps _ _ _ _ Hs) as (_ & _ & Hp1 & _).
  apply train_inv in Ht.
  destruct (Dataset.init _ _ _ _ _) as [dataset|e];
    [|destruct Ht as [_ [=]]].
  cbv zeta in Ht. destruct (batch_size a =? 0); [destruct Ht as [_ [=]]|].
  destruct Ht as (r3 & Hm & Hr). apply model_hooks_inv in Hm.
  destruct (hook_point (act_name a)).
  2: { destruct Hm as [_ ->]. discriminate. }
  destruct Hm as (wb & Hb & ->). rewrite Hzero in Hb. simpl in Hb.
  injection Hb as <- <-. injection Hr as ->. simpl in Hv.
  rewrite list_lookup_middle in Hv by reflexivity.
  injection Hv as <-. split; [reflexivity|]. simpl in Hp. congruence.
Qed.

Lemma bind_ok_inv {A B} (c : M A) (k : A → M B) (w w' : world) (b : B) :
  bind c k w = (w', Ok b) → ∃ w1 x, c w = (w1, Ok x) ∧ k x w1 = (w', Ok b).
Proof.
  unfold bind. destruct (c w) as [w1 [x|e]]; [eauto|discriminate].
Qed.

Lemma keeps_length_same (cell n : nat) (w w' : world) :
  params w' = params w → keeps_length cell n w w'.
Proof. intros Hp Hw. rewrite Hp. exact Hw. Qed.

Lemma train_batch_keeps_length a dataset cell epoch st idxs (n : nat) :
  sized_collaborators →
  preserves (keeps_length cell n) (train_batch a dataset cell epoch st idxs).
Proof.
  intros (_ & Hgrad & Hstep) w w' r. unfold train_batch.
  destruct st as [[opt epoch_loss] batch_cnt].
  unfold bind at 1, lift at 1.
  destruct (Loader.fetch dataset idxs) as [b|e];
    [|intros [= <- _]; reflexivity].
  unfold bind at 1, get. unfold bind at 1, lift at 1.
  destruct (Dataset.lookup_or_raise (params w) cell) as [sv|e] eqn:Hsv;
    [|intros [= <- _]; reflexivity].
  unfold bind at 1, modify at 1. unfold bind at 1, lift at 1.
  destruct (loss_at a w cell b sv) as [loss|e];
    [|intros [= <- _]; apply keeps_length_same; reflexivity].
  pose proof (Hstep (lr a) (weight_decay a) opt sv
                (autograd (loss_at a w cell b) sv) (Hgrad _ _)) as Hlen.
  destruct (adamw_step _ _ _ _ _) as [sv' opt']. simpl in Hlen.
  unfold bind at 1, modify at 1.
  assert (∀ w0 : world,
             params w0 = <[cell := sv']> (params w) →
             keeps_length cell n w w0) as Hkeep.
  { intros w0 Hp0 (v & Hv & Hn). unfold Dataset.lookup_or_raise in Hsv.
    rewrite Hv in Hsv. injection Hsv as ->. exists sv'. rewrite Hp0.
    split; [|lia]. apply list_lookup_insert_eq.
    eapply lookup_lt_Some, Hv. }
  unfold when, wandb_log, modify, bind, ret.
  destruct (use_wandb a); intros [= <- _]; apply Hkeep; reflexivity.
Qed.

Lemma save_checkpoint_params cell epoch w w' r :
  save_checkpoint cell epoch w = (w', r) →
  params w' = params w ∧ training_passes w' = training_passes w.
Proof.
  unfold save_checkpoint, bind, wandb_run_dot_name, get, lift, save_tensor,
    wandb_save, modify.
  destruct (wandb_active w) as [name|]; [|intros [= <- _]; auto].
  destruct (Dataset.lookup_or_raise (params w) cell);
    [|intros [= <- _]; auto].
  destruct (existsb _ _); intros [= <- _]; auto.
Qed.

Lemma train_epoch_keeps_length a dataset cell st epoch (n : nat) :
  sized_collaborators →
  preserves (keeps_length cell n) (train_epoch a dataset cell st epoch).
Proof.
  intros Hsized. unfold train_epoch. destruct st as [opt generator].
  destruct (randperm _ _) as [perm generator'].
  apply preserves_bind; [apply _| |].
  { apply preserves_for_each; [apply _|apply _|].
    intros. apply train_batch_keeps_length, Hsized. }
  intros [[opt' epoch_loss] batch_cnt].
  apply preserves_bind; [apply _| |].
  { apply preserves_when; [apply _|].
    apply preserves_bind; [apply _|apply preserves_lift, _|]. intros mean.
    apply preserves_modify. intros w. apply keeps_length_same. reflexivity. }
  intros _.
  apply preserves_bind; [apply _| |intros _; apply preserves_ret, _].
  apply preserves_when; [apply _|]. intros w w' r Hrun.
  apply keeps_length_same. eapply save_checkpoint_params, Hrun.
Qed.

(** With collaborators that respect sizes, the vector a call returns has
    [d_model] entries, whatever the number of optimizer steps. *)
Theorem trained_vector_has_d_model_entries (a : args) (w w' : world)
    (v : list Q) :
  sized_collaborators →
  learn_activation_addition a w = (w', Ok v) →
  length v = d_model.
Proof.
  intros Hsized Hrun.
  apply learn_ok_inv in Hrun
    as (w1 & w2 & manager & cell & _ & Ht & Hv & _).
  apply train_inv in Ht.
  destruct (Dataset.init _ _ _ _ _) as [dataset|e];
    [|destruct Ht as [_ [=]]].
  cbv zeta in Ht. destruct (batch_size a =? 0); [destruct Ht as [_ [=]]|].
  destruct Ht as (r3 & Hm & Hr).
  destruct r3 as [st|e]; [|discriminate]. injection Hr as ->.
  assert (keeps_length (length (params w1)) d_model
            (set_params
               (params w1 ++ [fst (randn d_model (manual_seed (seed a)))])
               (set_global_rng
                  (snd (randn d_model (manual_seed (seed a)))) w1)) w2)
    as Hkeep.
  { revert Hm. apply preserves_model_hooks; [apply _|apply _| |].
    - intros w0 hs lvl. apply keeps_length_same. reflexivity.
    - apply preserves_for_each; [apply _|apply _|].
      intros. apply train_epoch_keeps_length, Hsized. }
  destruct Hkeep as (v' & Hv' & Hlen); [|congruence].
  exists (fst (randn d_model (manual_seed (seed a)))). simpl.
  split; [apply list_lookup_middle; reflexivity|].
  destruct Hsized as [Hrandn _]. apply Hrandn.
Qed.

Lemma for_each_count {A S} (m : world → nat) (c : nat) (xs : list A)
    (body : S → A → M S) (acc : S) (w w' : world) (s' : S) :
  (∀ s x w0 w1 s1, body s x w0 = (w1, Ok s1) → m w1 = m w0 + c) →
  for_each xs body acc w = (w', Ok s') → m w' = m w + length xs * c.
Proof.
  intros Hbody. revert acc w.
  induction xs as [|x xs IH]; intros acc w; simpl.
  - intros [= <- _]. lia.
  - intros Hrun. apply bind_ok_inv in Hrun as (w1 & s1 & Hb & Hrest).
    apply Hbody in Hb. apply IH in Hrest. lia.
Qed.

Lemma train_batch_one_pass a dataset cell epoch st idxs w w' st' :
  train_batch a dataset cell epoch st idxs w = (w', Ok st') →
  length (training_passes w') = length (training_passes w) + 1.
Proof.
  unfold train_batch. destruct st as [[opt epoch_loss] batch_cnt].
  unfold bind at 1, lift at 1.
  destruct (Loader.fetch dataset idxs) as [b|e]; [|discriminate].
  unfold bind at 1, get. unfold bind at 1, lift at 1.
  destruct (Dataset.lookup_or_raise (params w) cell) as [sv|e];
    [|discriminate].
  unfold bind at 1, modify at 1. unfold bind at 1, lift at 1.
  destruct (loss_at a w cell b sv) as [loss|e]; [|discriminate].
  destruct (adamw_step _ _ _ _ _) as [sv' opt'].
  unfold when, wandb_log, modify, bind, ret.
  destruct (use_wandb a); intros [= <- _]; simpl;
    rewrite length_app; reflexivity.
Qed.

Lemma train_epoch_passes a dataset cell st epoch w w' st' :
  full_sampler → 0 < batch_size a →
  train_epoch a dataset cell st epoch w = (w', Ok st') →
  length (training_passes w')
  = length (training_passes w)
    + (Dataset.len dataset + batch_size a - 1) / batch_size a.
Proof.
  intros Hfull Hbs. unfold train_epoch. destruct st as [opt generator].
  pose proof (Hfull (Dataset.len dataset) generator) as Hperm.
  destruct (randperm _ _) as [perm generator']. simpl in Hperm.
  intros Hrun. apply bind_ok_inv in Hrun as (w1 & totals & Hloop & Hrest).
  apply (for_each_count (fun w0 => length (training_passes w0)) 1)
    in Hloop; [|intros; eapply train_batch_one_pass; eassumption].
  unfold Loader.epoch_batches in Hloop.
  rewrite LoaderMore.batch_indices_count in Hloop by (simpl; lia).
  simpl in Hloop. rewrite Hperm, Nat.mul_1_r in Hloop. rewrite <- Hloop.
  destruct totals as [[opt' epoch_loss] batch_cnt].
  assert (same_passes w1 w') as Hsame;
    [|unfold same_passes in Hsame; congruence].
  revert Hrest.
  match goal with
  | |- ?c w1 = _ → _ => assert (preserves same_passes c) as Hc
  end; [|apply Hc].
  apply preserves_bind; [apply _| |].
  { apply preserves_when; [apply _|].
    apply preserves_bind; [apply _|apply preserves_lift, _|]. intros mean.
    apply preserves_modify. intros w0. reflexivity. }
  intros _.
  apply preserves_bind; [apply _| |intros _; apply preserves_ret, _].
  apply preserves_when; [apply _|]. intros w0 w0' r Hrun.
  eapply save_checkpoint_params, Hrun.
Qed.

(** The number of optimizer steps: under a sampler that draws every
    snippet once, a call that returns has run
    [num_epochs * ceil(len(dataset) / batch_size)] training passes. *)
Theorem training_pass_count (a : args) (dataset : Dataset.t)
    (w w' : world) (v : list Q) :
  full_sampler →
  Dataset.init (tokens_by_label a) (aligned_labels a) (opposed_labels a)
    (Some (forward (hooks_in_force (params w) w))) (batch_size a)
  = Ok dataset →
  learn_activation_addition a w = (w', Ok v) →
  length (training_passes w')
  = length (training_passes w)
    + num_epochs a
      * ((Dataset.len dataset + batch_size a - 1) / batch_size a).
Proof.
  intros Hfull Hinit Hrun.
  apply learn_ok_inv in Hrun
    as (w1 & w2 & manager & cell & Hs & Ht & _ & Hp & _).
  pose proof (start_logging_keeps _ _ _ _ Hs) as (Hh1 & Hp1 & Htp1 & _).
  apply train_inv in Ht.
  assert (hooks_in_force (params w1) w1 = hooks_in_force (params w) w)
    as Heq by (unfold hooks_in_force; rewrite Hh1, Hp1; reflexivity).
  rewrite Heq, Hinit in Ht. cbv zeta in Ht.
  destruct (Nat.eqb_spec (batch_size a) 0) as [|Hbs];
    [destruct Ht as [_ [=]]|].
  destruct Ht as (r3 & Hm & Hr). apply model_hooks_inv in Hm.
  destruct (hook_point (act_name a)).
  2: { destruct Hm as [_ ->]. discriminate. }
  destruct Hm as (wb & Hb & ->).
  destruct r3 as [st|e]; [|discriminate].
  apply (for_each_count (fun w0 => length (training_passes w0))
           ((Dataset.len dataset + batch_size a - 1) / batch_size a))
    in Hb.
  - rewrite length_seq in Hb. simpl in Hb. simpl in Hp. congruence.
  - intros s x w0 w0' s1 Hepoch.
    eapply train_epoch_passes; [exact Hfull|lia|exact Hepoch].
Qed.

Lemma for_each_trace {A S B} (P : world → Prop) (g : world → list B)
    (f : A → B) (xs : list A) (body : S → A → M S) (acc : S)
    (w w' : world) (s' : S) :
  (∀ s x w0 w1 s1, P w0 → body s x w0 = (w1, Ok s1) →
                   P w1 ∧ g w1 = g w0 ++ [f x]) →
  P w → for_each xs body acc w = (w', Ok s') →
  P w' ∧ g w' = g w ++ map f xs.
Proof.
  intros Hbody. revert acc w.
  induction xs as [|x xs IH]; intros acc w HP; simpl.
  - intros [= <- _]. rewrite app_nil_r. auto.
  - intros Hrun. apply bind_ok_inv in Hrun as (w1 & s1 & Hb & Hrest).
    apply Hbody in Hb as [HP1 Hg1]; [|exact HP].
    apply IH in Hrest as [HP' Hg']; [|exact HP1].
    split; [exact HP'|]. rewrite Hg', Hg1, <- app_assoc. reflexivity.
Qed.

Lemma train_batch_same_saved a dataset cell epoch st idxs :
  preserves same_saved (train_batch a dataset cell epoch st idxs).
Proof.
  unfold train_batch. destruct st as [[opt epoch_loss] batch_cnt].
  apply preserves_bind; [apply _|apply preserves_lift, _|]. intros b.
  apply preserves_bind; [apply _|apply preserves_get, _|]. intros w0.
  apply preserves_bind; [apply _|apply preserves_lift, _|]. intros sv.
  apply preserves_bind; [apply _| |].
  { apply preserves_modify. intros w. split; reflexivity. }
  intros _.
  apply preserves_bind; [apply _|apply preserves_lift, _|]. intros loss.
  destruct (adamw_step _ _ _ _ _) as [sv' opt'].
  apply preserves_bind; [apply _| |].
  { apply preserves_modify. intros w. split; reflexivity. }
  intros _.
  apply preserves_bind; [apply _| |intros _; apply preserves_ret, _].
  apply preserves_when; [apply _|].
  apply preserves_modify. intros w. split; reflexivity.
Qed.

Lemma save_checkpoint_saved (name : string) cell epoch w w' :
  wandb_active w = Some name →
  save_checkpoint cell epoch w = (w', Ok tt) →
  wandb_active w' = Some name
  ∧ wandb_saved w'
    = wandb_saved w ++ [path_join name (checkpoint_basename epoch)].
Proof.
  intros Hactive.
  unfold save_checkpoint, bind, wandb_run_dot_name, get, lift, save_tensor,
    wandb_save, modify.
  rewrite Hactive.
  destruct (Dataset.lookup_or_raise (params w) cell); [|discriminate].
  destruct (existsb _ _); [|discriminate].
  intros [= <-]. simpl. auto.
Qed.

Lemma train_epoch_saved (name : string) a dataset cell st epoch w w' st' :
  use_wandb a = true →
  wandb_active w = Some name →
  train_epoch a dataset cell st epoch w = (w', Ok st') →
  wandb_active w' = Some name
  ∧ wandb_saved w'
    = wandb_saved w ++ [path_join name (checkpoint_basename epoch)].
Proof.
  intros Hwandb Hactive. unfold train_epoch. destruct st as [opt generator].
  destruct (randperm _ _) as [perm generator'].
  intros Hrun. apply bind_ok_inv in Hrun as (w1 & totals & Hloop & Hrest).
  assert (same_saved w w1) as [Hs1 Ha1].
  { revert Hloop. apply preserves_for_each; [apply _|apply _|].
    intros. apply train_batch_same_saved. }
  destruct totals as [[opt' epoch_loss] batch_cnt].
  apply bind_ok_inv in Hrest as (w2 & [] & Hprint & Hrest).
  assert (same_saved w1 w2) as [Hs2 Ha2].
  { revert Hprint. apply preserves_when; [apply _|].
    apply preserves_bind; [apply _|apply preserves_lift, _|]. intros mean.
    apply preserves_modify. intros w0. split; reflexivity. }
  apply bind_ok_inv in Hrest as (w3 & [] & Hsave & Hret).
  injection Hret as <- _. rewrite Hwandb in Hsave. simpl in Hsave.
  apply (save_checkpoint_saved name) in Hsave as [Ha3 Hs3]; [|congruence].
  split; [exact Ha3|]. congruence.
Qed.

Lemma prefix_append (s t : string) : String.prefix s (s +:+ t) = true.
Proof.
  induction s as [|c s IH]; simpl; [destruct t; reflexivity|].
  destruct (Ascii.ascii_dec c c); [exact IH|congruence].
Qed.

Lemma append_assoc (s t u : string) : (s +:+ t) +:+ u = s +:+ (t +:+ u).
Proof.
  induction s as [|c s IH]; [reflexivity|].
  change (String c ((s +:+ t) +:+ u) = String c (s +:+ (t +:+ u))).
  rewrite IH. reflexivity.
Qed.

Lemma is_under_path_join (dir base : string) :
  is_under dir (path_join dir base) = true.
Proof.
  unfold is_under, path_join.
  replace (dir +:+ "/" +:+ base) with ((dir +:+ "/") +:+ base).
  - apply prefix_append.
  - first [reflexivity|apply append_assoc].
Qed.

(** With logging, a call that returns has handed one checkpoint path per
    epoch to [wandb.save], in the order of the epochs and under the
    directory of the run; and when it returns, none of these files exists
    any more: the run directory has been removed with them. *)
Theorem checkpoints_saved_then_deleted (a : args) (w w' : world)
    (v : list Q) :
  use_wandb a = true →
  learn_activation_addition a w = (w', Ok v) →
  wandb_saved w'
  = wandb_saved w
    ++ map (fun epoch => path_join (wandb_run_name (wandb_started w))
                           (checkpoint_basename epoch))
         (seq 0 (num_epochs a))
  ∧ ∀ epoch, path_join (wandb_run_name (wandb_started w))
               (checkpoint_basename epoch) ∉ map fst (files w').
Proof.
  intros Hwandb Hrun.
  apply learn_ok_inv in Hrun
    as (w1 & w2 & manager & cell & Hs & Ht & _ & _ & Hsv & Hfiles).
  assert (manager = Some (wandb_run_name (wandb_started w))
          ∧ wandb_active w1 = Some (wandb_run_name (wandb_started w))
          ∧ wandb_saved w1 = wandb_saved w) as (-> & Ha1 & Hs1).
  { revert Hs. unfold start_logging, bind, wandb_init, os_mkdir, ret.
    rewrite Hwandb. destruct (path_exists _ _); [discriminate|].
    intros [= <- <-]. auto. }
  split.
  - rewrite Hsv, <- Hs1. apply train_inv in Ht.
    destruct (Dataset.init _ _ _ _ _) as [dataset|e];
      [|destruct Ht as [_ [=]]].
    cbv zeta in Ht. destruct (batch_size a =? 0); [destruct Ht as [_ [=]]|].
    destruct Ht as (r3 & Hm & Hr). apply model_hooks_inv in Hm.
    destruct (hook_point (act_name a)).
    2: { destruct Hm as [_ ->]. discriminate. }
    destruct Hm as (wb & Hb & ->).
    destruct r3 as [st|e]; [|discriminate].
    apply (for_each_trace
             (fun w0 => wandb_active w0
                        = Some (wandb_run_name (wandb_started w)))
             wandb_saved
             (fun epoch => path_join (wandb_run_name (wandb_started w))
                             (checkpoint_basename epoch))) in Hb.
    + destruct Hb as [_ Hb]. exact Hb.
    + intros s x w0 w0' s1 Hactive Hepoch.
      eapply train_epoch_saved; eassumption.
    + exact Ha1.
  - intros epoch Hin. apply list_elem_of_In, in_map_iff in Hin
      as ([p x] & Hp & Hin). simpl in Hp. subst p.
    specialize (Hfiles _ eq_refl).
    rewrite Forall_forall in Hfiles.
    apply list_elem_of_In, Hfiles in Hin. simpl in Hin.
    rewrite is_under_path_join in Hin. discriminate.
Qed.

End More.

End TrainMore.

(** ** Runs of the trainer on a toy model, further *)

Module RunMore.
Import Train.

Abbreviation quiet_run :=
  (@learn_activation_addition (Toy.collaborators 1) (Toy.toy_args false)
     (Toy.empty_world 1 5)).

Abbreviation logged_run :=
  (@learn_activation_addition (Toy.collaborators 1) (Toy.toy_args true)
     (Toy.empty_world 1 5)).

Abbreviation blocked_run :=
  (@learn_activation_addition (Toy.collaborators 1) (Toy.toy_args true)
     (set_fs ["run"%string] [] (Toy.empty_world 1 5))).

Abbreviation misnamed_run :=
  (@learn_activation_addition (Toy.collaborators 1)
     (Toy.toy_args_at "blocks.7.hook_resid_pre" 2 false)
     (Toy.empty_world 1 5)).

Abbreviation idle_run :=
  (@learn_activation_addition (Toy.collaborators 1)
     (Toy.toy_args_at "blocks.0.hook_resid_pre" 0 false)
     (Toy.empty_world 1 5)).

Lemma toy_sized (d : nat) : @sized_collaborators (Toy.collaborators d).
Proof.
  unfold sized_collaborators. simpl. split; [|split].
  - intros n g. apply length_replicate.
  - intros f v. apply length_map.
  - intros l wd st p g Hlen. rewrite length_zip_with. lia.
Qed.

Lemma toy_full_sampler (d : nat) : @full_sampler (Toy.collaborators d).
Proof. intros n g. simpl. apply length_seq. Qed.

Lemma no_logging_no_traces_witness :
  use_wandb (Toy.toy_args false) = false
  ∧ dirs (fst quiet_run) = [] ∧ files (fst quiet_run) = []
  ∧ wandb_logged (fst quiet_run) = [] ∧ wandb_saved (fst quiet_run) = [].
Proof.
  split; [reflexivity|].
  destruct (TrainMore.no_logging_no_traces (H := Toy.collaborators 1)
              (Toy.toy_args false) (Toy.empty_world 1 5)
              (fst quiet_run) (snd quiet_run))
    as (Hd & Hf & _ & _ & _ & Hl & Hs & _).
  - reflexivity.
  - apply surjective_pairing.
  - split; [exact Hd|]. split; [exact Hf|]. split; [exact Hl|exact Hs].
Defined.


Lemma existing_run_directory_leaks_run_witness :
  snd blocked_run = Raise FileExistsError
  ∧ wandb_active (fst blocked_run) = Some "run"%string
  ∧ wandb_finished (fst blocked_run) = [].
Proof.
  destruct (TrainMore.existing_run_directory_leaks_run
              (H := Toy.collaborators 1)
              (Toy.toy_args true)
              (set_fs ["run"%string] [] (Toy.empty_world 1 5))
              (fst blocked_run) (snd blocked_run))
    as (Hr & Ha & Hf & _).
  - reflexivity.
  - reflexivity.
  - reflexivity.
  - apply surjective_pairing.
  - split; [exact Hr|]. split; [exact Ha|exact Hf].
Defined.

Lemma unknown_hook_point_never_trains_witness :
  is_ok (snd misnamed_run) = false
  ∧ training_passes (fst misnamed_run) = [].
Proof.
  destruct (TrainMore.unknown_hook_point_never_trains
              (H := Toy.collaborators 1)
              (Toy.toy_args_at "blocks.7.hook_resid_pre" 2 false)
              (Toy.empty_world 1 5)
              (fst misnamed_run) (snd misnamed_run))
    as [[e He] Hp].
  - reflexivity.
  - apply surjective_pairing.
  - split; [rewrite He; reflexivity|exact Hp].
Defined.

Lemma zero_epochs_returns_seeded_draw_witness :
  snd idle_run = Ok [inject_Z 0]
  ∧ training_passes (fst idle_run) = [].
Proof.
  assert (∃ v, snd idle_run = Ok v) as [v Hv]
    by (eexists; vm_compute; reflexivity).
  destruct (TrainMore.zero_epochs_returns_seeded_draw
              (H := Toy.collaborators 1)
              (Toy.toy_args_at "blocks.0.hook_resid_pre" 0 false)
              (Toy.empty_world 1 5) (fst idle_run) v)
    as [Hdraw Hp].
  - reflexivity.
  - rewrite <- Hv. apply surjective_pairing.
  - split; [rewrite Hv, Hdraw; reflexivity|exact Hp].
Defined.

Lemma trained_vector_has_d_model_entries_witness :
  ∃ v, snd quiet_run = Ok v ∧ length v = 1.
Proof.
  assert (∃ v, snd quiet_run = Ok v) as [v Hv]
    by (eexists; vm_compute; reflexivity).
  exists v. split; [exact Hv|].
  apply (TrainMore.trained_vector_has_d_model_entries
           (H := Toy.collaborators 1)
           (Toy.toy_args false) (Toy.empty_world 1 5) (fst quiet_run) v).
  - apply toy_sized.
  - rewrite <- Hv. apply surjective_pairing.
Defined.

Lemma training_pass_count_witness :
  length (training_passes (fst quiet_run)) = 2 * ((3 + 2 - 1) / 2).
Proof.
  assert (∃ v, snd quiet_run = Ok v) as [v Hv]
    by (eexists; vm_compute; reflexivity).
  assert (∃ ds, Dataset.init Toy.tokens_AB ["A"%string] (Some ["B"%string])
                  (Some (Toy.toy_forward [])) 2 = Ok ds
                ∧ Dataset.len ds = 3) as (ds & Hinit & Hlen)
    by (eexists; split; vm_compute; reflexivity).
  rewrite (TrainMore.training_pass_count (H := Toy.collaborators 1)
             (Toy.toy_args false) ds (Toy.empty_world 1 5)
             (fst quiet_run) v).
  - rewrite Hlen. reflexivity.
  - apply toy_full_sampler.
  - exact Hinit.
  - rewrite <- Hv. apply surjective_pairing.
Defined.

Lemma checkpoints_saved_then_deleted_witness :
  wandb_saved (fst logged_run)
  = ["run/steering_vector_epoch_0000.pt"%string;
     "run/steering_vector_epoch_0001.pt"%string]
  ∧ files (fst logged_run) = [].
Proof.
  assert (∃ v, snd logged_run = Ok v) as [v Hv]
    by (eexists; vm_compute; reflexivity).
  destruct (TrainMore.checkpoints_saved_then_deleted
              (H := Toy.collaborators 1)
              (Toy.toy_args true) (Toy.empty_world 1 5) (fst logged_run) v)
    as [Hsaved _].
  - reflexivity.
  - rewrite <- Hv. apply surjective_pairing.
  - split; [rewrite Hsaved|]; vm_compute; reflexivity.
Defined.

End RunMore.

(** ** The metrics, further *)

Module MetricsMore.
Import Metrics.

Lemma sum_list_map_app {A} (f : A → nat) (l k : list A) :
  sum_list (map f (l ++ k)) = sum_list (map f l) + sum_list (map f k).
Proof. induction l as [|x l IH]; simpl; [reflexivity|]. rewrite IH. lia. Qed.

Lemma map_add_zip {A} (f g : A → nat) (l : list A) :
  map (fun x => f x + g x) l = zip_with Nat.add (map f l) (map g l).
Proof. induction l as [|x l IH]; simpl; [reflexivity|]. rewrite IH. reflexivity. Qed.

(** The counts of a word list are the sums, string by string, of the counts
    of its parts: a word that is listed twice is counted twice. *)
Theorem word_lists_add_up (words1 words2 : list string)
    (case_sensitive : bool) (strs : list string) :
  column (get_word_count_metric (words1 ++ words2) case_sensitive strs)
  = zip_with Nat.add
      (column (get_word_count_metric words1 case_sensitive strs))
      (column (get_word_count_metric words2 case_sensitive strs)).
Proof.
  unfold get_word_count_metric. simpl. rewrite <- map_add_zip.
  apply map_ext. intros s.
  destruct case_sensitive; simpl; [|rewrite map_app];
    apply sum_list_map_app.
Qed.

Lemma word_char_not_space (c : Ascii.ascii) :
  is_word_char c = true → is_space c = false.
Proof.
  destruct c as [[] [] [] [] [] [] [] []]; vm_compute; congruence.
Qed.

Lemma lower_char_non_word (c : Ascii.ascii) :
  is_word_char c = false → lower_char c = c.
Proof.
  destruct c as [[] [] [] [] [] [] [] []]; vm_compute; congruence.
Qed.

Lemma list_ascii_app (s t : string) :
  String.list_ascii_of_string (s +:+ t)
  = String.list_ascii_of_string s ++ String.list_ascii_of_string t.
Proof.
  induction s as [|c s IH]; [reflexivity|].
  change (c :: String.list_ascii_of_string (s +:+ t)
          = c :: (String.list_ascii_of_string s
                  ++ String.list_ascii_of_string t)).
  rewrite IH. reflexivity.
Qed.

(** What [split] returns after the substitution: words, none empty, of
    word characters only. *)
Lemma tokens_are_words (s cur : string) :
  Forall (fun c => is_word_char c = true) (String.list_ascii_of_string cur) →
  Forall (fun tok =>
            tok ≠ EmptyString
            ∧ Forall (fun c => is_word_char c = true)
                     (String.list_ascii_of_string tok))
         (split_ws cur (sub_non_word s)).
Proof.
  revert cur. induction s as [|c s IH]; intros cur Hcur; simpl.
  - destruct cur; [constructor|]. constructor; [|constructor].
    split; [discriminate|exact Hcur].
  - destruct (is_word_char c) eqn:Hc.
    + rewrite (word_char_not_space c Hc). apply IH.
      rewrite list_ascii_app. apply Forall_app. split; [exact Hcur|].
      constructor; [exact Hc|constructor].
    + change (is_space (Ascii.ascii_of_nat 32)) with true. cbv iota.
      destruct cur as [|c0 cur].
      * apply IH. constructor.
      * constructor; [split; [discriminate|exact Hcur]|].
        apply IH. constructor.
Qed.

Lemma count_zero (toks : list string) (word : string) :
  Forall (fun tok => tok ≠ word) toks → count toks word = 0.
Proof.
  unfold count. induction 1 as [|tok toks Hne _ IH]; [reflexivity|].
  simpl. destruct (String.eqb_spec word tok) as [->|_];
    [contradiction|exact IH].
Qed.

Lemma list_ascii_lower (s : string) :
  String.list_ascii_of_string (lower s)
  = map lower_char (String.list_ascii_of_string s).
Proof. induction s as [|c s IH]; simpl; [reflexivity|]. rewrite IH. reflexivity. Qed.

Lemma lower_keeps_non_word (w : string) :
  w = EmptyString
  ∨ (∃ c, c ∈ String.list_ascii_of_string w ∧ is_word_char c = false) →
  lower w = EmptyString
  ∨ (∃ c, c ∈ String.list_ascii_of_string (lower w)
          ∧ is_word_char c = false).
Proof.
  intros [->|(c & Hin & Hc)]; [left; reflexivity|right].
  exists c. split; [|exact Hc]. rewrite list_ascii_lower.
  rewrite <- (lower_char_non_word c Hc). apply list_elem_of_fmap_2'
    with (x := c); [exact Hin|reflexivity].
Qed.

Lemma sum_list_zero {A} (f : A → nat) (l : list A) :
  Forall (fun x => f x = 0) l → sum_list (map f l) = 0.
Proof. induction 1 as [|x l Hx _ IH]; simpl; [reflexivity|]. lia. Qed.

Lemma unmatched_count (s w : string) :
  w = EmptyString
  ∨ (∃ c, c ∈ String.list_ascii_of_string w ∧ is_word_char c = false) →
  count (split_ws EmptyString (sub_non_word s)) w = 0.
Proof.
  intros Hw. apply count_zero.
  eapply Forall_impl; [apply tokens_are_words; constructor|].
  intros tok [Hne Hchars] ->.
  destruct Hw as [->|(c & Hin & Hc)]; [contradiction|].
  rewrite Forall_forall in Hchars. apply Hchars in Hin. congruence.
Qed.

(** On ASCII words and strings. The strings are split at every character
    that is not a letter, a digit or an underscore before the words are
    looked up. A listed word that holds such a character (an apostrophe, a
    hyphen, a space) or is empty is never counted, in whatever string. *)
Theorem words_with_punctuation_never_count (words : list string)
    (case_sensitive : bool) (strs : list string) :
  Forall (fun w => is_ascii w = true) words →
  Forall (fun s => is_ascii s = true) strs →
  Forall (fun w =>
            w = EmptyString
            ∨ ∃ c, c ∈ String.list_ascii_of_string w
                   ∧ is_word_char c = false) words →
  column (get_word_count_metric words case_sensitive strs)
  = map (fun _ => 0) strs.
Proof.
  intros _ _ Hwords. unfold get_word_count_metric. simpl.
  destruct case_sensitive; simpl.
  - apply map_ext. intros s. apply sum_list_zero.
    eapply Forall_impl; [exact Hwords|]. intros w Hw.
    apply unmatched_count, Hw.
  - rewrite map_map. apply map_ext. intros s. apply sum_list_zero.
    apply Forall_fmap. eapply Forall_impl; [exact Hwords|]. intros w Hw.
    apply unmatched_count, lower_keeps_non_word, Hw.
Qed.

Lemma words_with_punctuation_never_count_witness :
  column (get_word_count_metric ["don't"; "ice cream"; ""]%string false
            ["I don't like ice cream"; "Don't"]%string)
  = [0; 0].
Proof.
  apply (words_with_punctuation_never_count
           ["don't"; "ice cream"; ""]%string false
           ["I don't like ice cream"; "Don't"]%string).
  { repeat constructor. }
  { repeat constructor. }
  constructor; [|constructor; [|constructor; [|constructor]]].
  - right. exists (Ascii.ascii_of_nat 39). split; [|reflexivity].
    apply list_elem_of_In. simpl. auto 10.
  - right. exists (Ascii.ascii_of_nat 32). split; [|reflexivity].
    apply list_elem_of_In. simpl. auto 10.
  - left. reflexivity.
Defined.

Lemma chunks_shape {A} (lst : list A) (size : nat) (cs : list (list A)) :
  chunks lst size = Ok cs →
  0 < size
  ∧ cs = map (fun i => take size (drop (i * size) lst))
             (seq 0 ((length lst + size - 1) / size)).
Proof.
  unfold chunks, Dataset.py_range_from0.
  destruct (Nat.eqb_spec size 0) as [|Hsize]; [discriminate|].
  simpl. intros [= <-]. rewrite map_map. split; [lia|reflexivity].
Qed.



Lemma fold_digits_pos (d : Decimal.uint) (p : positive) :
  fold_left digit_step
    (String.list_ascii_of_string (DecimalString.NilEmpty.string_of_uint d))
    (N.pos p)
  = N.pos (Pos.of_uint_acc d p).
Proof.
  revert p. induction d as [|d IH|d IH|d IH|d IH|d IH|d IH|d IH|d IH|d IH|d IH];
    intros p; [reflexivity|..];
    cbn [DecimalString.NilEmpty.string_of_uint String.list_ascii_of_string
         fold_left Pos.of_uint_acc];
    rewrite <- IH; f_equal; unfold digit_step; simpl; lia.
Qed.

Lemma fold_digits_zero (d : Decimal.uint) :
  fold_left digit_step
    (String.list_ascii_of_string (DecimalString.NilEmpty.string_of_uint d))
    0%N
  = Pos.of_uint d.
Proof.
  induction d as [|d IH|d IH|d IH|d IH|d IH|d IH|d IH|d IH|d IH|d IH];
    [reflexivity|exact IH|..];
    cbn [DecimalString.NilEmpty.string_of_uint String.list_ascii_of_string
         fold_left Pos.of_uint];
    apply fold_digits_pos.
Qed.

Lemma digits_of_uint (d : Decimal.uint) :
  forallb is_digit
    (String.list_ascii_of_string (DecimalString.NilEmpty.string_of_uint d))
  = true.
Proof.
  induction d as [|d IH|d IH|d IH|d IH|d IH|d IH|d IH|d IH|d IH|d IH];
    [reflexivity|..]; exact IH.
Qed.

Lemma isdigit_decimal (n : N) :
  isdigit (DecimalString.NilEmpty.string_of_uint (N.to_uint n)) = true.
Proof.
  unfold isdigit.
  assert (DecimalString.NilEmpty.string_of_uint (N.to_uint n)
          ≠ EmptyString) as Hne.
  { intros Hs. pose proof (DecimalN.Unsigned.of_to n) as Hn.
    destruct (N.to_uint n) eqn:Hd; try discriminate Hs.
    simpl in Hn. subst n. discriminate Hd. }
  destruct (DecimalString.NilEmpty.string_of_uint (N.to_uint n))
    as [|c s] eqn:Hs; [contradiction|].
  rewrite <- Hs. apply digits_of_uint.
Qed.

Lemma isdigit_false (s : string) :
  isdigit s = false
  ↔ s = EmptyString
    ∨ ∃ c, c ∈ String.list_ascii_of_string s ∧ is_digit c = false.
Proof.
  unfold isdigit. destruct s as [|c s].
  { split; [auto|reflexivity]. }
  destruct (forallb _ _) eqn:Hall.
  - split; [discriminate|]. intros [|(c' & Hin & Hc')]; [discriminate|].
    rewrite forallb_forall in Hall.
    apply list_elem_of_In, Hall in Hin. congruence.
  - split; [|reflexivity]. intros _. right.
    apply not_true_iff_false in Hall.
    assert (¬ Forall (fun c' => is_digit c' = true)
              (String.list_ascii_of_string (String c s))) as Hnot.
    { intros Hf. apply Hall, forallb_forall. intros x Hx.
      rewrite Forall_forall in Hf. apply Hf, list_elem_of_In, Hx. }
    apply not_Forall_Exists in Hnot; [|intros x; apply _].
    apply Exists_exists in Hnot as (c' & Hin & Hc').
    exists c'. split; [exact Hin|]. apply not_true_iff_false, Hc'.
Qed.

(** [_intify] on ASCII strings. It reads back the decimal writing of every
    natural number of at most 4300 digits; it gives [None] exactly for the
    empty string and for the strings that hold a character other than a
    digit (a sign, a point, a space); and it raises [ValueError] exactly
    for the strings of more than 4300 digits, which [int] refuses. *)
Theorem intify_reads_decimals :
  (∀ n : N,
      String.length (DecimalString.NilEmpty.string_of_uint (N.to_uint n))
      ≤ int_max_str_digits →
      _intify (DecimalString.NilEmpty.string_of_uint (N.to_uint n))
      = Ok (Some n))
  ∧ (∀ s : string,
        is_ascii s = true →
        (_intify s = Ok None
         ↔ s = EmptyString
           ∨ ∃ c, c ∈ String.list_ascii_of_string s ∧ is_digit c = false))
  ∧ (∀ s : string,
        is_ascii s = true →
        (_intify s = Raise ValueError
         ↔ isdigit s = true ∧ int_max_str_digits < String.length s)).
Proof.
  split; [|split].
  - intros n Hlen. unfold _intify, py_int.
    rewrite isdigit_decimal.
    destruct (Nat.ltb_spec int_max_str_digits
                (String.length
                   (DecimalString.NilEmpty.string_of_uint (N.to_uint n))))
      as [Hlt|_]; [lia|].
    cbn [rbind]. do 2 f_equal.
    unfold int_of_digits. rewrite fold_digits_zero.
    apply DecimalN.Unsigned.of_to.
  - intros s _. rewrite <- isdigit_false. unfold _intify, py_int.
    destruct (isdigit s); [|split; reflexivity].
    destruct (Nat.ltb_spec int_max_str_digits (String.length s));
      cbn [rbind]; split; discriminate.
  - intros s _. unfold _intify, py_int.
    destruct (isdigit s); [|split; [discriminate|intros [[=] _]]].
    destruct (Nat.ltb_spec int_max_str_digits (String.length s)) as [Hlt|Hge];
      cbn [rbind]; split.
    + auto.
    + reflexivity.
    + discriminate.
    + intros [_ Hlt]. lia.
Qed.

Lemma intify_reads_decimals_witness :
  _intify "42" = Ok (Some 42%N)
  ∧ _intify "-1" = Ok None
  ∧ _intify "4.5" = Ok None.
Proof.
  destruct intify_reads_decimals as (Hread & Hnone & _).
  split; [|split].
  - apply (Hread 42%N). apply Nat.leb_le. vm_compute. reflexivity.
  - apply (Hnone "-1"%string); [reflexivity|]. right.
    exists (Ascii.ascii_of_nat 45). split; [|reflexivity].
    apply list_elem_of_In. simpl. auto.
  - apply (Hnone "4.5"%string); [reflexivity|]. right.
    exists (Ascii.ascii_of_nat 46). split; [|reflexivity].
    apply list_elem_of_In. simpl. auto.
Defined.







Section OpenAIFacts.
Variable create : list string → nat → result (list string).
Variable criterion : string.
Variable max_reasoning_tokens : nat.

Lemma rate_chunk_requests (chunk : list string) :
  Forall (fun req : request => length (fst req) ≤ length chunk)
         (fst (rate_chunk create criterion max_reasoning_tokens chunk))
  ∧ length (fst (rate_chunk create criterion max_reasoning_tokens chunk))
    ≤ 2.
Proof.
  unfold rate_chunk.
  destruct (create (map _ chunk) max_reasoning_tokens) as [rs|e]; simpl.
  - match goal with
    | |- context [create ?ps 1] =>
        assert (length ps ≤ length chunk) as Hlen
    end.
    { rewrite length_map, length_zip_with, length_map. lia. }
    destruct (create _ 1); simpl; (split; [|lia]);
      (constructor; [simpl; rewrite length_map; lia|]);
      (constructor; [exact Hlen|constructor]).
  - split; [|lia]. constructor; [|constructor].
    simpl. rewrite length_map. lia.
Qed.

Lemma rate_chunks_requests (size : nat) (cs : list (list string))
    (ratings : list (option N)) (reasons : list string) :
  Forall (fun c => length c ≤ size) cs →
  Forall (fun req : request => length (fst req) ≤ size)
         (fst (rate_chunks create criterion max_reasoning_tokens cs
                 ratings reasons))
  ∧ length (fst (rate_chunks create criterion max_reasoning_tokens cs
                   ratings reasons))
    ≤ 2 * length cs.
Proof.
  intros Hcs. revert ratings reasons.
  induction Hcs as [|chunk cs Hchunk _ IH]; intros ratings reasons; simpl.
  - split; [constructor|lia].
  - pose proof (rate_chunk_requests chunk) as [Hsent Hn].
    destruct (rate_chunk _ _ _ chunk) as [sent [[chunk_ratings chunk_reasoning]|e]];
      simpl in *.
    + specialize (IH (ratings ++ chunk_ratings) (reasons ++ chunk_reasoning)).
      destruct (rate_chunks _ _ _ cs _ _) as [sent' r]. simpl in *.
      destruct IH as [IH1 IH2]. split.
      * apply Forall_app. split; [|exact IH1].
        eapply Forall_impl; [exact Hsent|]. simpl. intros. lia.
      * rewrite length_app. lia.
    + split; [|lia]. eapply Forall_impl; [exact Hsent|]. simpl. intros. lia.
Qed.

(** No request to the API holds more than [chunk_size] prompts, whatever
    the API answers, and at most two requests are sent per chunk. *)
Theorem openai_requests_within_chunk_size (chunk_size : nat)
    (strs : list string) :
  Forall (fun req : request => length (fst req) ≤ chunk_size)
         (fst (get_openai_metric create criterion chunk_size
                 max_reasoning_tokens strs))
  ∧ length (fst (get_openai_metric create criterion chunk_size
                   max_reasoning_tokens strs))
    ≤ 2 * ((length strs + chunk_size - 1) / chunk_size).
Proof.
  unfold get_openai_metric.
  destruct (chunks strs chunk_size) as [cs|e] eqn:Hcs; simpl.
  2: { split; [constructor|lia]. }
  apply chunks_shape in Hcs as [_ Hcs].
  assert (length cs = (length strs + chunk_size - 1) / chunk_size) as Hcount
    by (rewrite Hcs, length_map, length_seq; reflexivity).
  pose proof (rate_chunks_requests chunk_size cs [] []) as [Hsent Hn].
  { rewrite Hcs. apply Forall_forall. intros c Hc.
    apply list_elem_of_In, in_map_iff in Hc as (i & <- & _).
    rewrite length_take. lia. }
  destruct (rate_chunks _ _ _ cs [] []) as [sent r]. simpl in *.
  split; [exact Hsent|]. rewrite <- Hcount. exact Hn.
Qed.




End OpenAIFacts.


End MetricsMore.
